(** * jai-remote-acp-persona: connection and session lifecycle

    A shallow embedding of [remote_acp_client.py], [remote_acp_persona.py]
    and [example_persona.py].  Python coroutines are written in a small
    free monad whose suspension points ([await]) are explicit; the asyncio
    event loop is a task table driven by scheduler and environment steps.

    What the model fixes: an event loop is running whenever a constructor
    or [shutdown] is called, so [asyncio.create_task] returns a task;
    building the library objects ([TerminalManager], [Client],
    [connect_http_agent(...)] before its [__aenter__]) succeeds; the calls
    into the ACP library ([__aenter__], [initialize], [create_session],
    [close], [__aexit__], [prompt_and_reply]) are suspension points that
    the environment answers with a value or any exception.  The slash
    commands and the persona defaults play no part in the lifecycle and
    are left out. *)

From stdpp Require Import base option list gmap strings.
From Stdlib Require Ascii String.
From Stdlib Require Import NArith Lia.

Set Default Proof Using "Type".
Open Scope string_scope.
Open Scope list_scope.

(** ** Python strings

    A [str] is a sequence of Unicode code points. *)

Abbreviation pystr := (list N).

(** An ASCII literal as a [str]. *)
Definition str (s : string) : pystr := Ascii.N_of_ascii <$> String.list_ascii_of_string s.

(** [str.isspace] on one code point (the table behind
    [_PyUnicode_IsWhitespace]). *)
Definition is_space (c : N) : bool :=
  ((9 <=? c) && (c <=? 13) || (28 <=? c) && (c <=? 32)
   || (c =? 133) || (c =? 160) || (c =? 5760)
   || (8192 <=? c) && (c <=? 8202)
   || (c =? 8232) || (c =? 8233) || (c =? 8239) || (c =? 8287)
   || (c =? 12288))%N.

Fixpoint lstrip (s : pystr) : pystr :=
  match s with
  | c :: s' => if is_space c then lstrip s' else s
  | [] => []
  end.

Definition rstrip (s : pystr) : pystr := reverse (lstrip (reverse s)).

(** [s.strip()] with no argument. *)
Definition strip (s : pystr) : pystr := rstrip (lstrip s).

(** [s.startswith(pre)]. *)
Fixpoint startswith (s pre : pystr) {struct pre} : bool :=
  match pre, s with
  | [], _ => true
  | a :: pre', b :: s' => (a =? b)%N && startswith s' pre'
  | _ :: _, [] => false
  end.

(** [s.replace(old, new)] for a non-empty [old]: leftmost occurrences, not
    overlapping.  [skip] counts the characters of an occurrence that was
    just matched and is still to be passed over. *)
Fixpoint replace_from (old new : pystr) (skip : nat) (s : pystr) : pystr :=
  match s with
  | [] => []
  | c :: s' =>
      match skip with
      | S k => replace_from old new k s'
      | O =>
          if startswith s old
          then new ++ replace_from old new (length old - 1) s'
          else c :: replace_from old new 0 s'
      end
  end.

(** With an empty [old], Python puts [new] before every character and at
    the end. *)
Definition replace (s old new : pystr) : pystr :=
  match old with
  | [] => new ++ concat ((λ c, c :: new) <$> s)
  | _ :: _ => replace_from old new 0 s
  end.

(** Truth value of a [str]: empty is false. *)
Definition truthy (s : pystr) : bool :=
  match s with [] => false | _ :: _ => true end.

(** ** Exceptions *)

Inductive exn_class :=
| BaseException | Exception | ValueError | TypeError | AttributeError
| RuntimeError | OSError | ConnectionError | CancelledError
| KeyboardInterrupt
| LibraryError (name : string).  (* an [Exception] subclass of a library *)

Global Instance exn_class_eq_dec : EqDecision exn_class.
Proof. solve_decision. Defined.

(** The method resolution order of the exception classes. *)
Definition exn_mro (c : exn_class) : list exn_class :=
  match c with
  | BaseException => [BaseException]
  | Exception => [Exception; BaseException]
  | OSError => [OSError; Exception; BaseException]
  | ConnectionError => [ConnectionError; OSError; Exception; BaseException]
  | CancelledError => [CancelledError; BaseException]
  | KeyboardInterrupt => [KeyboardInterrupt; BaseException]
  | _ => [c; Exception; BaseException]
  end.

Definition issubclass (c d : exn_class) : bool := bool_decide (d ∈ exn_mro c).

Record exn := Exn { exn_cls : exn_class; exn_arg : string }.

Definition isinstance (e : exn) (d : exn_class) : bool := issubclass (exn_cls e) d.

Inductive outcome (A : Type) :=
| Ok (a : A)
| Err (e : exn).
Arguments Ok {A} a.
Arguments Err {A} e.

(** ** Objects, awaited library operations, log records *)

Abbreviation task_id := nat.
Abbreviation client_id := nat.
Abbreviation persona_id := nat.

Inductive value :=
| VNone
| VClient (cl : client_id)
| VConn (handle : nat)
| VSession (session_id : pystr).

(** Operations of the ACP library and of [JaiAcpClient] that the code
    awaits.  Their results come from the environment. *)
Inductive ext_call :=
| ContextAenter (cl : client_id) (url : pystr)
| ConnInitialize (cl : client_id) (conn : value)
| CreateSession (client : value) (persona : persona_id)
| GetConnection (client : value)
| ConnClose (conn : value)
| ContextAexit (cl : client_id)
| PromptAndReply (client : value) (session_id prompt : pystr).

Global Instance value_eq_dec : EqDecision value.
Proof. solve_decision. Defined.
Global Instance ext_call_eq_dec : EqDecision ext_call.
Proof. solve_decision. Defined.

(** The coroutine objects handed to [event_loop.create_task]. *)
Inductive code :=
| CoInitClient (self : persona_id)          (* self._init_client() *)
| CoInitClientSession (self : persona_id)   (* self._init_client_session() *)
| CoInitConnection (self : client_id)       (* self._init_connection() *)
| CoShutdown (self : persona_id)            (* self._shutdown() *)
| CoProcessMessage (self : persona_id) (body : pystr)
| CoClose (self : client_id).               (* client.close() *)

Global Instance code_eq_dec : EqDecision code.
Proof. solve_decision. Defined.

(** The f-string of each logging call, with its arguments. *)
Inductive log_msg :=
| MsgConnecting (url : pystr)
| MsgConnected (url : pystr)
| MsgConnectFailed (url : pystr) (e : exn)
| MsgClosedConnection (url : pystr)
| MsgErrorClosing (e : exn)
| MsgInitClient (cls : string) (url : pystr)
| MsgInitSession (cls : string) (session_id : pystr)
| MsgClosingClient (cls : string)
| MsgCleanupError (e : exn)
| MsgCompletedClosing (cls : string).

Inductive log_record :=
| LogInfo (m : log_msg)
| LogError (m : log_msg).

Record persona := Persona {
  p_cls : string;                       (* self.__class__ *)
  p_mention : pystr;                    (* self.as_user().mention_name *)
  p_remote_url : option pystr;          (* self._remote_url *)
  p_session_future : option task_id;    (* self._client_session_future *)
}.

Record client := Client {
  c_remote_url : pystr;                 (* self._remote_url *)
  c_context : bool;                     (* self._connection_context is set *)
  c_conn_future : option task_id;       (* self._connection_future *)
}.

(** ** Programs *)

Inductive wait :=
| OnTask (t : task_id)     (* await <task> *)
| OnExt (c : ext_call).    (* await <library coroutine> *)

Inductive eff : Type → Type :=
| CreateTask (c : code) : eff task_id
| ClassDictHas (cls : string) : eff bool
| ClassGetattr (cls : string) : eff (option (option task_id))
| ClassSetattr (cls : string) (t : task_id) : eff unit
| NewPersona (cls : string) (mention : pystr) : eff persona_id
| PersonaSetUrl (p : persona_id) (url : pystr) : eff unit
| PersonaSetSessionFuture (p : persona_id) (t : task_id) : eff unit
| PersonaGet (p : persona_id) : eff (option persona)
| EnvironGet (key : string) : eff (option pystr)
| NewClient (url : pystr) : eff client_id
| ClientSetContext (cl : client_id) : eff unit
| ClientSetConnFuture (cl : client_id) (t : task_id) : eff unit
| ClientGet (cl : client_id) : eff (option client)
| Log (r : log_record) : eff unit.

Inductive prog (A : Type) : Type :=
| Ret (a : A)
| Raise (e : exn)
| Do {X : Type} (e : eff X) (k : X → prog A)
| AwaitP (on : wait) (k : outcome value → prog A).
Arguments Ret {A} a.
Arguments Raise {A} e.
Arguments Do {A X} e k.
Arguments AwaitP {A} on k.

Fixpoint bind {A B} (m : prog A) (f : A → prog B) : prog B :=
  match m with
  | Ret a => f a
  | Raise e => Raise e
  | Do e k => Do e (λ x, bind (k x) f)
  | AwaitP on k => AwaitP on (λ o, bind (k o) f)
  end.

(** [try: m except ...: h]; the handler answers [None] for an exception
    that no [except] clause matches. *)
Fixpoint try_except {A} (m : prog A) (h : exn → option (prog A)) : prog A :=
  match m with
  | Ret a => Ret a
  | Raise e => match h e with Some q => q | None => Raise e end
  | Do e k => Do e (λ x, try_except (k x) h)
  | AwaitP on k => AwaitP on (λ o, try_except (k o) h)
  end.

Global Instance prog_ret : MRet prog := λ A a, Ret a.
Global Instance prog_bind : MBind prog := λ A B f m, bind m f.

Definition perform {X} (e : eff X) : prog X := Do e Ret.

(** [await]: the awaited result, or its exception raised here. *)
Definition await (on : wait) : prog value :=
  AwaitP on (λ o, match o with Ok v => Ret v | Err e => Raise e end).

Definition raise {A} (c : exn_class) (arg : string) : prog A := Raise (Exn c arg).

(** [except Exception as e: h e] *)
Definition except_Exception {A} (h : exn → prog A) (e : exn) : option (prog A) :=
  if isinstance e Exception then Some (h e) else None.

(** ** The interpreter state *)

Inductive tstate :=
| Ready                                               (* created, not yet run *)
| Waiting (on : wait) (k : outcome value → prog value) (* suspended at an await *)
| Done (o : outcome value).                           (* result or exception set *)

Record task := Task { t_code : code; t_state : tstate }.

Record world := World {
  class_mro : string → list string;     (* cls.__mro__ after cls itself *)
  environ : gmap string pystr;          (* os.environ *)
  classes : gmap string (option task_id);
                                        (* cls.__dict__['_client_future'], per class *)
  personas : list persona;
  clients : list client;
  tasks : list task;                    (* every task the loop was given *)
  log : list log_record;
  calls : list ext_call;                (* library operations awaited so far *)
}.

Definition with_classes (f : gmap string (option task_id) → gmap string (option task_id))
    (w : world) : world :=
  World (class_mro w) (environ w) (f (classes w)) (personas w) (clients w)
        (tasks w) (log w) (calls w).
Definition with_personas (f : list persona → list persona) (w : world) : world :=
  World (class_mro w) (environ w) (classes w) (f (personas w)) (clients w)
        (tasks w) (log w) (calls w).
Definition with_clients (f : list client → list client) (w : world) : world :=
  World (class_mro w) (environ w) (classes w) (personas w) (f (clients w))
        (tasks w) (log w) (calls w).
Definition with_tasks (f : list task → list task) (w : world) : world :=
  World (class_mro w) (environ w) (classes w) (personas w) (clients w)
        (f (tasks w)) (log w) (calls w).
Definition with_log (f : list log_record → list log_record) (w : world) : world :=
  World (class_mro w) (environ w) (classes w) (personas w) (clients w)
        (tasks w) (f (log w)) (calls w).
Definition with_calls (f : list ext_call → list ext_call) (w : world) : world :=
  World (class_mro w) (environ w) (classes w) (personas w) (clients w)
        (tasks w) (log w) (f (calls w)).

(** [cls._client_future]: the entry of the first class in the MRO whose
    [__dict__] has one; [None] when no class has (AttributeError). *)
Definition class_getattr (w : world) (cls : string) : option (option task_id) :=
  head (omap (λ c, classes w !! c) (cls :: class_mro w cls)).

Definition task_state (w : world) (t : task_id) : option tstate :=
  t_state <$> tasks w !! t.

Definition handle {X} (e : eff X) (w : world) : world * X :=
  match e in eff X return world * X with
  | CreateTask c => (with_tasks (λ l, l ++ [Task c Ready]) w, length (tasks w))
  | ClassDictHas cls => (w, bool_decide (is_Some (classes w !! cls)))
  | ClassGetattr cls => (w, class_getattr w cls)
  | ClassSetattr cls t => (with_classes (insert cls (Some t)) w, ())
  | NewPersona cls mention =>
      (with_personas (λ l, l ++ [Persona cls mention None None]) w,
       length (personas w))
  | PersonaSetUrl p url =>
      (with_personas
         (alter (λ x, Persona (p_cls x) (p_mention x) (Some url) (p_session_future x)) p) w,
       ())
  | PersonaSetSessionFuture p t =>
      (with_personas
         (alter (λ x, Persona (p_cls x) (p_mention x) (p_remote_url x) (Some t)) p) w,
       ())
  | PersonaGet p => (w, personas w !! p)
  | EnvironGet key => (w, environ w !! key)
  | NewClient url =>
      (with_clients (λ l, l ++ [Client url false None]) w, length (clients w))
  | ClientSetContext cl =>
      (with_clients
         (alter (λ x, Client (c_remote_url x) true (c_conn_future x)) cl) w, ())
  | ClientSetConnFuture cl t =>
      (with_clients
         (alter (λ x, Client (c_remote_url x) (c_context x) (Some t)) cl) w, ())
  | ClientGet cl => (w, clients w !! cl)
  | Log r => (with_log (λ l, l ++ [r]) w, ())
  end.

Inductive result (A : Type) :=
| Finished (o : outcome A)
| Blocked (on : wait) (k : outcome value → prog A).
Arguments Finished {A} o.
Arguments Blocked {A} on k.

(** Runs a program up to its next suspension point.  Awaiting a task that
    is done does not suspend; awaiting a library coroutine always does. *)
Fixpoint run {A} (m : prog A) (w : world) : world * result A :=
  match m with
  | Ret a => (w, Finished (Ok a))
  | Raise e => (w, Finished (Err e))
  | Do e k => let '(w', x) := handle e w in run (k x) w'
  | AwaitP (OnTask t) k =>
      match task_state w t with
      | Some (Done o) => run (k o) w
      | _ => (w, Blocked (OnTask t) k)
      end
  | AwaitP (OnExt c) k => (with_calls (λ l, l ++ [c]) w, Blocked (OnExt c) k)
  end.

(** Reading an attribute that may be unset. *)
Definition attr {A} (name : string) (x : option A) : prog A :=
  match x with
  | Some a => mret a
  | None => raise AttributeError name
  end.

(** ** remote_acp_client.py *)

Module RemoteAcpClient.

(** [__init__(self, *args, remote_url, event_loop, **kwargs)].  The
    object enters the store at its first attribute assignment. *)
Definition __init__ (remote_url : pystr) : prog client_id :=
  if negb (truthy remote_url) || negb (truthy (strip remote_url)) then
    raise ValueError "remote_url cannot be empty"
  else if negb (startswith remote_url (str "ws://")
                || startswith remote_url (str "wss://")) then
    raise ValueError "remote_url must start with ws:// or wss://"
  else
    self ← perform (NewClient remote_url);
    t ← perform (CreateTask (CoInitConnection self));
    perform (ClientSetConnFuture self t);;
    mret self.

Definition _init_connection (self : client_id) : prog value :=
  me ← perform (ClientGet self) ≫= attr "self";
  perform (Log (LogInfo (MsgConnecting (c_remote_url me))));;
  try_except
    (perform (ClientSetContext self);;
     conn ← await (OnExt (ContextAenter self (c_remote_url me)));
     await (OnExt (ConnInitialize self conn));;
     perform (Log (LogInfo (MsgConnected (c_remote_url me))));;
     mret conn)
    (except_Exception (λ e,
       perform (Log (LogError (MsgConnectFailed (c_remote_url me) e)));;
       Raise e)).

Definition close (self : client_id) : prog value :=
  me ← perform (ClientGet self) ≫= attr "self";
  if c_context me then
    try_except
      (fut ← attr "_connection_future" (c_conn_future me);
       await (OnTask fut);;
       await (OnExt (ContextAexit self));;
       perform (Log (LogInfo (MsgClosedConnection (c_remote_url me))));;
       mret VNone)
      (except_Exception (λ e,
         perform (Log (LogError (MsgErrorClosing e)));;
         mret VNone))
  else mret VNone.

End RemoteAcpClient.

(** ** remote_acp_persona.py *)

Module RemoteAcpPersona.

(** [self.__class__._client_future] *)
Definition class_client_future (cls : string) : prog (option task_id) :=
  perform (ClassGetattr cls) ≫= attr "_client_future".

(** [__init__(self, *args, remote_url, **kwargs)] run on an instance of
    [cls]; [mention] is what the host's [BasePersona] answers for
    [as_user().mention_name]. *)
Definition __init__ (cls : string) (mention remote_url : pystr) : prog persona_id :=
  self ← perform (NewPersona cls mention);
  perform (PersonaSetUrl self remote_url);;
  has ← perform (ClassDictHas cls);
  unset ← (if negb has then mret true
           else f ← class_client_future cls; mret (bool_decide (f = None)));
  (if unset : bool then
     t ← perform (CreateTask (CoInitClient self));
     perform (ClassSetattr cls t)
   else mret ());;
  t ← perform (CreateTask (CoInitClientSession self));
  perform (PersonaSetSessionFuture self t);;
  mret self.

Definition _init_client (self : persona_id) : prog value :=
  me ← perform (PersonaGet self) ≫= attr "self";
  url ← attr "_remote_url" (p_remote_url me);
  client ← RemoteAcpClient.__init__ url;
  perform (Log (LogInfo (MsgInitClient (p_cls me) url)));;
  mret (VClient client).

Definition get_client (self : persona_id) : prog value :=
  me ← perform (PersonaGet self) ≫= attr "self";
  f ← class_client_future (p_cls me);
  match f with
  | Some t => await (OnTask t)
  | None => raise TypeError "object NoneType can't be used in 'await' expression"
  end.

(** [session.session_id] *)
Definition session_id (session : value) : prog pystr :=
  match session with
  | VSession sid => mret sid
  | _ => raise AttributeError "session_id"
  end.

Definition _init_client_session (self : persona_id) : prog value :=
  me ← perform (PersonaGet self) ≫= attr "self";
  client ← get_client self;
  session ← await (OnExt (CreateSession client self));
  sid ← session_id session;
  perform (Log (LogInfo (MsgInitSession (p_cls me) sid)));;
  mret session.

Definition get_session (self : persona_id) : prog value :=
  me ← perform (PersonaGet self) ≫= attr "self";
  fut ← attr "_client_session_future" (p_session_future me);
  await (OnTask fut).

Definition get_session_id (self : persona_id) : prog pystr :=
  me ← perform (PersonaGet self) ≫= attr "self";
  fut ← attr "_client_session_future" (p_session_future me);
  session ← await (OnTask fut);
  session_id session.

(** The prompt built on line 110 from [message.body] and the mention
    name. *)
Definition prompt_of (mention body : pystr) : pystr :=
  strip (replace body (str "@" ++ mention) []).

Definition process_message (self : persona_id) (body : pystr) : prog value :=
  client ← get_client self;
  sid ← get_session_id self;
  me ← perform (PersonaGet self) ≫= attr "self";
  await (OnExt (PromptAndReply client sid (prompt_of (p_mention me) body)));;
  mret VNone.

Definition shutdown (self : persona_id) : prog value :=
  perform (CreateTask (CoShutdown self));;
  mret VNone.

Definition _shutdown (self : persona_id) : prog value :=
  me ← perform (PersonaGet self) ≫= attr "self";
  perform (Log (LogInfo (MsgClosingClient (p_cls me))));;
  client ← get_client self;
  conn ← await (OnExt (GetConnection client));
  await (OnExt (ConnClose conn));;
  match client with
  | VClient cl =>
      c ← perform (ClientGet cl) ≫= attr "client";
      if c_context c then
        try_except
          (RemoteAcpClient.close cl;; mret ())
          (except_Exception (λ e, perform (Log (LogError (MsgCleanupError e)))))
      else mret ()
  | _ => mret ()
  end;;
  perform (Log (LogInfo (MsgCompletedClosing (p_cls me))));;
  mret VNone.

End RemoteAcpPersona.

(** ** example_persona.py *)

Module ExampleRemotePersona.

Definition __init__ (cls : string) (mention : pystr) : prog persona_id :=
  v ← perform (EnvironGet "ACP_SERVER_URL");
  let remote_url := default (str "ws://localhost:8080/ws") v in
  RemoteAcpPersona.__init__ cls mention remote_url.

End ExampleRemotePersona.

(** ** The event loop *)

(** The body of each coroutine object. *)
Definition body (c : code) : prog value :=
  match c with
  | CoInitClient p => RemoteAcpPersona._init_client p
  | CoInitClientSession p => RemoteAcpPersona._init_client_session p
  | CoInitConnection cl => RemoteAcpClient._init_connection cl
  | CoShutdown p => RemoteAcpPersona._shutdown p
  | CoProcessMessage p b => RemoteAcpPersona.process_message p b
  | CoClose cl => RemoteAcpClient.close cl
  end.

(** What the loop records for task [t] after a run of it: the result or
    exception goes into the task, a suspension is remembered. *)
Definition state_after (r : result value) : tstate :=
  match r with
  | Finished o => Done o
  | Blocked on k => Waiting on k
  end.

Definition settle (t : task_id) (r : result value) (w : world) : world :=
  with_tasks (alter (λ x, Task (t_code x) (state_after r)) t) w.

Definition run_task (t : task_id) (m : prog value) (w : world) : world :=
  let '(w', r) := run m w in settle t r w'.

(** The loop gives task [t] a turn: a new task starts its body, a task
    waiting for a finished task goes on with that task's outcome. *)
Definition sched (t : task_id) (w : world) : world :=
  match tasks w !! t with
  | Some (Task c Ready) => run_task t (body c) w
  | Some (Task c (Waiting (OnTask t') k)) =>
      match task_state w t' with
      | Some (Done o) => run_task t (k o) w
      | _ => w
      end
  | _ => w
  end.

(** The library operation that task [t] awaits completes with [o]. *)
Definition deliver (t : task_id) (o : outcome value) (w : world) : world :=
  match tasks w !! t with
  | Some (Task c (Waiting (OnExt _) k)) => run_task t (k o) w
  | _ => w
  end.

(** Synchronous code called by the host. *)
Definition call {A} (m : prog A) (w : world) : world := fst (run m w).

(** Start a coroutine of the host's choosing as a task. *)
Definition spawn (c : code) (w : world) : world :=
  fst (handle (CreateTask c) w).

Inductive action :=
| Construct (cls : string) (mention url : pystr)
                                  (* cls(remote_url=url): RemoteAcpPersona.__init__ *)
| ConstructExample (cls : string) (mention : pystr)
                                  (* cls(): ExampleRemotePersona.__init__ *)
| CallShutdown (p : persona_id)   (* persona.shutdown() *)
| CallProcessMessage (p : persona_id) (body : pystr)
| CallClose (cl : client_id)      (* client.close() *)
| Sched (t : task_id)
| Deliver (t : task_id) (o : outcome value).

Definition step (a : action) (w : world) : world :=
  match a with
  | Construct cls mention url => call (RemoteAcpPersona.__init__ cls mention url) w
  | ConstructExample cls mention => call (ExampleRemotePersona.__init__ cls mention) w
  | CallShutdown p => call (RemoteAcpPersona.shutdown p) w
  | CallProcessMessage p b => spawn (CoProcessMessage p b) w
  | CallClose cl => spawn (CoClose cl) w
  | Sched t => sched t w
  | Deliver t o => deliver t o w
  end.

Definition exec (l : list action) (w : world) : world :=
  foldl (λ w a, step a w) w l.

(** The process at start: [RemoteAcpPersona] itself declares
    [_client_future = None]; [decl] lists the subclasses whose body
    declares the attribute again, which is the case the test
    [self.__class__._client_future is None] of [__init__] is there for. *)
Definition start (mro : string → list string) (env : gmap string pystr)
    (decl : list string) : world :=
  World mro env (list_to_map ((λ c, (c, None)) <$> "RemoteAcpPersona" :: decl))
        [] [] [] [] [].

(** ** Notions used in the statements *)

(** No whitespace at either end. *)
Definition trimmed (s : pystr) : Prop :=
  (∀ c, head s = Some c → is_space c = false) ∧
  (∀ c, last s = Some c → is_space c = false).

(** [sep.join(pieces)] *)
Fixpoint join (sep : pystr) (pieces : list pystr) : pystr :=
  match pieces with
  | [] => []
  | [p] => p
  | p :: rest => p ++ sep ++ join sep rest
  end.

(** The endpoints that pass both checks of [RemoteAcpClient.__init__]. *)
Definition valid_url (url : pystr) : bool :=
  truthy url && truthy (strip url)
  && (startswith url (str "ws://") || startswith url (str "wss://")).

(** The world after [RemoteAcpPersona.__init__], in closed form. *)
Definition constructed (cls : string) (mention url : pystr) (w : world) : world :=
  let p := length (personas w) in
  let n := length (tasks w) in
  match classes w !! cls with
  | Some (Some _) =>
      World (class_mro w) (environ w) (classes w)
        (personas w ++ [Persona cls mention (Some url) (Some n)])
        (clients w)
        (tasks w ++ [Task (CoInitClientSession p) Ready])
        (log w) (calls w)
  | _ =>
      World (class_mro w) (environ w) (<[cls := Some n]> (classes w))
        (personas w ++ [Persona cls mention (Some url) (Some (S n))])
        (clients w)
        (tasks w ++ [Task (CoInitClient p) Ready; Task (CoInitClientSession p) Ready])
        (log w) (calls w)
  end.

(** The world after a successful [RemoteAcpClient.__init__], in closed
    form. *)
Definition client_created (url : pystr) (w : world) : world :=
  World (class_mro w) (environ w) (classes w) (personas w)
    (clients w ++ [Client url false (Some (length (tasks w)))])
    (tasks w ++ [Task (CoInitConnection (length (clients w))) Ready])
    (log w) (calls w).

(** Effects that create no object and no task and rebind no future. *)
Definition passive {X} (e : eff X) : Prop :=
  match e with
  | ClassDictHas _ | ClassGetattr _ | PersonaGet _ | EnvironGet _
  | ClientGet _ | ClientSetContext _ | Log _ => True
  | _ => False
  end.

(** Programs all of whose effects satisfy [E], awaited library operations
    [Q] and raised exceptions [R], whatever the answers they get. *)
Inductive obeys (E : ∀ X, eff X → Prop) (Q : ext_call → Prop) (R : exn → Prop)
    {A} : prog A → Prop :=
| obeys_Ret a : obeys E Q R (Ret a)
| obeys_Raise e : R e → obeys E Q R (Raise e)
| obeys_Do {X} (e : eff X) k :
    E X e → (∀ x, obeys E Q R (k x)) → obeys E Q R (Do e k)
| obeys_AwaitTask t k :
    (∀ o, obeys E Q R (k o)) → obeys E Q R (AwaitP (OnTask t) k)
| obeys_AwaitExt c k :
    Q c → (∀ o, obeys E Q R (k o)) → obeys E Q R (AwaitP (OnExt c) k).

Definition any_eff : ∀ X, eff X → Prop := λ _ _, True.
Definition any_call : ext_call → Prop := λ _, True.
Definition any_exn : exn → Prop := λ _, True.

(** Programs made of passive effects and awaits only. *)
Definition quiet {A} (m : prog A) : Prop := obeys (@passive) any_call any_exn m.

Definition same_wiring (c c' : client) : Prop :=
  c_remote_url c = c_remote_url c' ∧ c_conn_future c = c_conn_future c'
  ∧ (c_context c = true → c_context c' = true).

(** What a quiet program leaves as it is. *)
Record frame (w w' : world) : Prop := Frame {
  frame_mro : class_mro w' = class_mro w;
  frame_environ : environ w' = environ w;
  frame_classes : classes w' = classes w;
  frame_personas : personas w' = personas w;
  frame_tasks : tasks w' = tasks w;
  frame_clients : Forall2 same_wiring (clients w) (clients w');
}.

(** What the state of an [_init_client] task says about its persona's
    endpoint [url]: the task never suspends, fails exactly on an endpoint
    that is not valid, and otherwise yields a client for that endpoint. *)
Definition init_client_ok (w : world) (url : pystr) (st : tstate) : Prop :=
  match st with
  | Ready => True
  | Waiting _ _ => False
  | Done (Err _) => valid_url url = false
  | Done (Ok v) =>
      valid_url url = true ∧
      ∃ cl c, v = VClient cl ∧ clients w !! cl = Some c ∧ c_remote_url c = url
  end.

(** How class futures, personas, clients and tasks refer to each other in
    every world the program reaches. *)
Record wf (w : world) : Prop := Wf {
  wf_class_future c t :
    classes w !! c = Some (Some t) →
    ∃ p me tk, tasks w !! t = Some tk ∧ t_code tk = CoInitClient p ∧
               personas w !! p = Some me ∧ p_cls me = c;
  wf_init_client t tk p :
    tasks w !! t = Some tk → t_code tk = CoInitClient p →
    ∃ me url, personas w !! p = Some me ∧ p_remote_url me = Some url ∧
              classes w !! p_cls me = Some (Some t) ∧
              init_client_ok w url (t_state tk);
  wf_persona p me :
    personas w !! p = Some me →
    (∃ t, classes w !! p_cls me = Some (Some t)) ∧
    (∃ url, p_remote_url me = Some url) ∧
    ∃ s tk, p_session_future me = Some s ∧ tasks w !! s = Some tk ∧
            t_code tk = CoInitClientSession p;
  wf_session_task s tk p :
    tasks w !! s = Some tk → t_code tk = CoInitClientSession p →
    ∃ me, personas w !! p = Some me ∧ p_session_future me = Some s;
  wf_client cl c :
    clients w !! cl = Some c →
    ∃ t tk, c_conn_future c = Some t ∧ tasks w !! t = Some tk ∧
            t_code tk = CoInitConnection cl;
  wf_conn_task t tk cl :
    tasks w !! t = Some tk → t_code tk = CoInitConnection cl →
    ∃ c, clients w !! cl = Some c ∧ c_conn_future c = Some t;
  wf_client_owner t1 t2 tk1 tk2 p1 p2 cl :
    tasks w !! t1 = Some tk1 → tasks w !! t2 = Some tk2 →
    t_code tk1 = CoInitClient p1 → t_code tk2 = CoInitClient p2 →
    t_state tk1 = Done (Ok (VClient cl)) → t_state tk2 = Done (Ok (VClient cl)) →
    t1 = t2;
  wf_quiet t tk on k :
    tasks w !! t = Some tk → t_state tk = Waiting on k → ∀ o, quiet (k o);
}.

(** An endpoint that is empty or has neither scheme. *)
Definition malformed (url : pystr) : Prop :=
  url = [] ∨
  (startswith url (str "ws://") = false ∧ startswith url (str "wss://") = false).

(** The worlds the program can be in: any sequence of host calls, loop
    turns and library completions from the start. *)
Definition reachable (w : world) : Prop :=
  ∃ mro env decl acts, w = exec acts (start mro env decl).

Definition prompt_trimmed (c : ext_call) : Prop :=
  match c with
  | PromptAndReply _ _ prompt => trimmed prompt
  | _ => True
  end.

(** Every awaited library operation so far satisfies [Q], and so will
    those of the suspended tasks. *)
Definition calls_inv (Q : ext_call → Prop) (w : world) : Prop :=
  Forall Q (calls w) ∧
  ∀ t tk on k, tasks w !! t = Some tk → t_state tk = Waiting on k →
               ∀ o, obeys any_eff Q any_exn (k o).


(** What [RemoteAcpClient.close] does with an exception of the awaits
    inside its [try]: an [Exception] is logged and swallowed, anything
    else goes on to the caller. *)
Definition close_suppressed (e : exn) (w : world) : world * result value :=
  if isinstance e Exception
  then (with_log (λ l, l ++ [LogError (MsgErrorClosing e)]) w, Finished (Ok VNone))
  else (w, Finished (Err e)).

(** [k] is [close] suspended in [__aexit__]. *)
Definition close_exiting (url : pystr) (k : outcome value → prog value) : Prop :=
  ∀ w o,
    run (k o) w =
    match o with
    | Ok _ => (with_log (λ l, l ++ [LogInfo (MsgClosedConnection url)]) w,
               Finished (Ok VNone))
    | Err e => close_suppressed e w
    end.

(** [res] is what [close] does in [w] once the connection future has
    answered [o]: with the connection it goes on to [__aexit__], with an
    exception it never gets there. *)
Definition close_waited (cl : client_id) (url : pystr) (o : outcome value)
    (w : world) (res : world * result value) : Prop :=
  match o with
  | Ok _ =>
      ∃ k, res = (with_calls (λ l, l ++ [ContextAexit cl]) w,
                  Blocked (OnExt (ContextAexit cl)) k)
           ∧ close_exiting url k
  | Err e => res = close_suppressed e w
  end.

(** What never changes again once it is there: a class's client future, a
    persona and its fields, a task's coroutine and its result, a client's
    endpoint and connection future. *)
Record extends (w w' : world) : Prop := Extends {
  ext_classes c t :
    classes w !! c = Some (Some t) → classes w' !! c = Some (Some t);
  ext_personas p me : personas w !! p = Some me → personas w' !! p = Some me;
  ext_tasks t tk :
    tasks w !! t = Some tk →
    ∃ tk', tasks w' !! t = Some tk' ∧ t_code tk' = t_code tk ∧
           ∀ o, t_state tk = Done o → t_state tk' = Done o;
  ext_clients cl c :
    clients w !! cl = Some c →
    ∃ c', clients w' !! cl = Some c' ∧ same_wiring c c';
}.

(** The tasks of the loop whose record satisfies [f]. *)
Definition task_ids_where (f : task → bool) (w : world) : list task_id :=
  List.filter (λ t, default false (f <$> tasks w !! t)) (seq 0 (length (tasks w))).

(** The [_init_client] tasks started by instances of class [c]. *)
Definition is_client_init_for (w : world) (c : string) (tk : task) : bool :=
  match t_code tk with
  | CoInitClient p => bool_decide (p_cls <$> personas w !! p = Some c)
  | _ => false
  end.

Definition client_init_tasks (w : world) (c : string) : list task_id :=
  task_ids_where (is_client_init_for w c) w.

(** The clients those tasks have produced. *)
Definition clients_of_class (w : world) (c : string) : list client_id :=
  omap (λ t, match task_state w t with
             | Some (Done (Ok (VClient cl))) => Some cl
             | _ => None
             end) (client_init_tasks w c).

(** The connection (handshake) tasks of those clients. *)
Definition handshake_tasks (w : world) (c : string) : list task_id :=
  task_ids_where
    (λ tk, match t_code tk with
           | CoInitConnection cl => bool_decide (cl ∈ clients_of_class w c)
           | _ => false
           end) w.

(** The session-creation tasks of persona [p]. *)
Definition session_tasks (w : world) (p : persona_id) : list task_id :=
  task_ids_where (λ tk, bool_decide (t_code tk = CoInitClientSession p)) w.

(** On every path through the program at most [n] awaited library
    operations satisfy [P]. *)
Inductive call_bound (P : ext_call → bool) {A} : nat → prog A → Prop :=
| cb_Ret n a : call_bound P n (Ret a)
| cb_Raise n e : call_bound P n (Raise e)
| cb_Do n {X} (e : eff X) k :
    (∀ x, call_bound P n (k x)) → call_bound P n (Do e k)
| cb_AwaitTask n t k :
    (∀ o, call_bound P n (k o)) → call_bound P n (AwaitP (OnTask t) k)
| cb_AwaitExt_other n c k :
    P c = false → (∀ o, call_bound P n (k o)) → call_bound P n (AwaitP (OnExt c) k)
| cb_AwaitExt_counted n c k :
    (∀ o, call_bound P n (k o)) → call_bound P (S n) (AwaitP (OnExt c) k).

Definition ncalls (P : ext_call → bool) (w : world) : nat :=
  length (List.filter P (calls w)).

(** Operations [P] are asked for by the coroutine [c0] alone, once. *)
Record budget_inv (P : ext_call → bool) (c0 : code) (w : world) : Prop := Budget {
  budget_le : (ncalls P w ≤ 1)%nat;
  budget_used :
    ncalls P w = 1%nat →
    ∃ t tk, tasks w !! t = Some tk ∧ t_code tk = c0 ∧ t_state tk ≠ Ready;
  budget_left t tk on k :
    tasks w !! t = Some tk → t_state tk = Waiting on k →
    ∀ o, call_bound P (if decide (t_code tk = c0) then 1 - ncalls P w else 0) (k o);
}.

Definition is_create_session (p : persona_id) (c : ext_call) : bool :=
  match c with
  | CreateSession _ p' => bool_decide (p' = p)
  | _ => false
  end.

(** Opening the transport or the protocol handshake of client [cl]. *)
Definition is_connect (cl : client_id) (c : ext_call) : bool :=
  match c with
  | ContextAenter cl' _ => bool_decide (cl' = cl)
  | _ => false
  end.

Definition is_handshake (cl : client_id) (c : ext_call) : bool :=
  match c with
  | ConnInitialize cl' _ => bool_decide (cl' = cl)
  | _ => false
  end.

(** At most one task runs the coroutine [c0]. *)
Definition unique_code (c0 : code) (w : world) : Prop :=
  ∀ t1 t2 tk1 tk2, tasks w !! t1 = Some tk1 → tasks w !! t2 = Some tk2 →
                   t_code tk1 = c0 → t_code tk2 = c0 → t1 = t2.


(** The library operations each coroutine may await. *)
Definition body_calls (Q : ext_call → Prop) (c : code) : Prop :=
  match c with
  | CoInitClient _ => True
  | CoInitClientSession p => ∀ client, Q (CreateSession client p)
  | CoInitConnection cl =>
      (∀ url, Q (ContextAenter cl url)) ∧ (∀ conn, Q (ConnInitialize cl conn))
  | CoShutdown _ =>
      (∀ client, Q (GetConnection client)) ∧ (∀ conn, Q (ConnClose conn)) ∧
      (∀ cl, Q (ContextAexit cl))
  | CoProcessMessage _ b =>
      ∀ client sid mention,
        Q (PromptAndReply client sid (RemoteAcpPersona.prompt_of mention b))
  | CoClose cl => Q (ContextAexit cl)
  end.

(** The connection future of client [cl] has answered with a connection. *)
Definition conn_ready (w : world) (cl : client_id) : Prop :=
  ∃ c fut v, clients w !! cl = Some c ∧ c_conn_future c = Some fut ∧
             task_state w fut = Some (Done (Ok v)).

(** [__aexit__] is asked for on a ready connection only. *)
Definition exit_ok (w : world) (c : ext_call) : Prop :=
  match c with
  | ContextAexit cl => conn_ready w cl
  | _ => True
  end.

(** Run from [w], and resumed later in any world that [w] has grown into
    with the real outcome of the task it waited for, the program asks for
    [__aexit__] on ready connections only. *)
Fixpoint guarded {A} (m : prog A) (w : world) : Prop :=
  match m with
  | Ret _ | Raise _ => True
  | Do e k => guarded (k (handle e w).2) (handle e w).1
  | AwaitP (OnTask t) k =>
      ∀ w2 o, extends w w2 → task_state w2 t = Some (Done o) → guarded (k o) w2
  | AwaitP (OnExt c) k =>
      exit_ok w c ∧ ∀ w2 o, extends w w2 → guarded (k o) w2
  end.

Record exit_inv (w : world) : Prop := ExitInv {
  exit_calls : Forall (exit_ok w) (calls w);
  exit_waiting t tk on k :
    tasks w !! t = Some tk → t_state tk = Waiting on k →
    ∀ w2 o, extends w w2 →
            (∀ t', on = OnTask t' → task_state w2 t' = Some (Done o)) →
            guarded (k o) w2;
}.

(** A connection task that has started has set its client's context. *)
Definition started_inv (w : world) : Prop :=
  ∀ t tk cl c,
    tasks w !! t = Some tk → t_code tk = CoInitConnection cl →
    clients w !! cl = Some c →
    t_state tk = Ready ∨ c_context c = true.

(** ** Concrete worlds *)

Definition demo_mro : string → list string :=
  λ _, ["RemoteAcpPersona"; "BasePersona"].

Definition demo_url : pystr := str "ws://localhost:8080/ws".

(** Two instances of [BotA] and one of [BotB] on the same endpoint; both
    clients are built, the connection of [BotA]'s client is established
    and the first instance has its session. *)
Definition demo_world : world :=
  exec [Construct "BotA" (str "bot") demo_url;
        Construct "BotA" (str "bot") demo_url;
        Construct "BotB" (str "other") demo_url;
        Sched 0; Sched 3;
        Sched 5; Deliver 5 (Ok (VConn 7)); Deliver 5 (Ok VNone);
        Sched 1; Deliver 1 (Ok (VSession (str "s1")))]
       (start demo_mro ∅ []).

(** A message without a mention is handled. *)
Definition demo_message : world :=
  exec [CallProcessMessage 0 [32; 104; 105; 9]%N; Sched 7] demo_world.

(** A shutdown in which [conn.close()] raises. *)
Definition demo_shutdown : world :=
  exec [CallShutdown 0; Sched 7; Deliver 7 (Ok (VConn 7));
        Deliver 7 (Err (Exn OSError "boom"))] demo_world.

(** One instance whose client is built and whose handshake is in flight. *)
Definition demo_inflight : world :=
  exec [Construct "BotA" (str "bot") demo_url; Sched 0; Sched 2]
       (start demo_mro ∅ []).
(** ** Notions for the further properties *)

(** [sub in s] *)
Fixpoint contains (s sub : pystr) : bool :=
  startswith s sub
  || match s with
     | [] => false
     | _ :: s' => contains s' sub
     end.

Definition blank (s : pystr) : Prop := Forall (λ c, is_space c = true) s.

(** [w'] is a later state of [w]: what is set stays set, and the library
    operations and the log records of [w] are the first ones of [w']. *)
Record grows (w w' : world) : Prop := Grows {
  grows_extends : extends w w';
  grows_calls : calls w `prefix_of` calls w';
  grows_log : log w `prefix_of` log w';
}.

(** The class future of persona [p] has answered with [client]. *)
Definition client_of (w : world) (p : persona_id) (client : value) : Prop :=
  ∃ me t, personas w !! p = Some me ∧ classes w !! p_cls me = Some (Some t)
          ∧ task_state w t = Some (Done (Ok client)).

(** The session future of persona [p] has answered with a session whose
    id is [sid]. *)
Definition session_of (w : world) (p : persona_id) (sid : pystr) : Prop :=
  ∃ me s, personas w !! p = Some me ∧ p_session_future me = Some s
          ∧ task_state w s = Some (Done (Ok (VSession sid))).

(** What holds in [w] when the coroutine [c] asks the library for
    [call] there. *)
Definition call_pre (c : code) (w : world) (call : ext_call) : Prop :=
  match c, call with
  | CoInitConnection cl, ContextAenter cl' url =>
      cl' = cl ∧ ∃ x, clients w !! cl = Some x ∧ c_remote_url x = url
                      ∧ c_context x = true
                      ∧ LogInfo (MsgConnecting url) ∈ log w
  | CoInitConnection cl, ConnInitialize cl' _ =>
      cl' = cl ∧ ∃ url, ContextAenter cl url ∈ calls w
  | CoInitClientSession p, CreateSession client p' =>
      p' = p ∧ client_of w p client
  | CoProcessMessage p body, PromptAndReply client sid prompt =>
      client_of w p client ∧ session_of w p sid
      ∧ ∃ me, personas w !! p = Some me
              ∧ prompt = RemoteAcpPersona.prompt_of (p_mention me) body
  | CoShutdown p, GetConnection client => client_of w p client
  | CoShutdown p, ConnClose _ =>
      ∃ client, client_of w p client ∧ GetConnection client ∈ calls w
  | CoShutdown p, ContextAexit cl =>
      client_of w p (VClient cl) ∧ ∃ conn, ConnClose conn ∈ calls w
  | CoClose cl, ContextAexit cl' => cl' = cl
  | _, _ => False
  end.

(** What holds in [w] when the coroutine [c] ends there with [o]. *)
Definition task_post (c : code) (w : world) (o : outcome value) : Prop :=
  match c, o with
  | CoInitClient p, Ok v =>
      ∃ me url cl, personas w !! p = Some me ∧ p_remote_url me = Some url
                   ∧ v = VClient cl
                   ∧ LogInfo (MsgInitClient (p_cls me) url) ∈ log w
  | CoInitClient _, Err e => ∃ msg, e = Exn ValueError msg
  | CoInitConnection cl, Ok conn =>
      ∃ x, clients w !! cl = Some x
           ∧ ContextAenter cl (c_remote_url x) ∈ calls w
           ∧ ConnInitialize cl conn ∈ calls w
           ∧ LogInfo (MsgConnected (c_remote_url x)) ∈ log w
  | CoInitConnection cl, Err e =>
      isinstance e Exception = true →
      ∃ x, clients w !! cl = Some x
           ∧ LogError (MsgConnectFailed (c_remote_url x) e) ∈ log w
  | CoInitClientSession p, Ok v =>
      ∃ me client sid, personas w !! p = Some me ∧ v = VSession sid
                       ∧ CreateSession client p ∈ calls w
                       ∧ LogInfo (MsgInitSession (p_cls me) sid) ∈ log w
  | CoInitClientSession p, Err e =>
      (∃ me t, personas w !! p = Some me ∧ classes w !! p_cls me = Some (Some t)
               ∧ task_state w t = Some (Done (Err e)))
      ∨ ∃ client, CreateSession client p ∈ calls w
  | CoProcessMessage p body, Ok v =>
      v = VNone
      ∧ ∃ me client sid,
          personas w !! p = Some me
          ∧ PromptAndReply client sid
              (RemoteAcpPersona.prompt_of (p_mention me) body) ∈ calls w
  | CoShutdown p, Ok v =>
      v = VNone
      ∧ ∃ me conn, personas w !! p = Some me ∧ ConnClose conn ∈ calls w
                   ∧ LogInfo (MsgClosingClient (p_cls me)) ∈ log w
                   ∧ LogInfo (MsgCompletedClosing (p_cls me)) ∈ log w
  | CoClose cl, Ok v => v = VNone
  | CoClose cl, Err e => isinstance e Exception = false ∨ clients w !! cl = None
  | _, _ => True
  end.

(** Run from [w], and resumed later in any world that [w] has grown into
    with the outcome of what it waited for, the program asks for library
    operations where [Q] holds and ends where [P] holds. *)
Fixpoint ensures {A} (Q : world → ext_call → Prop) (P : world → outcome A → Prop)
    (m : prog A) (w : world) : Prop :=
  match m with
  | Ret a => P w (Ok a)
  | Raise e => P w (Err e)
  | Do e k => ensures Q P (k (handle e w).2) (handle e w).1
  | AwaitP (OnTask t) k =>
      ∀ w2 o, grows w w2 → task_state w2 t = Some (Done o) → ensures Q P (k o) w2
  | AwaitP (OnExt c) k =>
      Q w c ∧ ∀ w2 o, grows (with_calls (λ l, l ++ [c]) w) w2 → ensures Q P (k o) w2
  end.

(** Every library operation asked for so far was asked by a task, in an
    earlier world where the precondition of its coroutine held; every task
    that has ended did so in an earlier world where the postcondition of
    its coroutine held; the suspended tasks will go on likewise. *)
Record history (w : world) : Prop := History {
  hist_calls i call :
    calls w !! i = Some call →
    ∃ w0 t tk, grows w0 w ∧ length (calls w0) = i ∧ tasks w !! t = Some tk
               ∧ call_pre (t_code tk) w0 call;
  hist_done t tk o :
    tasks w !! t = Some tk → t_state tk = Done o →
    ∃ w0, grows w0 w ∧ task_post (t_code tk) w0 o;
  hist_waiting t tk on k :
    tasks w !! t = Some tk → t_state tk = Waiting on k →
    ∀ w2 o, grows w w2 →
            (∀ t', on = OnTask t' → task_state w2 t' = Some (Done o)) →
            ensures (call_pre (t_code tk)) (task_post (t_code tk)) (k o) w2;
}.

(** Every client was built by an [_init_client] task, which has ended
    with it. *)
Definition owned (w : world) : Prop :=
  ∀ cl x, clients w !! cl = Some x →
          ∃ t tk p, tasks w !! t = Some tk ∧ t_code tk = CoInitClient p
                    ∧ t_state tk = Done (Ok (VClient cl)).

(** The instance whose [_init_client] is the client future of a class is
    the first instance of that class. *)
Definition founder_first (w : world) : Prop :=
  ∀ c t p0 p me,
    classes w !! c = Some (Some t) →
    t_code <$> tasks w !! t = Some (CoInitClient p0) →
    personas w !! p = Some me → p_cls me = c → (p0 ≤ p)%nat.

(** ** More concrete worlds *)

(** The first instance of a class is given an endpoint with the wrong
    scheme, and the client task has had its turn. *)
Definition demo_failed : world :=
  exec [Construct "Bad" (str "bot") (str "http://agent.example"); Sched 0]
       (start demo_mro ∅ []).

(** The message of [demo_message] has been answered. *)
Definition demo_answered : world :=
  exec [Deliver 7 (Ok VNone)] demo_message.

(** A shutdown that runs to its end. *)
Definition demo_closed : world :=
  exec [CallShutdown 0; Sched 7; Deliver 7 (Ok (VConn 7));
        Deliver 7 (Ok VNone); Deliver 7 (Ok VNone)] demo_world.

(** A connection task that has started has asked for its transport. *)
Definition opened_inv (w : world) : Prop :=
  ∀ t tk cl,
    tasks w !! t = Some tk → t_code tk = CoInitConnection cl →
    t_state tk = Ready ∨ ∃ url, ContextAenter cl url ∈ calls w.

(** [close()] is called on a client whose connection task has not had
    its first turn. *)
Definition demo_early : world :=
  exec [Construct "BotA" (str "bot") demo_url; Sched 0] (start demo_mro ∅ []).

(** The [close()] has run, then the connection was established. *)
Definition demo_unclosed : world :=
  exec [CallClose 0; Sched 3; Sched 2; Deliver 2 (Ok (VConn 7));
        Deliver 2 (Ok VNone)] demo_early.

(** * Properties *)

(** ** Strings *)

Lemma lstrip_split s :
  ∃ pre, s = pre ++ lstrip s ∧ Forall (λ c, is_space c = true) pre.
Proof.
  induction s as [|c s [pre [E F]]]; simpl.
  - by exists [].
  - destruct (is_space c) eqn:Hc.
    + exists (c :: pre). split; [simpl; by rewrite <- E | by constructor].
    + by exists [].
Qed.

Lemma lstrip_head s c : head (lstrip s) = Some c → is_space c = false.
Proof.
  induction s as [|a s IH]; simpl; [done|].
  destruct (is_space a) eqn:Ha; [done|]. simpl. by intros [= <-].
Qed.

Lemma lstrip_spaces s : Forall (λ c, is_space c = true) s → lstrip s = [].
Proof. induction 1 as [|c s Hc _ IH]; simpl; [done|]. by rewrite Hc. Qed.

Lemma rstrip_split s :
  ∃ suf, s = rstrip s ++ suf ∧ Forall (λ c, is_space c = true) suf.
Proof.
  destruct (lstrip_split (reverse s)) as [pre [E F]].
  exists (reverse pre). split.
  - unfold rstrip. rewrite <- reverse_app, <- E. by rewrite reverse_involutive.
  - by apply Forall_reverse.
Qed.

Lemma rstrip_last s c : last (rstrip s) = Some c → is_space c = false.
Proof. unfold rstrip. rewrite last_reverse. apply lstrip_head. Qed.

Lemma rstrip_head s c : head (rstrip s) = Some c → head s = Some c.
Proof.
  destruct (rstrip_split s) as [suf [E _]]. intros H.
  rewrite E. by destruct (rstrip s).
Qed.

Lemma strip_trimmed s : trimmed (strip s).
Proof.
  split; intros c H.
  - apply rstrip_head in H. by apply lstrip_head in H.
  - by apply rstrip_last in H.
Qed.

Lemma strip_spaces s : Forall (λ c, is_space c = true) s → strip s = [].
Proof. intros H. unfold strip. by rewrite lstrip_spaces. Qed.

Lemma startswith_app old rest : startswith (old ++ rest) old = true.
Proof. induction old as [|a old IH]; simpl; [done|]. by rewrite N.eqb_refl. Qed.

Lemma replace_from_skip old new (k : nat) (s : pystr) :
  (k ≤ length s)%nat →
  replace_from old new k s = replace_from old new 0 (drop k s).
Proof.
  revert k. induction s as [|c s IH]; intros k Hk; simpl in *.
  - by rewrite drop_nil.
  - destruct k as [|k]; [done|]. simpl. apply IH. lia.
Qed.

(** An occurrence at the front is replaced and the scan goes on behind it. *)
Lemma replace_from_match a old new rest :
  replace_from (a :: old) new 0 ((a :: old) ++ rest)
  = new ++ replace_from (a :: old) new 0 rest.
Proof.
  simpl. rewrite N.eqb_refl, startswith_app. simpl. f_equal.
  rewrite replace_from_skip by (rewrite length_app; lia).
  by rewrite Nat.sub_0_r, drop_app_length.
Qed.

(** Text without the first character of [old] is kept as it is. *)
Lemma replace_from_pass a old new p s :
  a ∉ p →
  replace_from (a :: old) new 0 (p ++ s) = p ++ replace_from (a :: old) new 0 s.
Proof.
  induction p as [|c p IH]; intros Hp; [done|].
  apply not_elem_of_cons in Hp as [Hc Hp].
  change ((c :: p) ++ s) with (c :: (p ++ s)).
  cbn [replace_from startswith].
  destruct (N.eqb_spec a c) as [->|_]; [done|].
  simpl. by rewrite IH.
Qed.

Lemma replace_join a old pieces :
  Forall (λ p, a ∉ p) pieces →
  replace (join (a :: old) pieces) (a :: old) [] = concat pieces.
Proof.
  unfold replace.
  induction pieces as [|p rest IH]; intros H; [done|].
  apply Forall_cons in H as [Hp Hrest].
  destruct rest as [|q rest].
  - simpl. rewrite <- (app_nil_r p) at 1. rewrite replace_from_pass by done.
    simpl. by rewrite !app_nil_r.
  - change (join (a :: old) (p :: q :: rest))
      with (p ++ (a :: old) ++ join (a :: old) (q :: rest)).
    rewrite replace_from_pass by done. by rewrite replace_from_match, IH.
Qed.

(** ** Running programs *)

Lemma run_bind {A B} (m : prog A) (f : A → prog B) w :
  run (m ≫= f) w =
  match run m w with
  | (w', Finished (Ok a)) => run (f a) w'
  | (w', Finished (Err e)) => (w', Finished (Err e))
  | (w', Blocked on k) => (w', Blocked on (λ o, k o ≫= f))
  end.
Proof.
  revert w. induction m as [a|e|X e k IH|on k IH]; intros w; try done.
  - simpl. destruct (handle e w) as [w' x]. apply IH.
  - destruct on as [t|c]; simpl; [|done].
    destruct (task_state w t) as [[| |o]|]; done.
Qed.

Lemma obeys_bind E Q R {A B} (m : prog A) (f : A → prog B) :
  obeys E Q R m → (∀ a, obeys E Q R (f a)) → obeys E Q R (m ≫= f).
Proof.
  intros Hm Hf. induction Hm; simpl; try done; by constructor.
Qed.

(** The protected part may raise what [R'] allows; what the handler does
    not catch must be allowed by [R]. *)
Lemma obeys_try_except E Q R R' {A} (m : prog A) h :
  obeys E Q R' m →
  (∀ e, R' e → match h e with Some q => obeys E Q R q | None => R e end) →
  obeys E Q R (try_except m h).
Proof.
  intros Hm Hh. induction Hm as [a|e He| | |]; simpl; try by constructor.
  specialize (Hh e He). destruct (h e); [done|by constructor].
Qed.

Lemma obeys_attr E Q R {A} name (x : option A) :
  R (Exn AttributeError name) → obeys E Q R (attr name x).
Proof. destruct x; by constructor. Qed.

Lemma obeys_perform E Q R {X} (e : eff X) : E X e → obeys E Q R (perform e).
Proof. intros. apply obeys_Do; [done|]. intros. constructor. Qed.

Lemma obeys_await_task E Q R t : (∀ e, R e) → obeys E Q R (await (OnTask t)).
Proof. intros HR. apply obeys_AwaitTask. intros [v|e]; by constructor. Qed.

Lemma obeys_await_ext E Q R c : Q c → (∀ e, R e) → obeys E Q R (await (OnExt c)).
Proof. intros Hc HR. apply obeys_AwaitExt; [done|]. intros [v|e]; by constructor. Qed.

Lemma obeys_except_Exception E Q R {A} (h : exn → prog A) :
  (∀ e, obeys E Q R (h e)) →
  (∀ e, isinstance e Exception = false → R e) →
  ∀ e, any_exn e →
       match except_Exception h e with Some q => obeys E Q R q | None => R e end.
Proof.
  intros Hh HR e _. unfold except_Exception.
  destruct (isinstance e Exception) eqn:He; auto.
Qed.

(** Goals [obeys E Q R m] for the programs of this file, when every
    exception is allowed. *)
Ltac obeys_tac :=
  repeat first
    [ apply obeys_bind
    | eapply (obeys_try_except _ _ _ any_exn)
    | apply obeys_except_Exception
    | apply obeys_attr
    | apply obeys_await_task
    | apply obeys_await_ext
    | apply obeys_perform
    | apply obeys_Ret
    | apply obeys_Raise
    | apply obeys_Do
    | apply obeys_AwaitTask
    | apply obeys_AwaitExt
    | exact I
    | progress intros
    | match goal with |- obeys _ _ _ (match ?x with _ => _ end) => destruct x end
    | match goal with |- obeys _ _ _ (if ?x then _ else _) => destruct x end
    | match goal with |- obeys _ _ _ (mret _) => apply obeys_Ret end
    | match goal with |- obeys _ _ _ (raise _ _) => apply obeys_Raise end ].

Lemma quiet_close cl : quiet (RemoteAcpClient.close cl).
Proof. unfold quiet, RemoteAcpClient.close. obeys_tac. Qed.

Lemma quiet_get_client p : quiet (RemoteAcpPersona.get_client p).
Proof.
  unfold quiet, RemoteAcpPersona.get_client, RemoteAcpPersona.class_client_future.
  obeys_tac.
Qed.

(** Every coroutine but [_init_client] is quiet. *)
Lemma quiet_body c : (∀ p, c ≠ CoInitClient p) → quiet (body c).
Proof.
  destruct c; intros Hc; simpl.
  - by destruct (Hc self).
  - unfold quiet, RemoteAcpPersona._init_client_session, RemoteAcpPersona.session_id.
    obeys_tac; apply quiet_get_client.
  - unfold quiet, RemoteAcpClient._init_connection. obeys_tac.
  - unfold quiet, RemoteAcpPersona._shutdown.
    obeys_tac; try apply quiet_get_client; apply quiet_close.
  - unfold quiet, RemoteAcpPersona.process_message, RemoteAcpPersona.get_session_id,
      RemoteAcpPersona.session_id.
    obeys_tac; apply quiet_get_client.
  - apply quiet_close.
Qed.

Lemma same_wiring_refl l : Forall2 same_wiring l l.
Proof.
  apply Forall2_same_length_lookup. split; [done|].
  intros i c c' H1 H2. by simplify_eq.
Qed.

Global Instance frame_refl : Reflexive frame.
Proof. intros w. split; try done. apply same_wiring_refl. Qed.

Global Instance frame_trans : Transitive frame.
Proof.
  intros w1 w2 w3 [] []. split; try congruence.
  eapply Forall2_trans; [|done..].
  intros c1 c2 c3 (?&?&?) (?&?&?). unfold same_wiring. naive_solver congruence.
Qed.

Lemma handle_passive {X} (e : eff X) w : passive e → frame w (handle e w).1.
Proof.
  destruct e; simpl; try done; intros _; try reflexivity.
  - split; try done. simpl.
    apply Forall2_same_length_lookup. split; [by rewrite length_alter|].
    intros i c c' H1 H2. destruct (decide (i = cl)) as [->|Hne].
    + rewrite list_lookup_alter_eq, H1 in H2. by simplify_eq/=.
    + rewrite list_lookup_alter_ne in H2 by done. by simplify_eq.
  - split; try done. apply same_wiring_refl.
Qed.

(** A quiet program changes nothing but contexts, log and calls, and what
    is left of it at a suspension is quiet. *)
Lemma run_quiet {A} (m : prog A) w :
  quiet m →
  frame w (run m w).1 ∧
  ∀ on k, (run m w).2 = Blocked on k → ∀ o, quiet (k o).
Proof.
  intros Hm. revert w.
  induction Hm as [a|e|X e k He Hk IH|t k Hk IH|c k _ Hk IH]; intros w; simpl.
  - split; [reflexivity|done].
  - split; [reflexivity|done].
  - pose proof (handle_passive e w He) as Hf.
    destruct (handle e w) as [w' x]. simpl in Hf.
    destruct (IH x w') as [Hf' Hb]. split; [by etrans|done].
  - destruct (task_state w t) as [[| |o]|]; simpl;
      try (split; [reflexivity|by intros ?? [= <- <-]]).
    apply IH.
  - split; [split; try done; apply same_wiring_refl|]. by intros ?? [= <- <-].
Qed.

(** ** The constructors in closed form *)

Lemma alter_last {A} (f : A → A) (l : list A) x :
  alter f (length l) (l ++ [x]) = l ++ [f x].
Proof.
  replace (length l) with (length l + 0) by lia. by rewrite alter_app_r.
Qed.

Lemma class_getattr_own w cls v :
  classes w !! cls = Some v → class_getattr w cls = Some v.
Proof. unfold class_getattr. simpl. by intros ->. Qed.

Lemma run_persona_init cls m url w :
  run (RemoteAcpPersona.__init__ cls m url) w
  = (constructed cls m url w, Finished (Ok (length (personas w)))).
Proof.
  unfold RemoteAcpPersona.__init__, constructed. cbn.
  destruct (classes w !! cls) as [[t|]|] eqn:E; cbn.
  - erewrite class_getattr_own by done. cbn.
    unfold with_personas, with_tasks; cbn. by rewrite !alter_last.
  - erewrite class_getattr_own by done. cbn.
    unfold with_personas, with_tasks, with_classes; cbn.
    rewrite !alter_last, length_app, <- app_assoc. cbn. by rewrite Nat.add_1_r.
  - unfold with_personas, with_tasks, with_classes; cbn.
    rewrite !alter_last, length_app, <- app_assoc. cbn. by rewrite Nat.add_1_r.
Qed.

Lemma run_client_init_valid url w :
  valid_url url = true →
  run (RemoteAcpClient.__init__ url) w
  = (client_created url w, Finished (Ok (length (clients w)))).
Proof.
  unfold valid_url, RemoteAcpClient.__init__, client_created. intros H.
  apply andb_prop in H as [H H3]. apply andb_prop in H as [H1 H2].
  rewrite H1, H2, H3. cbn. unfold with_clients, with_tasks. cbn.
  by rewrite alter_last.
Qed.

Lemma run_client_init_invalid url w :
  valid_url url = false →
  ∃ msg, run (RemoteAcpClient.__init__ url) w
         = (w, Finished (Err (Exn ValueError msg))).
Proof.
  unfold valid_url, RemoteAcpClient.__init__. intros H.
  destruct (truthy url); [destruct (truthy (strip url))|]; simpl in *;
    [|by eexists..].
  rewrite H. by eexists.
Qed.

(** ** The reference structure is kept by every step *)

Lemma snoc2 {A} (l : list A) a b : l ++ [a; b] = (l ++ [a]) ++ [b].
Proof. by rewrite <- app_assoc. Qed.

Ltac snoc_lookups :=
  repeat match goal with
  | H : (_ ++ [_]) !! _ = Some _ |- _ =>
      apply lookup_snoc_Some in H as [[? H]|[? ?]]
  | H : context [length (_ ++ [_])] |- _ => rewrite length_app in H; simpl in H
  end; simplify_eq/=.

Lemma lookup_snoc_old {A} (l : list A) x i y :
  l !! i = Some y → (l ++ [x]) !! i = Some y.
Proof. apply lookup_app_l_Some. Qed.

Lemma lookup_snoc_new {A} (l : list A) x : (l ++ [x]) !! length l = Some x.
Proof. apply lookup_snoc_Some. by right. Qed.


Lemma start_classes mro env decl c o :
  classes (start mro env decl) !! c = Some o → o = None.
Proof.
  unfold start. cbn [classes]. intros H%elem_of_list_to_map_2.
  apply list_elem_of_fmap in H as (? & ? & _). by simplify_eq.
Qed.

Lemma wf_start mro env decl : wf (start mro env decl).
Proof.
  split; try done.
  intros c t H%start_classes. done.
Qed.

Ltac snoc_solve := split_and?; eauto using lookup_snoc_old, lookup_snoc_new.

Lemma init_client_ok_wiring w w' url st :
  Forall2 same_wiring (clients w) (clients w') →
  init_client_ok w url st → init_client_ok w' url st.
Proof.
  intros Hf. destruct st as [| |[v|e]]; simpl; try done.
  intros [Hv (cl & c & -> & Hc & Hu)]. split; [done|].
  destruct (Forall2_lookup_l _ _ _ _ _ Hf Hc) as (c' & Hc' & Hw & _).
  exists cl, c'. by rewrite <- Hw.
Qed.

Lemma init_client_ok_snoc w w' url st c :
  clients w' = clients w ++ [c] →
  init_client_ok w url st → init_client_ok w' url st.
Proof.
  intros E. destruct st as [| |[v|e]]; simpl; try done.
  intros [Hv (cl & c0 & -> & Hc & Hu)]. split; [done|].
  exists cl, c0. rewrite E. snoc_solve.
Qed.

Lemma wf_frame w w' : wf w → frame w w' → wf w'.
Proof.
  intros Hwf [_ _ Hcl Hpe Hta Hw]. split; rewrite ?Hcl, ?Hpe, ?Hta.
  - apply Hwf.
  - intros t tk p Ht Hc.
    destruct (wf_init_client _ Hwf _ _ _ Ht Hc) as (me & u & ? & ? & ? & ?).
    exists me, u. split_and!; try done. by eapply init_client_ok_wiring.
  - apply Hwf.
  - apply Hwf.
  - intros cl c' Hc'.
    destruct (Forall2_lookup_r _ _ _ _ _ Hw Hc') as (c & Hc & Hw1 & Hw2 & _).
    rewrite <- Hw2. by eapply (wf_client _ Hwf).
  - intros t tk cl Ht Hc.
    destruct (wf_conn_task _ Hwf _ _ _ Ht Hc) as (c & Hc1 & Hc2).
    destruct (Forall2_lookup_l _ _ _ _ _ Hw Hc1) as (c' & ? & ? & ? & _).
    exists c'. split; [done|congruence].
  - apply Hwf.
  - apply Hwf.
Qed.

Lemma lookup_settle t r w t' tk' :
  tasks (settle t r w) !! t' = Some tk' ↔
  ∃ tk, tasks w !! t' = Some tk ∧
        tk' = if decide (t = t') then Task (t_code tk) (state_after r) else tk.
Proof.
  unfold settle. simpl. rewrite list_lookup_alter.
  destruct (decide (t = t')) as [->|Hne].
  - destruct (tasks w !! t') as [tk|]; simpl.
    + split; [intros [= <-]; by exists tk|by intros (? & [= <-] & ->)].
    + split; [done|by intros (? & ? & _)].
  - split; [intros E; by exists tk'|by intros (? & E & ->)].
Qed.

Lemma wf_settle w t r :
  wf w →
  (∀ on k, r = Blocked on k → ∀ o, quiet (k o)) →
  (∀ tk p, tasks w !! t = Some tk → t_code tk = CoInitClient p →
     (∀ me url, personas w !! p = Some me → p_remote_url me = Some url →
        init_client_ok w url (state_after r)) ∧
     ∀ cl t2 tk2 p2, r = Finished (Ok (VClient cl)) →
       tasks w !! t2 = Some tk2 → t_code tk2 = CoInitClient p2 →
       t_state tk2 ≠ Done (Ok (VClient cl))) →
  wf (settle t r w).
Proof.
  intros Hwf Hr Ht.
  assert (Hcode : ∀ t' tk', tasks (settle t r w) !! t' = Some tk' →
     ∃ tk, tasks w !! t' = Some tk ∧ t_code tk' = t_code tk ∧
           (t' ≠ t → tk' = tk) ∧ (t' = t → t_state tk' = state_after r)).
  { intros t' tk' (tk & E & ->)%lookup_settle.
    exists tk. case_decide; subst; by split_and!. }
  assert (Hback : ∀ t' tk, tasks w !! t' = Some tk →
     ∃ tk', tasks (settle t r w) !! t' = Some tk' ∧ t_code tk' = t_code tk).
  { intros t' tk H.
    eexists. split; [apply lookup_settle; eauto|]. by case_decide. }
  split.
  - intros c t0 (p & me & tk & H1 & H2 & H3 & H4)%(wf_class_future _ Hwf).
    destruct (Hback _ _ H1) as (tk' & ? & ?). exists p, me, tk'.
    split_and!; try done. congruence.
  - intros t0 tk' p (tk & H1 & H2 & H3 & H4)%Hcode Hc. rewrite H2 in Hc.
    destruct (wf_init_client _ Hwf _ _ _ H1 Hc) as (me & url & ? & ? & ? & ?).
    exists me, url. split_and!; try done.
    destruct (decide (t0 = t)) as [->|Hne].
    + rewrite (H4 eq_refl). by eapply Ht.
    + by rewrite (H3 Hne).
  - intros p me (? & ? & s & tk & ? & H1 & ?)%(wf_persona _ Hwf).
    split_and!; try done. destruct (Hback _ _ H1) as (tk' & ? & ?).
    exists s, tk'. split_and!; try done. congruence.
  - intros s tk' p (tk & H1 & H2 & _)%Hcode Hc.
    eapply (wf_session_task _ Hwf); [done|congruence].
  - intros cl c Hc.
    destruct (wf_client _ Hwf _ _ Hc) as (t0 & tk & ? & H1 & ?).
    destruct (Hback _ _ H1) as (tk' & ? & ?). exists t0, tk'.
    split_and!; try done. congruence.
  - intros t0 tk' cl (tk & H1 & H2 & _)%Hcode Hc.
    eapply (wf_conn_task _ Hwf); [done|congruence].
  - intros t1 t2 tk1' tk2' p1 p2 cl (tk1 & H1 & H1c & H1n & H1s)%Hcode
      (tk2 & H2 & H2c & H2n & H2s)%Hcode Hp1 Hp2 Hs1 Hs2.
    rewrite H1c in Hp1. rewrite H2c in Hp2.
    destruct (decide (t1 = t)) as [->|Hne1]; destruct (decide (t2 = t)) as [->|Hne2];
      try done.
    + rewrite (H2n Hne2) in Hs2. rewrite (H1s eq_refl) in Hs1.
      destruct r as [[[]|]|]; simplify_eq/=.
      destruct (Ht _ _ H1 Hp1) as [_ Hfresh].
      by destruct (Hfresh _ _ _ _ eq_refl H2 Hp2).
    + rewrite (H1n Hne1) in Hs1. rewrite (H2s eq_refl) in Hs2.
      destruct r as [[[]|]|]; simplify_eq/=.
      destruct (Ht _ _ H2 Hp2) as [_ Hfresh].
      by destruct (Hfresh _ _ _ _ eq_refl H1 Hp1).
    + rewrite (H1n Hne1) in Hs1. rewrite (H2n Hne2) in Hs2.
      by eapply (wf_client_owner _ Hwf t1 t2).
  - intros t0 tk' on k (tk & H1 & H2 & H3 & H4)%Hcode Hs.
    destruct (decide (t0 = t)) as [->|Hne].
    + rewrite (H4 eq_refl) in Hs. destruct r as [o|on' k']; simplify_eq/=. by eapply Hr.
    + rewrite (H3 Hne) in Hs. by eapply (wf_quiet _ Hwf).
Qed.

Lemma wf_client_created url w : wf w → wf (client_created url w).
Proof.
  intros Hwf. split; simpl.
  - intros c t (p & me & tk & ? & ? & ? & ?)%(wf_class_future _ Hwf).
    exists p, me, tk. snoc_solve.
  - intros t tk p Ht Hc. snoc_lookups.
    destruct (wf_init_client _ Hwf _ _ _ Ht Hc) as (me & u & ? & ? & ? & ?).
    exists me, u. snoc_solve. by eapply init_client_ok_snoc.
  - intros p me (? & ? & s & tk & ? & ? & ?)%(wf_persona _ Hwf).
    split_and!; try done. exists s, tk. snoc_solve.
  - intros s tk p Hs Hc. snoc_lookups. by eapply (wf_session_task _ Hwf).
  - intros cl c Hc. snoc_lookups.
    + destruct (wf_client _ Hwf _ _ Hc) as (t & tk & ? & ? & ?).
      exists t, tk. snoc_solve.
    + do 2 eexists. snoc_solve.
  - intros t tk cl Ht Hc. snoc_lookups.
    + destruct (wf_conn_task _ Hwf _ _ _ Ht Hc) as (c & ? & ?).
      exists c. snoc_solve.
    + eexists. snoc_solve.
  - intros t1 t2 tk1 tk2 p1 p2 cl H1 H2 ????. snoc_lookups.
    by eapply (wf_client_owner _ Hwf t1 t2).
  - intros t tk on k Ht Hs. snoc_lookups. by eapply (wf_quiet _ Hwf).
Qed.

Lemma wf_constructed_shared cls m url w :
  wf w → is_Some (classes w !! cls ≫= id) →
  wf (World (class_mro w) (environ w) (classes w)
        (personas w ++ [Persona cls m (Some url) (Some (length (tasks w)))])
        (clients w)
        (tasks w ++ [Task (CoInitClientSession (length (personas w))) Ready])
        (log w) (calls w)).
Proof.
  intros Hwf [t0 Ecls]. split; simpl.
  - intros c t (p & me & tk & ? & ? & ? & ?)%(wf_class_future _ Hwf).
    exists p, me, tk. snoc_solve.
  - intros t tk p Ht Hc. snoc_lookups.
    destruct (wf_init_client _ Hwf _ _ _ Ht Hc) as (me & u & ? & ? & ? & ?).
    exists me, u. snoc_solve.
  - intros p me Hp. snoc_lookups.
    + destruct (wf_persona _ Hwf _ _ Hp) as (? & ? & s & tk & ? & ? & ?).
      split_and!; try done. exists s, tk. snoc_solve.
    + split_and!; eauto.
      * exists t0. by destruct (classes w !! cls) as [[]|]; simplify_eq/=.
      * do 2 eexists. snoc_solve.
  - intros s tk p Hs Hc. snoc_lookups.
    + destruct (wf_session_task _ Hwf _ _ _ Hs Hc) as (me & ? & ?).
      exists me. snoc_solve.
    + eexists. snoc_solve.
  - intros cl c (t & tk & ? & ? & ?)%(wf_client _ Hwf).
    exists t, tk. snoc_solve.
  - intros t tk cl Ht Hc. snoc_lookups. by eapply (wf_conn_task _ Hwf).
  - intros t1 t2 tk1 tk2 p1 p2 cl H1 H2 ????. snoc_lookups.
    by eapply (wf_client_owner _ Hwf t1 t2).
  - intros t tk on k Ht Hs. snoc_lookups. by eapply (wf_quiet _ Hwf).
Qed.

Lemma wf_constructed_fresh cls m url w :
  wf w → (∀ t, classes w !! cls ≠ Some (Some t)) →
  wf (World (class_mro w) (environ w) (<[cls := Some (length (tasks w))]> (classes w))
        (personas w ++ [Persona cls m (Some url) (Some (S (length (tasks w))))])
        (clients w)
        (tasks w ++ [Task (CoInitClient (length (personas w))) Ready;
                     Task (CoInitClientSession (length (personas w))) Ready])
        (log w) (calls w)).
Proof.
  intros Hwf Hcls. rewrite snoc2. split; simpl.
  - intros c t. rewrite lookup_insert_Some. intros [[<- [= <-]]|[Hne H]].
    + do 3 eexists. split_and!; [apply lookup_snoc_old, lookup_snoc_new|done|apply lookup_snoc_new|done].
    + destruct (wf_class_future _ Hwf _ _ H) as (p & me & tk & ? & ? & ? & ?).
      exists p, me, tk. snoc_solve.
  - intros t tk p Ht Hc. snoc_lookups.
    + destruct (wf_init_client _ Hwf _ _ _ Ht Hc) as (me & u & ? & ? & Hcl & ?).
      exists me, u. snoc_solve.
      rewrite lookup_insert_ne; [done|]. intros E. rewrite <- E in Hcl. by eapply Hcls.
    + do 2 eexists. split_and!; [apply lookup_snoc_new|done|by rewrite lookup_insert_eq|done].
  - intros p me Hp. snoc_lookups.
    + destruct (wf_persona _ Hwf _ _ Hp) as ([t Ht] & ? & s & tk & ? & ? & ?).
      split_and!; try done.
      * destruct (decide (cls = p_cls me)) as [E|Hne];
          [rewrite <- E in Ht; exfalso; by eapply Hcls|].
        exists t. by rewrite lookup_insert_ne.
      * exists s, tk. snoc_solve.
    + split_and!; eauto.
      * eexists. by rewrite lookup_insert_eq.
      * exists (S (length (tasks w))),
          (Task (CoInitClientSession (length (personas w))) Ready).
        split_and!; [done| |done].
        apply lookup_snoc_Some. right. split; [|done].
        rewrite length_app. simpl. lia.
  - intros s tk p Hs Hc. snoc_lookups.
    + destruct (wf_session_task _ Hwf _ _ _ Hs Hc) as (me & ? & ?).
      exists me. snoc_solve.
    + eexists. split; [apply lookup_snoc_new|]. simpl. f_equal. lia.
  - intros cl c (t & tk & ? & ? & ?)%(wf_client _ Hwf).
    exists t, tk. snoc_solve.
  - intros t tk cl Ht Hc. snoc_lookups. by eapply (wf_conn_task _ Hwf).
  - intros t1 t2 tk1 tk2 p1 p2 cl H1 H2 ????. snoc_lookups.
    by eapply (wf_client_owner _ Hwf t1 t2).
  - intros t tk on k Ht Hs. snoc_lookups. by eapply (wf_quiet _ Hwf).
Qed.

Lemma wf_constructed cls m url w : wf w → wf (constructed cls m url w).
Proof.
  intros Hwf. unfold constructed.
  destruct (classes w !! cls) as [[t0|]|] eqn:Ecls.
  - apply wf_constructed_shared; [done|]. by rewrite Ecls.
  - apply wf_constructed_fresh; [done|]. intros t. by rewrite Ecls.
  - apply wf_constructed_fresh; [done|]. intros t. by rewrite Ecls.
Qed.

(** A task for a coroutine that no [wf] clause speaks about. *)
Lemma wf_spawn c w :
  wf w →
  match c with CoShutdown _ | CoProcessMessage _ _ | CoClose _ => True | _ => False end →
  wf (spawn c w).
Proof.
  intros Hwf Hc. split; simpl.
  - intros c0 t (p & me & tk & ? & ? & ? & ?)%(wf_class_future _ Hwf).
    exists p, me, tk. snoc_solve.
  - intros t tk p Ht Hc'. snoc_lookups; try done.
    destruct (wf_init_client _ Hwf _ _ _ Ht Hc') as (me & u & ? & ? & ? & ?).
    exists me, u. snoc_solve.
  - intros p me (? & ? & s & tk & ? & ? & ?)%(wf_persona _ Hwf).
    split_and!; try done. exists s, tk. snoc_solve.
  - intros s tk p Hs Hc'. snoc_lookups; try done. by eapply (wf_session_task _ Hwf).
  - intros cl c0 (t & tk & ? & ? & ?)%(wf_client _ Hwf).
    exists t, tk. snoc_solve.
  - intros t tk cl Ht Hc'. snoc_lookups; try done. by eapply (wf_conn_task _ Hwf).
  - intros t1 t2 tk1 tk2 p1 p2 cl H1 H2 ????. snoc_lookups; try done.
    by eapply (wf_client_owner _ Hwf t1 t2).
  - intros t tk on k Ht Hs. snoc_lookups; try done. by eapply (wf_quiet _ Hwf).
Qed.

Lemma run_init_client_valid p me url w :
  personas w !! p = Some me → p_remote_url me = Some url → valid_url url = true →
  run (RemoteAcpPersona._init_client p) w
  = (with_log (λ l, l ++ [LogInfo (MsgInitClient (p_cls me) url)])
       (client_created url w),
     Finished (Ok (VClient (length (clients w))))).
Proof.
  intros Hp Hu Hv. unfold RemoteAcpPersona._init_client.
  cbn. rewrite Hp. cbn. rewrite Hu. cbn.
  rewrite run_bind, run_client_init_valid by done. done.
Qed.

Lemma run_init_client_invalid p me url w :
  personas w !! p = Some me → p_remote_url me = Some url → valid_url url = false →
  ∃ msg, run (RemoteAcpPersona._init_client p) w
         = (w, Finished (Err (Exn ValueError msg))).
Proof.
  intros Hp Hu Hv. unfold RemoteAcpPersona._init_client.
  cbn. rewrite Hp. cbn. rewrite Hu. cbn.
  destruct (run_client_init_invalid url w Hv) as [msg E]. exists msg.
  by rewrite run_bind, E.
Qed.

Lemma wf_run_quiet t m w :
  wf w → quiet m →
  (∀ tk p, tasks w !! t = Some tk → t_code tk ≠ CoInitClient p) →
  wf (run_task t m w).
Proof.
  intros Hwf Hm Ht. unfold run_task.
  destruct (run_quiet m w Hm) as [Hf Hk].
  destruct (run m w) as [w1 r]. simpl in *.
  apply wf_settle.
  - by eapply wf_frame.
  - done.
  - intros tk p Htk Hc. rewrite (frame_tasks _ _ Hf) in Htk. by destruct (Ht tk p).
Qed.

Lemma wf_run_init_client t p w :
  wf w → tasks w !! t = Some (Task (CoInitClient p) Ready) →
  wf (run_task t (body (CoInitClient p)) w).
Proof.
  intros Hwf Ht. unfold run_task.
  change (body (CoInitClient p)) with (RemoteAcpPersona._init_client p).
  destruct (wf_init_client _ Hwf _ _ _ Ht eq_refl) as (me & url & Hp & Hu & _ & _).
  destruct (valid_url url) eqn:Hv.
  - rewrite (run_init_client_valid _ _ _ _ Hp Hu Hv).
    apply wf_settle.
    + eapply wf_frame; [by apply wf_client_created|].
      split; try done. apply same_wiring_refl.
    + done.
    + simpl. intros tk p' Htk Hc.
      apply lookup_snoc_Some in Htk as [[_ Htk]|[_ <-]]; [|done].
      rewrite Ht in Htk. simplify_eq/=. split.
      * intros me' url' ??. simplify_eq. split; [done|].
        do 2 eexists. split_and!; [done|apply lookup_snoc_new|done].
      * intros cl t2 tk2 p2 [= <-] H2 Hc2 Hs2.
        apply lookup_snoc_Some in H2 as [[_ H2]|[_ <-]]; [|done].
        destruct (wf_init_client _ Hwf _ _ _ H2 Hc2) as (? & ? & _ & _ & _ & Hok).
        rewrite Hs2 in Hok. destruct Hok as (_ & cl & c & [= <-] & Hcl%lookup_lt_Some & _).
        lia.
  - destruct (run_init_client_invalid _ _ _ w Hp Hu Hv) as [msg ->].
    apply wf_settle; [done..|].
    intros tk p' Htk Hc. rewrite Ht in Htk. simplify_eq/=. split; [|done].
    intros me' url' ??. by simplify_eq.
Qed.

Lemma run_example_init cls m w :
  run (ExampleRemotePersona.__init__ cls m) w
  = run (RemoteAcpPersona.__init__ cls m
           (default (str "ws://localhost:8080/ws") (environ w !! "ACP_SERVER_URL"))) w.
Proof. done. Qed.

Lemma wf_step a w : wf w → wf (step a w).
Proof.
  intros Hwf. destruct a as [cls m url|cls m|p|p b|cl|t|t o]; simpl.
  - unfold call. rewrite run_persona_init. by apply wf_constructed.
  - unfold call. rewrite run_example_init, run_persona_init. by apply wf_constructed.
  - by apply (wf_spawn (CoShutdown p)).
  - by apply wf_spawn.
  - by apply wf_spawn.
  - unfold sched. destruct (tasks w !! t) as [[c [|[t'|]|]]|] eqn:Ht; try done.
    + assert ((∃ p, c = CoInitClient p) ∨ ∀ p, c ≠ CoInitClient p) as [[p ->]|Hc]
        by (destruct c; eauto).
      * by apply wf_run_init_client.
      * apply wf_run_quiet; [done|by apply quiet_body|].
        intros tk p Htk Hcode. simplify_eq/=. by destruct (Hc p).
    + destruct (task_state w t') as [[| |o]|]; try done.
      apply wf_run_quiet; [done|by eapply (wf_quiet _ Hwf)|].
      intros tk p Htk Hcode. simplify_eq/=.
      by destruct (wf_init_client _ Hwf _ _ _ Ht eq_refl) as (? & ? & _ & _ & _ & ?).
  - unfold deliver. destruct (tasks w !! t) as [[c [|[|]|]]|] eqn:Ht; try done.
    apply wf_run_quiet; [done|by eapply (wf_quiet _ Hwf)|].
    intros tk p Htk Hcode. simplify_eq/=.
    by destruct (wf_init_client _ Hwf _ _ _ Ht eq_refl) as (? & ? & _ & _ & _ & ?).
Qed.

Lemma wf_exec acts w : wf w → wf (exec acts w).
Proof.
  revert w. induction acts as [|a acts IH]; intros w Hwf; [done|].
  simpl. apply IH. by apply wf_step.
Qed.

(** ** Accessors *)

Lemma wf_reachable w : reachable w → wf w.
Proof. intros (mro & env & decl & acts & ->). apply wf_exec, wf_start. Qed.

Lemma valid_url_malformed url : malformed url → valid_url url = false.
Proof.
  unfold valid_url. intros [->|[-> ->]]; [done|]. by rewrite andb_false_r.
Qed.

Lemma run_await_task t w :
  run (await (OnTask t)) w =
  match task_state w t with
  | Some (Done o) => (w, Finished o)
  | _ => (w, Blocked (OnTask t)
               (λ o, match o with Ok v => Ret v | Err e => Raise e end))
  end.
Proof. simpl. by destruct (task_state w t) as [[| |[]]|]. Qed.

Lemma run_get_client p me t w :
  personas w !! p = Some me →
  class_getattr w (p_cls me) = Some (Some t) →
  run (RemoteAcpPersona.get_client p) w = run (await (OnTask t)) w.
Proof.
  intros Hp Hc. unfold RemoteAcpPersona.get_client, RemoteAcpPersona.class_client_future.
  cbn. rewrite Hp. cbn. rewrite Hc. done.
Qed.

Lemma run_get_session p me s w :
  personas w !! p = Some me → p_session_future me = Some s →
  run (RemoteAcpPersona.get_session p) w = run (await (OnTask s)) w.
Proof.
  intros Hp Hs. unfold RemoteAcpPersona.get_session.
  cbn. rewrite Hp. cbn. rewrite Hs. done.
Qed.

Lemma run_get_session_id p me s w :
  personas w !! p = Some me → p_session_future me = Some s →
  run (RemoteAcpPersona.get_session_id p) w
  = run (await (OnTask s) ≫= RemoteAcpPersona.session_id) w.
Proof.
  intros Hp Hs. unfold RemoteAcpPersona.get_session_id.
  cbn. rewrite Hp. cbn. rewrite Hs. done.
Qed.


(** ** From construction to the connection attempt *)

Lemma constructed_fresh cls m url w :
  (∀ t, classes w !! cls ≠ Some (Some t)) →
  constructed cls m url w =
  World (class_mro w) (environ w) (<[cls := Some (length (tasks w))]> (classes w))
    (personas w ++ [Persona cls m (Some url) (Some (S (length (tasks w))))])
    (clients w)
    (tasks w ++ [Task (CoInitClient (length (personas w))) Ready;
                 Task (CoInitClientSession (length (personas w))) Ready])
    (log w) (calls w).
Proof.
  intros H. unfold constructed. destruct (classes w !! cls) as [[t|]|] eqn:E; try done.
  by destruct (H t).
Qed.

Lemma lookup_app_length {A} (l k : list A) x : (l ++ x :: k) !! length l = Some x.
Proof. by rewrite list_lookup_middle. Qed.

Lemma sched_ready t c w :
  tasks w !! t = Some (Task c Ready) → sched t w = run_task t (body c) w.
Proof. intros H. unfold sched. by rewrite H. Qed.

Lemma run_init_connection cl c w :
  clients w !! cl = Some c →
  ∃ k, run (RemoteAcpClient._init_connection cl) w
       = (with_calls (λ l, l ++ [ContextAenter cl (c_remote_url c)])
            (with_clients
               (alter (λ x, Client (c_remote_url x) true (c_conn_future x)) cl)
               (with_log (λ l, l ++ [LogInfo (MsgConnecting (c_remote_url c))]) w)),
          Blocked (OnExt (ContextAenter cl (c_remote_url c))) k).
Proof.
  intros Hc. unfold RemoteAcpClient._init_connection. cbn. rewrite Hc. cbn.
  by eexists.
Qed.

(** The first instance of a class, then a turn for its client task and a
    turn for the connection task: the connection is opened to the
    instance's endpoint. *)
Lemma construct_then_connect cls m url w :
  (∀ t, classes w !! cls ≠ Some (Some t)) → valid_url url = true →
  calls (exec [Construct cls m url; Sched (length (tasks w));
               Sched (S (S (length (tasks w))))] w)
  = calls w ++ [ContextAenter (length (clients w)) url].
Proof.
  intros Hcls Hv. simpl. unfold call. rewrite run_persona_init. simpl.
  rewrite (constructed_fresh _ _ _ _ Hcls).
  set (a := Task (CoInitClient (length (personas w))) Ready).
  set (b := Task (CoInitClientSession (length (personas w))) Ready).
  set (w1 := World _ _ _ _ _ _ _ _).
  rewrite (sched_ready (length (tasks w)) (CoInitClient (length (personas w))) w1)
    by apply lookup_app_length.
  unfold run_task.
  change (body (CoInitClient ?p)) with (RemoteAcpPersona._init_client p).
  erewrite run_init_client_valid; [|apply lookup_snoc_new|done|done].
  set (w2 := settle _ _ _).
  assert (Hn : S (S (length (tasks w))) = length (tasks w1)).
  { subst w1. simpl. rewrite length_app. simpl. lia. }
  rewrite (sched_ready _ (CoInitConnection (length (clients w))) w2).
  2:{ subst w2. simpl. rewrite list_lookup_alter_ne by lia.
      rewrite Hn. apply lookup_snoc_new. }
  unfold run_task.
  change (body (CoInitConnection ?c)) with (RemoteAcpClient._init_connection c).
  destruct (run_init_connection (length (clients w))
              (Client url false (Some (length (tasks w1)))) w2) as [k ->].
  { subst w2. simpl. apply lookup_snoc_new. }
  done.
Qed.

(** ** What is asked of the library *)

(** A run only appends tasks, all of them new. *)
Lemma run_tasks {A} (m : prog A) w :
  ∃ news, tasks (run m w).1 = tasks w ++ news ∧
          Forall (λ tk, t_state tk = Ready) news.
Proof.
  revert w. induction m as [a|e|X e k IH|[t|c] k IH]; intros w; simpl.
  - exists []. by rewrite app_nil_r.
  - exists []. by rewrite app_nil_r.
  - destruct (handle e w) as [w' x] eqn:E.
    assert (∃ n0, tasks w' = tasks w ++ n0 ∧ Forall (λ tk, t_state tk = Ready) n0)
      as (n0 & E0 & F0).
    { destruct e; simpl in E; simplify_eq/=;
        try (exists []; by rewrite app_nil_r).
      eexists [_]. split; [done|]. by repeat constructor. }
    destruct (IH x w') as (n1 & E1 & F1).
    exists (n0 ++ n1). rewrite E1, E0, app_assoc. split; [done|].
    by apply Forall_app.
  - destruct (task_state w t) as [[| |o]|]; simpl;
      try (exists []; by rewrite app_nil_r). apply IH.
  - exists []. by rewrite app_nil_r.
Qed.

Lemma run_obeys_calls Q {A} (m : prog A) w :
  obeys any_eff Q any_exn m → Forall Q (calls w) →
  Forall Q (calls (run m w).1) ∧
  ∀ on k, (run m w).2 = Blocked on k → ∀ o, obeys any_eff Q any_exn (k o).
Proof.
  intros Hm. revert w.
  induction Hm as [a|e|X e k He Hk IH|t k Hk IH|c k Hc Hk IH]; intros w Hw; simpl.
  - done.
  - done.
  - destruct (handle e w) as [w' x] eqn:E. apply IH.
    replace (calls w') with (calls w); [done|].
    by destruct e; simpl in E; simplify_eq/=.
  - destruct (task_state w t) as [[| |o]|]; simpl;
      try (split; [done|by intros ?? [= <- <-]]).
    by apply IH.
  - split; [|by intros ?? [= <- <-]].
    apply Forall_app. split; [done|]. by constructor.
Qed.

Lemma calls_inv_run_task Q t m w :
  calls_inv Q w → obeys any_eff Q any_exn m → calls_inv Q (run_task t m w).
Proof.
  intros [Hc Hk] Hm. unfold run_task.
  destruct (run_obeys_calls Q m w Hm Hc) as [Hc' Hk'].
  destruct (run_tasks m w) as (news & Et & Hnews).
  destruct (run m w) as [w' r]. simpl in *.
  split; [done|].
  intros t0 tk' on k (tk & H1 & ->)%lookup_settle Hs o.
  case_decide; simplify_eq/=.
  - destruct r; simplify_eq/=. by eapply Hk'.
  - rewrite Et in H1. apply lookup_app_Some in H1 as [H1|[_ H1]].
    + by eapply Hk.
    + apply list_elem_of_lookup_2 in H1.
      rewrite Forall_forall in Hnews. apply Hnews in H1. congruence.
Qed.

Lemma calls_inv_call Q {A} (m : prog A) w :
  calls_inv Q w → obeys any_eff Q any_exn m → calls_inv Q (call m w).
Proof.
  intros [Hc Hk] Hm. unfold call.
  destruct (run_obeys_calls Q m w Hm Hc) as [Hc' _].
  destruct (run_tasks m w) as (news & Et & Hnews).
  split; [done|].
  intros t0 tk on k H1 Hs o.
  rewrite Et in H1. apply lookup_app_Some in H1 as [H1|[_ H1]].
  - by eapply Hk.
  - apply list_elem_of_lookup_2 in H1.
    rewrite Forall_forall in Hnews. apply Hnews in H1. congruence.
Qed.

Lemma obeys_persona_init Q cls m url :
  obeys any_eff Q any_exn (RemoteAcpPersona.__init__ cls m url).
Proof.
  unfold RemoteAcpPersona.__init__, RemoteAcpPersona.class_client_future. obeys_tac.
Qed.

Lemma obeys_client_init Q url : obeys any_eff Q any_exn (RemoteAcpClient.__init__ url).
Proof. unfold RemoteAcpClient.__init__. obeys_tac. Qed.

Lemma obeys_get_client E Q p :
  (∀ X e, E X e) → obeys E Q any_exn (RemoteAcpPersona.get_client p).
Proof.
  intros HE. unfold RemoteAcpPersona.get_client, RemoteAcpPersona.class_client_future.
  obeys_tac; apply HE.
Qed.

Lemma obeys_close Q cl :
  Q (ContextAexit cl) → obeys any_eff Q any_exn (RemoteAcpClient.close cl).
Proof. intros. unfold RemoteAcpClient.close. obeys_tac; done. Qed.

Lemma calls_inv_step Q a w :
  (∀ c, obeys any_eff Q any_exn (body c)) →
  calls_inv Q w → calls_inv Q (step a w).
Proof.
  intros Hbody Hinv. destruct a as [cls m url|cls m|p|p b|cl|t|t o]; simpl.
  - apply calls_inv_call; [done|apply obeys_persona_init].
  - apply calls_inv_call; [done|]. unfold ExampleRemotePersona.__init__.
    obeys_tac.
  - apply calls_inv_call; [done|]. unfold RemoteAcpPersona.shutdown. obeys_tac.
  - apply (calls_inv_call Q (perform (CreateTask (CoProcessMessage p b)))); [done|].
    obeys_tac.
  - apply (calls_inv_call Q (perform (CreateTask (CoClose cl)))); [done|].
    obeys_tac.
  - unfold sched. destruct (tasks w !! t) as [[c [|[t'|]|]]|] eqn:Ht; try done.
    + by apply calls_inv_run_task.
    + destruct (task_state w t') as [[| |o]|]; try done.
      apply calls_inv_run_task; [done|]. by eapply (proj2 Hinv).
  - unfold deliver. destruct (tasks w !! t) as [[c [|[|]|]]|] eqn:Ht; try done.
    apply calls_inv_run_task; [done|]. by eapply (proj2 Hinv).
Qed.

Lemma calls_inv_reachable Q w :
  (∀ c, obeys any_eff Q any_exn (body c)) → reachable w → calls_inv Q w.
Proof.
  intros Hbody (mro & env & decl & acts & ->).
  assert (calls_inv Q (start mro env decl)) as H0 by (split; [constructor|done]).
  revert H0. generalize (start mro env decl).
  induction acts as [|a acts IH]; intros w H0; [done|].
  simpl. apply IH. by apply calls_inv_step.
Qed.

Lemma obeys_body Q c : body_calls Q c → obeys any_eff Q any_exn (body c).
Proof.
  destruct c; simpl; intros HQ.
  - unfold RemoteAcpPersona._init_client. obeys_tac. apply obeys_client_init.
  - unfold RemoteAcpPersona._init_client_session, RemoteAcpPersona.session_id.
    obeys_tac; try (by apply obeys_get_client); apply HQ.
  - unfold RemoteAcpClient._init_connection. obeys_tac; apply HQ.
  - unfold RemoteAcpPersona._shutdown.
    obeys_tac; try (by apply obeys_get_client); try apply HQ.
    all: apply obeys_close, HQ.
  - unfold RemoteAcpPersona.process_message, RemoteAcpPersona.get_session_id,
      RemoteAcpPersona.session_id.
    obeys_tac; try (by apply obeys_get_client); apply HQ.
  - by apply obeys_close.
Qed.

Lemma bodies_prompt_trimmed c : obeys any_eff prompt_trimmed any_exn (body c).
Proof.
  apply obeys_body. destruct c; simpl; try done. intros. apply strip_trimmed.
Qed.

(** ** [close] step by step *)

Lemma run_close_no_context cl c w :
  clients w !! cl = Some c → c_context c = false →
  run (RemoteAcpClient.close cl) w = (w, Finished (Ok VNone)).
Proof.
  intros Hc Hx. unfold RemoteAcpClient.close. cbn. rewrite Hc. cbn. by rewrite Hx.
Qed.

Lemma run_close cl c fut w :
  clients w !! cl = Some c → c_context c = true → c_conn_future c = Some fut →
  match task_state w fut with
  | Some (Done o) =>
      close_waited cl (c_remote_url c) o w (run (RemoteAcpClient.close cl) w)
  | _ =>
      ∃ k, run (RemoteAcpClient.close cl) w = (w, Blocked (OnTask fut) k) ∧
           ∀ w2 o, close_waited cl (c_remote_url c) o w2 (run (k o) w2)
  end.
Proof.
  intros Hc Hx Hf. unfold RemoteAcpClient.close. cbn. rewrite Hc. cbn.
  rewrite Hx, Hf. cbn.
  assert (Hsup : ∀ e w2,
     run (match except_Exception (λ e0, Do (Log (LogError (MsgErrorClosing e0)))
                                        (λ _, mret VNone)) e with
          | Some q => q
          | None => Raise e
          end) w2 = close_suppressed e w2).
  { intros e w2. unfold close_suppressed, except_Exception.
    by destruct (isinstance e Exception). }
  destruct (task_state w fut) as [[| |o]|] eqn:Hs;
    [eexists; split; [reflexivity|]..|clear Hs Hc; revert w o
    |eexists; split; [reflexivity|]];
    (intros w2 [v|e]; cbn; [|apply Hsup];
     eexists; split; [reflexivity|];
     intros w3 [v'|e']; cbn; [done|apply Hsup]).
Qed.

(** ** What is set stays set *)

Lemma same_wiring_id c : same_wiring c c.
Proof. done. Qed.

Global Instance extends_refl : Reflexive extends.
Proof. intros w. split; eauto using same_wiring_id. Qed.

Global Instance extends_trans : Transitive extends.
Proof.
  intros w1 w2 w3 H12 H23. split.
  - intros c t H. by apply H23, H12.
  - intros p me H. by apply H23, H12.
  - intros t tk H. destruct (ext_tasks _ _ H12 _ _ H) as (tk2 & H2 & Hc2 & Hd2).
    destruct (ext_tasks _ _ H23 _ _ H2) as (tk3 & H3 & Hc3 & Hd3).
    exists tk3. split_and!; [done|congruence|]. intros o Ho. eauto.
  - intros cl c H. destruct (ext_clients _ _ H12 _ _ H) as (c2 & H2 & Hw2 & Hf2 & Hx2).
    destruct (ext_clients _ _ H23 _ _ H2) as (c3 & H3 & Hw3 & Hf3 & Hx3).
    exists c3. split; [done|]. unfold same_wiring. split_and!; [congruence..|auto].
Qed.

Lemma extends_frame w w' : frame w w' → extends w w'.
Proof.
  intros [_ _ Hc Hp Ht Hw]. split; rewrite ?Hc, ?Hp, ?Ht; eauto.
  intros cl c H. by eapply Forall2_lookup_l.
Qed.

Lemma extends_settle t r w :
  (∀ tk o, tasks w !! t = Some tk → t_state tk ≠ Done o) →
  extends w (settle t r w).
Proof.
  intros Ht. split; simpl; eauto using same_wiring_id.
  intros t0 tk H. eexists. split; [apply lookup_settle; eauto|].
  case_decide; simplify_eq/=; [|done]. split; [done|].
  intros o Ho. by destruct (Ht _ o H).
Qed.

Lemma extends_app w w' ps cs ts :
  (∀ c t, classes w !! c = Some (Some t) → classes w' !! c = Some (Some t)) →
  personas w' = personas w ++ ps → clients w' = clients w ++ cs →
  tasks w' = tasks w ++ ts →
  extends w w'.
Proof.
  intros Hc Hp Hcl Ht. split; [done|..].
  - intros p me H. rewrite Hp. by apply lookup_app_l_Some.
  - intros t tk H. exists tk. rewrite Ht. split; [by apply lookup_app_l_Some|done].
  - intros cl c H. exists c. rewrite Hcl. split; [by apply lookup_app_l_Some|done].
Qed.

Lemma extends_constructed cls m url w : extends w (constructed cls m url w).
Proof.
  unfold constructed.
  destruct (classes w !! cls) as [[t0|]|] eqn:E;
    (eapply extends_app; simpl; [|done|by rewrite app_nil_r|done]); try done.
  - intros c t H. rewrite lookup_insert_ne; [done|]. intros <-. congruence.
  - intros c t H. rewrite lookup_insert_ne; [done|]. intros <-. congruence.
Qed.

Lemma extends_run_quiet t m w :
  quiet m → (∀ tk o, tasks w !! t = Some tk → t_state tk ≠ Done o) →
  extends w (run_task t m w).
Proof.
  intros Hm Ht. unfold run_task. destruct (run_quiet m w Hm) as [Hf _].
  destruct (run m w) as [w1 r]. simpl in *.
  etrans; [by apply extends_frame|]. apply extends_settle.
  by rewrite (frame_tasks _ _ Hf).
Qed.

Lemma extends_run_init_client t p w :
  wf w → tasks w !! t = Some (Task (CoInitClient p) Ready) →
  extends w (run_task t (body (CoInitClient p)) w).
Proof.
  intros Hwf Ht. unfold run_task.
  change (body (CoInitClient p)) with (RemoteAcpPersona._init_client p).
  destruct (wf_init_client _ Hwf _ _ _ Ht eq_refl) as (me & url & Hp & Hu & _ & _).
  destruct (valid_url url) eqn:Hv.
  - rewrite (run_init_client_valid _ _ _ _ Hp Hu Hv).
    etrans; [|apply extends_settle].
    + eapply extends_app; simpl; [done|by rewrite app_nil_r|done..].
    + simpl. intros tk o Htk. apply lookup_snoc_Some in Htk as [[_ Htk]|[_ <-]]; [|done].
      rewrite Ht in Htk. by simplify_eq.
  - destruct (run_init_client_invalid _ _ _ w Hp Hu Hv) as [msg ->].
    apply extends_settle. intros tk o Htk. rewrite Ht in Htk. by simplify_eq.
Qed.

Lemma extends_step a w : wf w → extends w (step a w).
Proof.
  intros Hwf. destruct a as [cls m url|cls m|p|p b|cl|t|t o]; simpl.
  - unfold call. rewrite run_persona_init. apply extends_constructed.
  - unfold call. rewrite run_example_init, run_persona_init. apply extends_constructed.
  - eapply extends_app; simpl; [done|by rewrite app_nil_r..|done].
  - eapply extends_app; simpl; [done|by rewrite app_nil_r..|done].
  - eapply extends_app; simpl; [done|by rewrite app_nil_r..|done].
  - unfold sched. destruct (tasks w !! t) as [[c [|[t'|]|]]|] eqn:Ht; try done.
    + assert ((∃ p, c = CoInitClient p) ∨ ∀ p, c ≠ CoInitClient p) as [[p ->]|Hc]
        by (destruct c; eauto).
      * by apply extends_run_init_client.
      * apply extends_run_quiet; [by apply quiet_body|].
        intros tk o Htk. by simplify_eq/=.
    + destruct (task_state w t') as [[| |o]|]; try done.
      apply extends_run_quiet; [by eapply (wf_quiet _ Hwf)|].
      intros tk o' Htk. by simplify_eq/=.
  - unfold deliver. destruct (tasks w !! t) as [[c [|[|]|]]|] eqn:Ht; try done.
    apply extends_run_quiet; [by eapply (wf_quiet _ Hwf)|].
    intros tk o' Htk. by simplify_eq/=.
Qed.

Lemma extends_exec acts w : wf w → extends w (exec acts w).
Proof.
  revert w. induction acts as [|a acts IH]; intros w Hwf; [done|].
  simpl. etrans; [by apply extends_step|]. by apply IH, wf_step.
Qed.

Lemma reachable_exec acts w : reachable w → reachable (exec acts w).
Proof.
  intros (mro & env & decl & acts0 & ->). exists mro, env, decl, (acts0 ++ acts).
  unfold exec. by rewrite foldl_app.
Qed.

(** ** Counting tasks *)

Lemma filter_unique {A} (g : A → bool) (l : list A) a :
  NoDup l → a ∈ l → g a = true → (∀ x, x ∈ l → g x = true → x = a) →
  List.filter g l = [a].
Proof.
  induction 1 as [|x l Hx Hl IH]; intros Ha Hg Hu; [by apply elem_of_nil in Ha|].
  simpl. apply elem_of_cons in Ha as [<-|Ha].
  - rewrite Hg. f_equal. clear IH.
    induction l as [|y l IH]; [done|]. simpl.
    apply not_elem_of_cons in Hx as [Hne Hx]. apply NoDup_cons in Hl as [_ Hl].
    destruct (g y) eqn:Hy.
    + destruct Hne. symmetry. apply Hu; [|done].
      apply list_elem_of_further, list_elem_of_here.
    + apply IH; [done..|]. intros z Hin. apply Hu.
      apply elem_of_cons in Hin as [->|Hin]; [apply list_elem_of_here|].
      by do 2 apply list_elem_of_further.
  - destruct (g x) eqn:Hgx.
    + assert (x = a) as -> by (apply Hu; [apply list_elem_of_here|done]). done.
    + apply IH; [done..|]. intros z Hin. apply Hu. by apply list_elem_of_further.
Qed.

Lemma filter_none {A} (g : A → bool) (l : list A) :
  (∀ x, x ∈ l → g x = false) → List.filter g l = [].
Proof.
  induction l as [|x l IH]; intros H; [done|]. simpl.
  rewrite H by apply list_elem_of_here. apply IH. intros.
  by apply H, list_elem_of_further.
Qed.

Lemma task_ids_where_unique f w t tk :
  tasks w !! t = Some tk → f tk = true →
  (∀ t' tk', tasks w !! t' = Some tk' → f tk' = true → t' = t) →
  task_ids_where f w = [t].
Proof.
  intros Ht Hf Hu. apply filter_unique.
  - apply NoDup_seq.
  - apply elem_of_seq. apply lookup_lt_Some in Ht. lia.
  - by rewrite Ht.
  - intros t' Hin Hg. destruct (tasks w !! t') as [tk'|] eqn:E; [|done].
    by eapply Hu.
Qed.

Lemma task_ids_where_none f w :
  (∀ t tk, tasks w !! t = Some tk → f tk = false) → task_ids_where f w = [].
Proof.
  intros H. apply filter_none. intros t _.
  destruct (tasks w !! t) as [tk|] eqn:E; [|done]. simpl. by eapply H.
Qed.

(** The client future of a class with an instance, and what it is. *)
Lemma class_future_of_persona w p me :
  wf w → personas w !! p = Some me →
  ∃ t, classes w !! p_cls me = Some (Some t) ∧ client_init_tasks w (p_cls me) = [t].
Proof.
  intros Hwf Hp.
  destruct (wf_persona _ Hwf _ _ Hp) as ([t Hc] & _).
  exists t. split; [done|].
  destruct (wf_class_future _ Hwf _ _ Hc) as (p0 & me0 & tk & Ht & Hcode & Hp0 & Hcls).
  eapply task_ids_where_unique; [done|..].
  - unfold is_client_init_for. rewrite Hcode, Hp0. simpl. by rewrite bool_decide_eq_true, Hcls.
  - intros t' tk' Ht' Hf. unfold is_client_init_for in Hf.
    destruct (t_code tk') as [p'| | | | |] eqn:Hcode'; try done.
    apply bool_decide_eq_true in Hf.
    destruct (wf_init_client _ Hwf _ _ _ Ht' Hcode') as (me' & _ & Hp' & _ & Hc' & _).
    rewrite Hp' in Hf. simplify_eq/=. rewrite Hf in Hc'. congruence.
Qed.

Lemma class_future_tasks w c t :
  wf w → classes w !! c = Some (Some t) → client_init_tasks w c = [t].
Proof.
  intros Hwf Hc.
  destruct (wf_class_future _ Hwf _ _ Hc) as (p & me & tk & _ & _ & Hp & <-).
  destruct (class_future_of_persona w p me Hwf Hp) as (t' & Hc' & E). congruence.
Qed.

(** The handshake tasks of a class: none until its client future has
    produced the client, then the one connection task of that client. *)
Lemma handshake_tasks_spec w c t :
  wf w → classes w !! c = Some (Some t) →
  match task_state w t with
  | Some (Done (Ok (VClient cl))) =>
      ∃ h cc, handshake_tasks w c = [h] ∧ clients w !! cl = Some cc ∧
              c_conn_future cc = Some h
  | _ => handshake_tasks w c = []
  end.
Proof.
  intros Hwf Hc. unfold handshake_tasks, clients_of_class.
  rewrite (class_future_tasks w c t Hwf Hc). simpl.
  destruct (wf_class_future _ Hwf _ _ Hc) as (p & me & tk & Ht & Hcode & Hp & <-).
  destruct (wf_init_client _ Hwf _ _ _ Ht Hcode) as (me' & url & _ & _ & _ & Hok).
  assert (Hnone : task_ids_where
     (λ tk0, match t_code tk0 with
             | CoInitConnection cl => bool_decide (cl ∈ @nil client_id)
             | _ => false
             end) w = []).
  { apply task_ids_where_none. intros t0 tk0 _. by destruct (t_code tk0). }
  unfold task_state. rewrite Ht. simpl.
  destruct (t_state tk) as [| |[[|cl| |]|]]; simpl in *; try done;
    try (by destruct Hok as (_ & ? & ? & ? & _)).
  destruct Hok as (_ & cl' & cc & [= <-] & Hcl & _).
  destruct (wf_client _ Hwf _ _ Hcl) as (h & tkh & Hfut & Hh & Hhc).
  exists h, cc. split_and!; try done.
  eapply task_ids_where_unique; [done|..].
  - rewrite Hhc. apply bool_decide_eq_true. set_solver.
  - intros h' tk' Hh' Hf. destruct (t_code tk') as [| |cl'| | |] eqn:Hc'; try done.
    apply bool_decide_eq_true in Hf. apply list_elem_of_singleton in Hf as ->.
    destruct (wf_conn_task _ Hwf _ _ _ Hh' Hc') as (cc' & Hcc' & Hfut').
    congruence.
Qed.

(** ** Counting awaited operations *)

Lemma call_bound_obeys P n {A} (m : prog A) :
  obeys any_eff (λ c, P c = false) any_exn m → call_bound P n m.
Proof. induction 1; by constructor. Qed.

Lemma call_bound_mono P n n' {A} (m : prog A) :
  call_bound P n m → (n ≤ n')%nat → call_bound P n' m.
Proof.
  intros H. revert n'. induction H; intros n' Hn; try by constructor.
  - constructor. eauto.
  - constructor. eauto.
  - constructor; eauto.
  - destruct n' as [|n']; [lia|]. apply cb_AwaitExt_counted. intros o.
    eapply H0. lia.
Qed.

Lemma call_bound_bind P n {A B} (m : prog A) (f : A → prog B) :
  call_bound P n m → (∀ a, call_bound P 0 (f a)) → call_bound P n (m ≫= f).
Proof.
  intros Hm Hf. induction Hm; simpl; try by constructor.
  eapply call_bound_mono; [apply Hf|lia].
Qed.

Lemma call_bound_bind_0 P n {A B} (m : prog A) (f : A → prog B) :
  call_bound P 0 m → (∀ a, call_bound P n (f a)) → call_bound P n (m ≫= f).
Proof.
  intros Hm Hf. remember 0 as z eqn:Hz.
  induction Hm; simpl; subst; try done.
  - constructor.
  - constructor. eauto.
  - constructor. eauto.
  - constructor; eauto.
Qed.

Lemma ncalls_handle P {X} (e : eff X) w : ncalls P (handle e w).1 = ncalls P w.
Proof. by destruct e. Qed.

Lemma ncalls_snoc P c w :
  ncalls P (with_calls (λ l, l ++ [c]) w) = (ncalls P w + if P c then 1 else 0)%nat.
Proof.
  unfold ncalls. simpl. rewrite List.filter_app, length_app. simpl.
  by destruct (P c).
Qed.

Lemma run_call_bound P n {A} (m : prog A) w :
  call_bound P n m →
  ∃ j, (j ≤ n)%nat ∧ ncalls P (run m w).1 = (ncalls P w + j)%nat ∧
       ∀ on k, (run m w).2 = Blocked on k → ∀ o, call_bound P (n - j) (k o).
Proof.
  intros Hm. revert w.
  induction Hm as [n a|n e|n X e k Hk IH|n t k Hk IH|n c k Hc Hk IH|n c k Hk IH];
    intros w; simpl.
  - exists 0. split_and!; [lia|lia|done].
  - exists 0. split_and!; [lia|lia|done].
  - pose proof (ncalls_handle P e w) as Hn.
    destruct (handle e w) as [w' x]. simpl in Hn.
    destruct (IH x w') as (j & ? & ? & ?). exists j. split_and!; [done|lia|done].
  - destruct (task_state w t) as [[| |o]|]; simpl;
      try (exists 0; split_and!; [lia|lia|]; intros ?? [= <- <-] o;
           rewrite Nat.sub_0_r; apply Hk).
    apply IH.
  - exists 0. rewrite ncalls_snoc, Hc. split_and!; [lia|lia|].
    intros ?? [= <- <-] o. rewrite Nat.sub_0_r. apply Hk.
  - rewrite ncalls_snoc. destruct (P c).
    + exists 1. split_and!; [lia|lia|]. intros ?? [= <- <-] o.
      replace (S n - 1) with n by lia. apply Hk.
    + exists 0. split_and!; [lia|lia|]. intros ?? [= <- <-] o.
      eapply call_bound_mono; [apply Hk|lia].
Qed.

Lemma budget_run_task P c0 t tk m w :
  unique_code c0 w → budget_inv P c0 w → tasks w !! t = Some tk →
  call_bound P (if decide (t_code tk = c0) then 1 - ncalls P w else 0) m →
  budget_inv P c0 (run_task t m w).
Proof.
  intros Hu [Hle Hused Hleft] Ht Hm. unfold run_task.
  destruct (run_call_bound P _ m w Hm) as (j & Hj & Hn & Hk).
  destruct (run_tasks m w) as (news & Et & Hnews).
  destruct (run m w) as [w1 r]. simpl in *.
  assert (Hn1 : ncalls P (settle t r w1) = (ncalls P w + j)%nat) by done.
  assert (Hold : ∀ t' tk', tasks (settle t r w1) !! t' = Some tk' → t' ≠ t →
            tasks w !! t' = Some tk' ∨ t_state tk' = Ready).
  { intros t' tk' (tk0 & H0 & ->)%lookup_settle Hne. rewrite decide_False by done.
    rewrite Et in H0. apply lookup_app_Some in H0 as [H0|[_ H0]]; [by left|right].
    rewrite Forall_forall in Hnews. by eapply Hnews, list_elem_of_lookup_2. }
  assert (Hnew : tasks (settle t r w1) !! t = Some (Task (t_code tk) (state_after r))).
  { apply lookup_settle. exists tk. rewrite Et, decide_True by done.
    split; [by apply lookup_app_l_Some|done]. }
  split; rewrite ?Hn1.
  - case_decide; lia.
  - intros E. destruct (decide (j = 0)) as [->|Hj0].
    + destruct Hused as (t0 & tk0 & H0 & Hc0 & Hs0); [lia|].
      destruct (decide (t0 = t)) as [->|Hne].
      * simplify_eq. do 2 eexists. split_and!; [done..|]. by destruct r.
      * exists t0, tk0. split_and!; try done. apply lookup_settle. exists tk0.
        rewrite decide_False by done. split; [|done].
        rewrite Et. by apply lookup_app_l_Some.
    + do 2 eexists. split_and!; [done| |by destruct r].
      simpl. case_decide; [done|lia].
  - intros t' tk' on k Ht' Hs o.
    destruct (decide (t' = t)) as [->|Hne].
    + rewrite Hnew in Ht'. simplify_eq/=. destruct r as [|on' k']; simplify_eq/=.
      eapply call_bound_mono; [by eapply Hk|].
      destruct (decide (t_code tk = c0)); lia.
    + destruct (Hold _ _ Ht' Hne) as [H0|H0]; [|congruence].
      eapply call_bound_mono; [by eapply Hleft|].
      destruct (decide (t_code tk' = c0)) as [Hc'|]; [|lia].
      assert (j = 0) as ->; [|lia].
      destruct (decide (t_code tk = c0)) as [Hc|]; [|lia].
      destruct Hne. by eapply Hu.
Qed.

Lemma budget_call P c0 {A} (m : prog A) w :
  budget_inv P c0 w → call_bound P 0 m → budget_inv P c0 (call m w).
Proof.
  intros [Hle Hused Hleft] Hm. unfold call.
  destruct (run_call_bound P _ m w Hm) as (j & Hj & Hn & _).
  destruct (run_tasks m w) as (news & Et & Hnews).
  assert (j = 0) as -> by lia. rewrite Nat.add_0_r in Hn.
  split; rewrite ?Hn; [done|..].
  - intros (t & tk & ? & ? & ?)%Hused. exists t, tk. split_and!; try done.
    rewrite Et. by apply lookup_app_l_Some.
  - intros t tk on k Ht Hs. rewrite Et in Ht.
    apply lookup_app_Some in Ht as [Ht|[_ Ht]]; [by eapply Hleft|].
    rewrite Forall_forall in Hnews. apply list_elem_of_lookup_2, Hnews in Ht. congruence.
Qed.

Lemma call_bound_sync P n {A} (m : prog A) :
  obeys any_eff (λ _, False) any_exn m → call_bound P n m.
Proof. induction 1; by constructor. Qed.

Lemma budget_step P c0 a w :
  (∀ c, call_bound P (if decide (c = c0) then 1 else 0) (body c)) →
  unique_code c0 w → budget_inv P c0 w → budget_inv P c0 (step a w).
Proof.
  intros Hbody Hu Hinv. destruct a as [cls m url|cls m|p|p b|cl|t|t o]; simpl.
  - apply budget_call; [done|]. apply call_bound_sync, obeys_persona_init.
  - apply budget_call; [done|]. apply call_bound_sync.
    unfold ExampleRemotePersona.__init__. obeys_tac.
  - apply budget_call; [done|]. apply call_bound_sync.
    unfold RemoteAcpPersona.shutdown. obeys_tac.
  - apply (budget_call P c0 (perform (CreateTask (CoProcessMessage p b)))); [done|].
    apply call_bound_sync. obeys_tac.
  - apply (budget_call P c0 (perform (CreateTask (CoClose cl)))); [done|].
    apply call_bound_sync. obeys_tac.
  - unfold sched. destruct (tasks w !! t) as [[c [|[t'|]|]]|] eqn:Ht; try done.
    + eapply budget_run_task; [done..|]. simpl.
      specialize (Hbody c). case_decide as Hc; [|done].
      assert (ncalls P w = 0) as ->; [|done].
      destruct (decide (ncalls P w = 0)) as [|Hn]; [done|].
      destruct (budget_used _ _ _ Hinv) as (t0 & tk0 & H0 & Hc0 & Hs0).
      { pose proof (budget_le _ _ _ Hinv). lia. }
      assert (t0 = t) as -> by (by apply (Hu t0 t tk0 (Task c Ready))).
      rewrite Ht in H0. injection H0 as <-. by destruct Hs0.
    + destruct (task_state w t') as [[| |o]|]; try done.
      eapply budget_run_task; [done..|]. by eapply (budget_left _ _ _ Hinv).
  - unfold deliver. destruct (tasks w !! t) as [[c [|[|]|]]|] eqn:Ht; try done.
    eapply budget_run_task; [done..|]. by eapply (budget_left _ _ _ Hinv).
Qed.

Lemma budget_reachable P c0 w :
  (∀ c, call_bound P (if decide (c = c0) then 1 else 0) (body c)) →
  (∀ w, wf w → unique_code c0 w) →
  reachable w → budget_inv P c0 w.
Proof.
  intros Hbody Hu (mro & env & decl & acts & ->).
  assert (budget_inv P c0 (start mro env decl)) as H0.
  { split; simpl; [unfold ncalls; simpl; lia|done..]. }
  pose proof (wf_start mro env decl) as Hwf.
  revert H0 Hwf. generalize (start mro env decl).
  induction acts as [|a acts IH]; intros w H0 Hwf; [done|].
  simpl. apply IH; [|by apply wf_step]. apply budget_step; auto.
Qed.

Lemma call_bound_try_except P n {A} (m : prog A) h :
  call_bound P n m → (∀ e q, h e = Some q → call_bound P 0 q) →
  call_bound P n (try_except m h).
Proof.
  intros Hm Hh. induction Hm; simpl; try by constructor.
  destruct (h e) eqn:E; [|constructor].
  eapply call_bound_mono; [by eapply Hh|lia].
Qed.

Lemma call_bound_await P c : call_bound P 1 (await (OnExt c)).
Proof. apply cb_AwaitExt_counted. intros [v|e]; constructor. Qed.

Lemma call_bound_await_other P n c : P c = false → call_bound P n (await (OnExt c)).
Proof. intros. apply cb_AwaitExt_other; [done|]. intros [v|e]; constructor. Qed.

Ltac bound0 := apply call_bound_obeys; obeys_tac; try done.

Lemma session_bodies p c :
  call_bound (is_create_session p)
    (if decide (c = CoInitClientSession p) then 1 else 0) (body c).
Proof.
  case_decide as Hc.
  - subst c. simpl. unfold RemoteAcpPersona._init_client_session.
    apply call_bound_bind_0; [bound0|intros me].
    apply call_bound_bind_0; [bound0; by apply obeys_get_client|intros client].
    apply call_bound_bind; [apply call_bound_await|intros session].
    unfold RemoteAcpPersona.session_id. bound0.
  - apply call_bound_obeys, obeys_body. destruct c; simpl; try done.
    intros client. apply bool_decide_eq_false. congruence.
Qed.

Lemma session_task_unique p w : wf w → unique_code (CoInitClientSession p) w.
Proof.
  intros Hwf t1 t2 tk1 tk2 H1 H2 Hc1 Hc2.
  destruct (wf_session_task _ Hwf _ _ _ H1 Hc1) as (me1 & Hp1 & Hs1).
  destruct (wf_session_task _ Hwf _ _ _ H2 Hc2) as (me2 & Hp2 & Hs2).
  congruence.
Qed.

Lemma connect_bodies cl c :
  call_bound (is_connect cl)
    (if decide (c = CoInitConnection cl) then 1 else 0) (body c).
Proof.
  case_decide as Hc.
  - subst c. simpl. unfold RemoteAcpClient._init_connection.
    apply call_bound_bind_0; [bound0|intros me].
    apply call_bound_bind_0; [bound0|intros _].
    apply call_bound_try_except.
    + apply call_bound_bind_0; [bound0|intros _].
      apply call_bound_bind; [apply call_bound_await|intros conn]. bound0.
    + intros e q. unfold except_Exception. case_match; [|done]. intros [= <-]. bound0.
  - apply call_bound_obeys, obeys_body. destruct c; simpl; try done.
    split; [|done]. intros url. apply bool_decide_eq_false. congruence.
Qed.

Lemma handshake_bodies cl c :
  call_bound (is_handshake cl)
    (if decide (c = CoInitConnection cl) then 1 else 0) (body c).
Proof.
  case_decide as Hc.
  - subst c. simpl. unfold RemoteAcpClient._init_connection.
    apply call_bound_bind_0; [bound0|intros me].
    apply call_bound_bind_0; [bound0|intros _].
    apply call_bound_try_except.
    + apply call_bound_bind_0; [bound0|intros _].
      apply call_bound_bind_0; [bound0|intros conn].
      apply call_bound_bind; [apply call_bound_await|intros _]. bound0.
    + intros e q. unfold except_Exception. case_match; [|done]. intros [= <-]. bound0.
  - apply call_bound_obeys, obeys_body. destruct c; simpl; try done.
    split; [done|]. intros conn. apply bool_decide_eq_false. congruence.
Qed.

Lemma conn_task_unique cl w : wf w → unique_code (CoInitConnection cl) w.
Proof.
  intros Hwf t1 t2 tk1 tk2 H1 H2 Hc1 Hc2.
  destruct (wf_conn_task _ Hwf _ _ _ H1 Hc1) as (c1 & Hp1 & Hs1).
  destruct (wf_conn_task _ Hwf _ _ _ H2 Hc2) as (c2 & Hp2 & Hs2).
  congruence.
Qed.

(** A session is asked for at most once per persona, a connection and a
    handshake at most once per client. *)
Lemma create_session_once w p : reachable w → (ncalls (is_create_session p) w ≤ 1)%nat.
Proof.
  intros Hw. eapply budget_le, budget_reachable; [apply session_bodies| |done].
  intros. by apply session_task_unique.
Qed.

Lemma connect_once w cl : reachable w → (ncalls (is_connect cl) w ≤ 1)%nat.
Proof.
  intros Hw. eapply budget_le, budget_reachable; [apply connect_bodies| |done].
  intros. by apply conn_task_unique.
Qed.

Lemma handshake_once w cl : reachable w → (ncalls (is_handshake cl) w ≤ 1)%nat.
Proof.
  intros Hw. eapply budget_le, budget_reachable; [apply handshake_bodies| |done].
  intros. by apply conn_task_unique.
Qed.

(** The sessions tasks of a persona: the one its session future names. *)
Lemma session_tasks_of_persona w p me :
  wf w → personas w !! p = Some me →
  ∃ s, p_session_future me = Some s ∧ session_tasks w p = [s].
Proof.
  intros Hwf Hp.
  destruct (wf_persona _ Hwf _ _ Hp) as (_ & _ & s & tk & Hs & Ht & Hc).
  exists s. split; [done|].
  eapply task_ids_where_unique; [done|by apply bool_decide_eq_true|].
  intros s' tk' Ht' Hc'%bool_decide_eq_true.
  destruct (wf_session_task _ Hwf _ _ _ Ht' Hc') as (me' & ? & ?). congruence.
Qed.

Lemma task_state_stable w w' t o :
  extends w w' → task_state w t = Some (Done o) → task_state w' t = Some (Done o).
Proof.
  intros He. unfold task_state. destruct (tasks w !! t) as [tk|] eqn:Ht; [|done].
  simpl. intros [= Hs]. destruct (ext_tasks _ _ He _ _ Ht) as (tk' & -> & _ & Hd).
  simpl. by rewrite (Hd o Hs).
Qed.


(** ** [__aexit__] only on a ready connection *)

Lemma conn_ready_extends w w' cl : extends w w' → conn_ready w cl → conn_ready w' cl.
Proof.
  intros He (c & fut & v & Hc & Hf & Hs).
  destruct (ext_clients _ _ He _ _ Hc) as (c' & Hc' & _ & Hw & _).
  exists c', fut, v. split_and!; [done|congruence|by eapply task_state_stable].
Qed.

Lemma exit_ok_extends w w' c : extends w w' → exit_ok w c → exit_ok w' c.
Proof. destruct c; simpl; eauto using conn_ready_extends. Qed.

Lemma conn_ready_intro w w' cl c fut v :
  clients w !! cl = Some c → c_conn_future c = Some fut → extends w w' →
  task_state w' fut = Some (Done (Ok v)) → conn_ready w' cl.
Proof.
  intros Hc Hf He Hs. destruct (ext_clients _ _ He _ _ Hc) as (c' & Hc' & _ & Hw & _).
  exists c', fut, v. split_and!; [done|congruence|done].
Qed.

Lemma extends_with_calls f w : extends w (with_calls f w).
Proof. by split; simpl; eauto using same_wiring_id. Qed.

Lemma extends_with_log f w : extends w (with_log f w).
Proof. by split; simpl; eauto using same_wiring_id. Qed.

Lemma guarded_close cl w : guarded (RemoteAcpClient.close cl) w.
Proof.
  unfold RemoteAcpClient.close. cbn.
  destruct (clients w !! cl) as [c|] eqn:Hc; cbn; [|done].
  destruct (c_context c); cbn; [|done].
  destruct (c_conn_future c) as [fut|] eqn:Hf; cbn.
  - intros w2 [v|e] He Hs; cbn.
    + split; [by eapply conn_ready_intro|]. intros w3 [v'|e'] _; cbn; [done|].
      unfold except_Exception. by destruct (isinstance e' Exception).
    + unfold except_Exception. by destruct (isinstance e Exception).
  - unfold except_Exception. by destruct (isinstance _ Exception).
Qed.

Lemma extends_handle_passive {X} (e : eff X) w : passive e → extends w (handle e w).1.
Proof. intros. by apply extends_frame, handle_passive. Qed.

Lemma guarded_bind {A B} (m : prog A) (f : A → prog B) w :
  quiet m → guarded m w → (∀ a w', extends w w' → guarded (f a) w') →
  guarded (m ≫= f) w.
Proof.
  intros Hq. revert w.
  induction Hq as [a|e|X e k He Hk IH|t k Hk IH|c k _ Hk IH]; intros w Hg Hf; simpl in *.
  - by apply Hf.
  - done.
  - apply IH; [done|]. intros a w' Hw'. apply Hf.
    etrans; [by apply (extends_handle_passive e)|done].
  - intros w2 o Hw2 Hs. apply IH; [by apply Hg|].
    intros a w' Hw'. apply Hf. by etrans.
  - destruct Hg as [Hc Hg]. split; [done|].
    intros w2 o Hw2. apply IH; [by apply Hg|].
    intros a w' Hw'. apply Hf. by etrans.
Qed.

Lemma guarded_try_except {A} (m : prog A) h w :
  quiet m → guarded m w →
  (∀ e q w', extends w w' → h e = Some q → guarded q w') →
  guarded (try_except m h) w.
Proof.
  intros Hq. revert w.
  induction Hq as [a|e|X e k He Hk IH|t k Hk IH|c k _ Hk IH]; intros w Hg Hh; simpl in *.
  - done.
  - destruct (h e) eqn:E; [|done]. by eapply Hh.
  - apply IH; [done|]. intros e0 q w' Hw'. apply Hh.
    etrans; [by apply (extends_handle_passive e)|done].
  - intros w2 o Hw2 Hs. apply IH; [by apply Hg|].
    intros e0 q w' Hw'. apply Hh. by etrans.
  - destruct Hg as [Hc Hg]. split; [done|].
    intros w2 o Hw2. apply IH; [by apply Hg|].
    intros e0 q w' Hw'. apply Hh. by etrans.
Qed.

(** A program that never asks for [__aexit__] is guarded. *)
Lemma guarded_obeys {A} (m : prog A) w :
  obeys any_eff (λ c, ∀ w, exit_ok w c) any_exn m → guarded m w.
Proof.
  intros H. revert w. induction H; intros w; simpl; try done; eauto.
Qed.

Lemma quiet_obeys {A} Q (m : prog A) :
  obeys (@passive) Q any_exn m → quiet m.
Proof. induction 1; by constructor. Qed.

Lemma guarded_body c w : guarded (body c) w.
Proof.
  assert (Hother : body_calls (λ c, ∀ w, exit_ok w c) c → guarded (body c) w).
  { intros H. by apply guarded_obeys, obeys_body. }
  destruct c as [p|p|cl|p|p b|cl]; try (by apply Hother).
  - change (guarded (RemoteAcpPersona._shutdown p) w).
    unfold RemoteAcpPersona._shutdown.
    apply guarded_bind; [unfold quiet; obeys_tac|apply guarded_obeys; obeys_tac|].
    intros me w1 _.
    apply guarded_bind; [unfold quiet; obeys_tac|apply guarded_obeys; obeys_tac|].
    intros [] w2 _.
    apply guarded_bind;
      [apply quiet_get_client|apply guarded_obeys; by apply obeys_get_client|].
    intros client w3 _.
    apply guarded_bind; [unfold quiet; obeys_tac|apply guarded_obeys; obeys_tac; done|].
    intros conn w4 _.
    apply guarded_bind; [unfold quiet; obeys_tac|apply guarded_obeys; obeys_tac; done|].
    intros ? w5 _.
    apply guarded_bind.
    + unfold quiet. obeys_tac.
    + destruct client as [|cl| |]; try done.
      apply guarded_bind; [unfold quiet; obeys_tac|apply guarded_obeys; obeys_tac|].
      intros c w6 _. destruct (c_context c); [|done].
      apply guarded_try_except.
      * unfold quiet. obeys_tac.
      * apply guarded_bind; [apply quiet_close|apply guarded_close|done].
      * intros e q w7 _. unfold except_Exception. case_match; [|done].
        intros [= <-]. apply guarded_obeys. obeys_tac.
    + intros ? w6 _. apply guarded_obeys. obeys_tac.
  - apply guarded_close.
Qed.

Lemma run_guarded {A} (m : prog A) w :
  quiet m → guarded m w → Forall (exit_ok w) (calls w) →
  Forall (exit_ok (run m w).1) (calls (run m w).1) ∧
  ∀ on k, (run m w).2 = Blocked on k →
    ∀ w2 o, extends (run m w).1 w2 →
            (∀ t', on = OnTask t' → task_state w2 t' = Some (Done o)) →
            guarded (k o) w2.
Proof.
  intros Hq. revert w.
  induction Hq as [a|e|X e k He Hk IH|t k Hk IH|c k _ Hk IH]; intros w Hg Hc; simpl in *.
  - done.
  - done.
  - pose proof (extends_handle_passive e w He) as Hext.
    assert (calls (handle e w).1 = calls w) as Hcalls by (by destruct e).
    destruct (handle e w) as [w' x]. simpl in *. apply IH; [done|].
    rewrite Hcalls. eapply Forall_impl; [done|]. intros c. by apply exit_ok_extends.
  - destruct (task_state w t) as [[| |o]|] eqn:Hs; simpl;
      try (split; [done|]; intros ?? [= <- <-] w2 o Hw2 Ht; apply Hg; [done|by apply Ht]).
    apply IH; [|done]. by apply Hg.
  - destruct Hg as [Hok Hg]. split.
    + apply Forall_app. split.
      * eapply Forall_impl; [done|]. intros c'. apply exit_ok_extends, extends_with_calls.
      * constructor; [|done]. eapply exit_ok_extends; [apply extends_with_calls|done].
    + intros ?? [= <- <-] w2 o Hw2 _. apply Hg.
      etrans; [apply extends_with_calls|done].
Qed.

Lemma exit_inv_run_task t m w :
  quiet m → guarded m w → exit_inv w →
  (∀ tk o, tasks w !! t = Some tk → t_state tk ≠ Done o) →
  exit_inv (run_task t m w).
Proof.
  intros Hq Hg [Hc Hw] Ht. unfold run_task.
  destruct (run_guarded m w Hq Hg Hc) as [Hc1 Hk].
  destruct (run_quiet m w Hq) as [Hf _].
  destruct (run m w) as [w1 r]. simpl in *.
  assert (He1 : extends w w1) by (by apply extends_frame).
  assert (He2 : extends w1 (settle t r w1)).
  { apply extends_settle. by rewrite (frame_tasks _ _ Hf). }
  split.
  - simpl. eapply Forall_impl; [done|]. intros c. by apply exit_ok_extends.
  - intros t' tk' on k (tk & H1 & ->)%lookup_settle Hs w2 o Hw2 Hon.
    case_decide; simplify_eq/=.
    + destruct r; simplify_eq/=. eapply Hk; [done| |done]. by etrans.
    + rewrite (frame_tasks _ _ Hf) in H1. eapply Hw; [done..| |done].
      etrans; [done|]. by etrans.
Qed.

(** Steps that ask nothing and suspend nothing. *)
Lemma exit_inv_grow w w' :
  exit_inv w → extends w w' → calls w' = calls w →
  (∀ t tk' on k, tasks w' !! t = Some tk' → t_state tk' = Waiting on k →
     ∃ tk, tasks w !! t = Some tk ∧ t_state tk = Waiting on k) →
  exit_inv w'.
Proof.
  intros [Hc Hw] He Hcalls Hold. split.
  - rewrite Hcalls. eapply Forall_impl; [done|]. intros c. by apply exit_ok_extends.
  - intros t tk' on k Ht Hs w2 o Hw2 Hon.
    destruct (Hold _ _ _ _ Ht Hs) as (tk & Ht0 & Hs0).
    eapply Hw; [done..| |done]. by etrans.
Qed.

Lemma waiting_snoc (l : list task) c t tk on k :
  (l ++ [Task c Ready]) !! t = Some tk → t_state tk = Waiting on k →
  l !! t = Some tk.
Proof. intros [[_ H]|[_ <-]]%lookup_snoc_Some; done. Qed.

Lemma exit_inv_constructed cls m url w :
  exit_inv w → exit_inv (constructed cls m url w).
Proof.
  intros Hinv. eapply exit_inv_grow; [done|apply extends_constructed| |].
  - unfold constructed. by destruct (classes w !! cls) as [[]|].
  - intros t tk' on k Ht Hs. exists tk'. split; [|done].
    unfold constructed in Ht. destruct (classes w !! cls) as [[]|]; simpl in Ht.
    + by eapply waiting_snoc.
    + rewrite snoc2 in Ht. eapply waiting_snoc; [|done]. by eapply waiting_snoc.
    + rewrite snoc2 in Ht. eapply waiting_snoc; [|done]. by eapply waiting_snoc.
Qed.

Lemma exit_inv_spawn c w : exit_inv w → exit_inv (spawn c w).
Proof.
  intros Hinv. eapply exit_inv_grow; [done| |done|].
  - eapply extends_app; simpl; [done|by rewrite app_nil_r..|done].
  - intros t tk' on k Ht Hs. exists tk'. split; [|done]. simpl in Ht.
    by eapply waiting_snoc.
Qed.

Lemma exit_inv_run_init_client t p w :
  wf w → exit_inv w → tasks w !! t = Some (Task (CoInitClient p) Ready) →
  exit_inv (run_task t (body (CoInitClient p)) w).
Proof.
  intros Hwf Hinv Ht.
  eapply exit_inv_grow; [done|by apply extends_run_init_client|..];
    unfold run_task;
    change (body (CoInitClient p)) with (RemoteAcpPersona._init_client p);
    destruct (wf_init_client _ Hwf _ _ _ Ht eq_refl) as (me & url & Hp & Hu & _ & _);
    (destruct (valid_url url) eqn:Hv;
      [rewrite (run_init_client_valid _ _ _ _ Hp Hu Hv)
      |destruct (run_init_client_invalid _ _ _ w Hp Hu Hv) as [msg ->]]); try done.
  - intros t' tk' on k (tk & H1 & ->)%lookup_settle Hs.
    case_decide; simplify_eq/=. exists tk. split; [|done]. by eapply waiting_snoc.
  - intros t' tk' on k (tk & H1 & ->)%lookup_settle Hs.
    case_decide; simplify_eq/=. by exists tk.
Qed.

Lemma exit_inv_step a w : wf w → exit_inv w → exit_inv (step a w).
Proof.
  intros Hwf Hinv. destruct a as [cls m url|cls m|p|p b|cl|t|t o]; simpl.
  - unfold call. rewrite run_persona_init. by apply exit_inv_constructed.
  - unfold call. rewrite run_example_init, run_persona_init.
    by apply exit_inv_constructed.
  - by apply (exit_inv_spawn (CoShutdown p)).
  - by apply exit_inv_spawn.
  - by apply exit_inv_spawn.
  - unfold sched. destruct (tasks w !! t) as [[c [|[t'|]|]]|] eqn:Ht; try done.
    + assert ((∃ p, c = CoInitClient p) ∨ ∀ p, c ≠ CoInitClient p) as [[p ->]|Hc]
        by (destruct c; eauto).
      * by apply exit_inv_run_init_client.
      * apply exit_inv_run_task;
          [by apply quiet_body|apply guarded_body|done|].
        intros tk o Htk. by simplify_eq/=.
    + destruct (task_state w t') as [[| |o]|] eqn:Hs; try done.
      apply exit_inv_run_task; [by eapply (wf_quiet _ Hwf)| |done|].
      * eapply (exit_waiting _ Hinv); [done..|reflexivity|]. by intros ? [= <-].
      * intros tk o' Htk. by simplify_eq/=.
  - unfold deliver. destruct (tasks w !! t) as [[c [|[|]|]]|] eqn:Ht; try done.
    apply exit_inv_run_task; [by eapply (wf_quiet _ Hwf)| |done|].
    + eapply (exit_waiting _ Hinv); [done..|reflexivity|done].
    + intros tk o' Htk. by simplify_eq/=.
Qed.

Lemma exit_inv_reachable w : reachable w → exit_inv w.
Proof.
  intros (mro & env & decl & acts & ->).
  assert (exit_inv (start mro env decl)) as H0 by (split; [constructor|done]).
  pose proof (wf_start mro env decl) as Hwf.
  revert H0 Hwf. generalize (start mro env decl).
  induction acts as [|a acts IH]; intros w H0 Hwf; [done|].
  simpl. apply IH; [by apply exit_inv_step|by apply wf_step].
Qed.

Lemma started_inv_run_task t m w :
  quiet m → started_inv w →
  (∀ tk cl c', tasks w !! t = Some tk → t_state tk = Ready →
     t_code tk = CoInitConnection cl → clients (run m w).1 !! cl = Some c' →
     c_context c' = true) →
  started_inv (run_task t m w).
Proof.
  intros Hq Hinv Hstart. unfold run_task.
  destruct (run_quiet m w Hq) as [Hf _].
  destruct (run m w) as [w1 r]. simpl in *.
  intros t0 tk' cl c' (tk & H1 & ->)%lookup_settle Hcode Hc'.
  rewrite (frame_tasks _ _ Hf) in H1. simpl in Hc'.
  destruct (Forall2_lookup_r _ _ _ _ _ (frame_clients _ _ Hf) Hc') as (c & Hc & _ & _ & Hx).
  case_decide; simplify_eq/=.
  - destruct (t_state tk) eqn:Hs; [right; by eapply Hstart|..];
      destruct (Hinv _ _ _ _ H1 Hcode Hc) as [?|?]; try congruence; right; auto.
  - destruct (Hinv _ _ _ _ H1 Hcode Hc) as [?|?]; auto.
Qed.

Lemma started_inv_app w w' ts cs :
  wf w → started_inv w →
  tasks w' = tasks w ++ ts → Forall (λ tk, t_state tk = Ready) ts →
  clients w' = clients w ++ cs →
  started_inv w'.
Proof.
  intros Hwf Hinv Et Hts Ec t tk cl c' Ht Hcode Hc'.
  rewrite Et in Ht. apply lookup_app_Some in Ht as [Ht|[_ Ht]].
  - destruct (wf_conn_task _ Hwf _ _ _ Ht Hcode) as (c & Hc & _).
    rewrite Ec, (lookup_app_l_Some _ _ _ _ Hc) in Hc'. simplify_eq.
    by eapply Hinv.
  - left. rewrite Forall_forall in Hts. by eapply Hts, list_elem_of_lookup_2.
Qed.

Lemma started_inv_settle t r w :
  started_inv w →
  (∀ tk cl, tasks w !! t = Some tk → t_code tk ≠ CoInitConnection cl) →
  started_inv (settle t r w).
Proof.
  intros Hinv Ht t0 tk' cl c' (tk & H1 & ->)%lookup_settle Hcode Hc'.
  case_decide; simplify_eq/=; [by destruct (Ht _ cl H1)|]. by eapply Hinv.
Qed.

Lemma started_inv_step a w : wf w → started_inv w → started_inv (step a w).
Proof.
  intros Hwf Hinv. destruct a as [cls m url|cls m|p|p b|cl|t|t o]; simpl.
  - unfold call. rewrite run_persona_init. unfold constructed.
    destruct (classes w !! cls) as [[]|];
      (eapply started_inv_app; simpl; [done|done|done| |by rewrite app_nil_r]);
      by repeat constructor.
  - unfold call. rewrite run_example_init, run_persona_init. unfold constructed.
    destruct (classes w !! cls) as [[]|];
      (eapply started_inv_app; simpl; [done|done|done| |by rewrite app_nil_r]);
      by repeat constructor.
  - eapply started_inv_app; simpl; [done|done|done| |by rewrite app_nil_r];
      by repeat constructor.
  - eapply started_inv_app; simpl; [done|done|done| |by rewrite app_nil_r];
      by repeat constructor.
  - eapply started_inv_app; simpl; [done|done|done| |by rewrite app_nil_r];
      by repeat constructor.
  - unfold sched. destruct (tasks w !! t) as [[c [|[t'|]|]]|] eqn:Ht; try done.
    + assert ((∃ p, c = CoInitClient p) ∨ ∀ p, c ≠ CoInitClient p) as [[p ->]|Hc]
        by (destruct c; eauto).
      * unfold run_task.
        change (body (CoInitClient p)) with (RemoteAcpPersona._init_client p).
        destruct (wf_init_client _ Hwf _ _ _ Ht eq_refl) as (me & url & Hp & Hu & _ & _).
        destruct (valid_url url) eqn:Hv.
        -- rewrite (run_init_client_valid _ _ _ _ Hp Hu Hv).
           apply started_inv_settle.
           ++ eapply started_inv_app; simpl; [done|done|done| |done].
              by repeat constructor.
           ++ simpl. intros tk cl Htk.
              apply lookup_snoc_Some in Htk as [[_ Htk]|[Hl _]].
              ** rewrite Ht in Htk. by simplify_eq.
              ** apply lookup_lt_Some in Ht. lia.
        -- destruct (run_init_client_invalid _ _ _ w Hp Hu Hv) as [msg ->].
           apply started_inv_settle; [done|]. intros tk cl Htk.
           rewrite Ht in Htk. by simplify_eq.
      * apply started_inv_run_task; [by apply quiet_body|done|].
        intros tk cl c' Htk _ Hcode. rewrite Ht in Htk. injection Htk as <-.
        simpl in Hcode. subst c.
        destruct (wf_conn_task _ Hwf _ _ _ Ht eq_refl) as (c0 & Hc0 & _).
        change (body (CoInitConnection cl)) with (RemoteAcpClient._init_connection cl).
        destruct (run_init_connection cl c0 w Hc0) as [k ->]. simpl.
        rewrite list_lookup_alter_eq, Hc0. simpl. by intros [= <-].
    + destruct (task_state w t') as [[| |o]|]; try done.
      apply started_inv_run_task; [by eapply (wf_quiet _ Hwf)|done|].
      intros tk cl c' Htk Hs. by simplify_eq/=.
  - unfold deliver. destruct (tasks w !! t) as [[c [|[|]|]]|] eqn:Ht; try done.
    apply started_inv_run_task; [by eapply (wf_quiet _ Hwf)|done|].
    intros tk cl c' Htk Hs. by simplify_eq/=.
Qed.

Lemma started_inv_reachable w : reachable w → started_inv w.
Proof.
  intros (mro & env & decl & acts & ->).
  assert (started_inv (start mro env decl)) as H0 by (by intros ?????).
  pose proof (wf_start mro env decl) as Hwf.
  revert H0 Hwf. generalize (start mro env decl).
  induction acts as [|a acts IH]; intros w H0 Hwf; [done|].
  simpl. apply IH; [by apply started_inv_step|by apply wf_step].
Qed.
(** ** More on strings *)

Lemma startswith_prefix s pre : startswith s pre = true ↔ ∃ rest, s = pre ++ rest.
Proof.
  revert s. induction pre as [|a pre IH]; intros s; simpl.
  - split; [by exists s|done].
  - destruct s as [|b s]; [split; [done|by intros [? ?]]|].
    rewrite andb_true_iff, N.eqb_eq, IH. split.
    + intros [-> [rest ->]]. by exists rest.
    + intros [rest [= -> ->]]. split; [done|by exists rest].
Qed.

Lemma strip_split s : ∃ pre suf, s = pre ++ strip s ++ suf ∧ blank pre ∧ blank suf.
Proof.
  destruct (lstrip_split s) as (pre & E1 & H1).
  destruct (rstrip_split (lstrip s)) as (suf & E2 & H2).
  exists pre, suf. unfold strip. by rewrite <- E2.
Qed.

Lemma strip_nil_blank s : strip s = [] ↔ blank s.
Proof.
  split; [|apply strip_spaces].
  intros H. destruct (strip_split s) as (pre & suf & E & H1 & H2).
  rewrite H in E. rewrite E. by apply Forall_app.
Qed.

Lemma truthy_strip s :
  truthy s && truthy (strip s) = true ↔ ∃ c, c ∈ s ∧ is_space c = false.
Proof.
  split.
  - intros [_ H]%andb_prop. destruct (strip s) as [|c r] eqn:E; [done|].
    exists c. pose proof (strip_trimmed s) as [Hh _]. rewrite E in Hh.
    split; [|by apply Hh].
    destruct (strip_split s) as (pre & suf & -> & _). rewrite E. set_solver.
  - intros (c & Hin & Hc). destruct s as [|a s]; [by apply elem_of_nil in Hin|].
    simpl. destruct (strip (a :: s)) eqn:E; [|done].
    apply strip_nil_blank in E. unfold blank in E. rewrite Forall_forall in E.
    apply E in Hin. congruence.
Qed.

Lemma replace_from_absent old new s :
  old ≠ [] → contains s old = false → replace_from old new 0 s = s.
Proof.
  intros Ho. induction s as [|c s IH]; [done|].
  cbn [contains replace_from]. intros [H1 H2]%orb_false_elim.
  rewrite H1. f_equal. by apply IH.
Qed.

Lemma replace_from_sublist old k s : replace_from old [] k s `sublist_of` s.
Proof.
  revert k. induction s as [|c s IH]; intros k; [done|].
  cbn [replace_from]. destruct k as [|k].
  - destruct (startswith (c :: s) old).
    + simpl. by apply sublist_cons.
    + by apply sublist_skip.
  - by apply sublist_cons.
Qed.

Lemma strip_sublist s : strip s `sublist_of` s.
Proof.
  destruct (strip_split s) as (pre & suf & E & _). rewrite E at 2.
  apply sublist_inserts_l, sublist_inserts_r. done.
Qed.

Lemma blank_no_at s : blank s → 64%N ∉ s.
Proof.
  unfold blank. rewrite Forall_forall. intros H Hin. by apply H in Hin.
Qed.
(** ** The history of a world *)

Global Instance grows_refl : Reflexive grows.
Proof. intros w. by split. Qed.

Global Instance grows_trans : Transitive grows.
Proof. intros w1 w2 w3 [] []. split; by etrans. Qed.

Lemma handle_calls {X} (e : eff X) w : calls (handle e w).1 = calls w.
Proof. by destruct e. Qed.

Lemma grows_handle_passive {X} (e : eff X) w : passive e → grows w (handle e w).1.
Proof.
  intros He. split.
  - by apply extends_handle_passive.
  - by rewrite handle_calls.
  - destruct e; simpl; try done. by apply prefix_app_r.
Qed.

Lemma grows_with_calls c w : grows w (with_calls (λ l, l ++ [c]) w).
Proof.
  split; simpl; [apply extends_with_calls|by apply prefix_app_r|done].
Qed.

Lemma grows_with_log r w : grows w (with_log (λ l, l ++ [r]) w).
Proof.
  split; simpl; [apply extends_with_log|done|by apply prefix_app_r].
Qed.

Lemma run_grows {A} (m : prog A) w : quiet m → grows w (run m w).1.
Proof.
  intros Hq. revert w.
  induction Hq as [a|e|X e k He Hk IH|t k Hk IH|c k _ Hk IH]; intros w; simpl;
    try reflexivity.
  - pose proof (grows_handle_passive e w He) as Hg.
    destruct (handle e w) as [w' x]. simpl in *. etrans; [done|apply IH].
  - destruct (task_state w t) as [[| |o]|]; simpl; try reflexivity. apply IH.
  - apply grows_with_calls.
Qed.

Lemma grows_settle t r w :
  (∀ tk o, tasks w !! t = Some tk → t_state tk ≠ Done o) → grows w (settle t r w).
Proof. intros H. split; [by apply extends_settle|done..]. Qed.

Lemma grows_persona w w' p me :
  grows w w' → personas w !! p = Some me → personas w' !! p = Some me.
Proof. intros [He _ _]. apply He. Qed.

Lemma grows_class w w' c t :
  grows w w' → classes w !! c = Some (Some t) → classes w' !! c = Some (Some t).
Proof. intros [He _ _]. apply He. Qed.

Lemma grows_done w w' t o :
  grows w w' → task_state w t = Some (Done o) → task_state w' t = Some (Done o).
Proof. intros [He _ _]. by apply task_state_stable. Qed.

Lemma grows_client w w' cl x :
  grows w w' → clients w !! cl = Some x →
  ∃ x', clients w' !! cl = Some x' ∧ same_wiring x x'.
Proof. intros [He _ _]. apply He. Qed.

Lemma grows_task w w' t tk :
  grows w w' → tasks w !! t = Some tk →
  ∃ tk', tasks w' !! t = Some tk' ∧ t_code tk' = t_code tk.
Proof.
  intros [He _ _] H. destruct (ext_tasks _ _ He _ _ H) as (tk' & ? & ? & _). eauto.
Qed.

Lemma grows_call w w' c : grows w w' → c ∈ calls w → c ∈ calls w'.
Proof. intros [_ [k ->] _] H. apply elem_of_app. by left. Qed.

Lemma grows_logged w w' r : grows w w' → r ∈ log w → r ∈ log w'.
Proof. intros [_ _ [k ->]] H. apply elem_of_app. by left. Qed.

Lemma grows_client_of w w' p client :
  grows w w' → client_of w p client → client_of w' p client.
Proof.
  intros Hg (me & t & Hp & Hc & Ht). exists me, t.
  split_and!; eauto using grows_persona, grows_class, grows_done.
Qed.

Lemma grows_session_of w w' p sid :
  grows w w' → session_of w p sid → session_of w' p sid.
Proof.
  intros Hg (me & s & Hp & Hs & Ht). exists me, s.
  split_and!; eauto using grows_persona, grows_done.
Qed.

Lemma grows_call_index w w' i c :
  grows w w' → calls w !! i = Some c → calls w' !! i = Some c.
Proof. intros [_ [k ->] _]. apply lookup_app_l_Some. Qed.

(** An earlier call stands before index [length (calls w)]. *)
Lemma grows_call_before w w' c :
  grows w w' → c ∈ calls w →
  ∃ j, (j < length (calls w))%nat ∧ calls w' !! j = Some c.
Proof.
  intros Hg [j Hj]%list_elem_of_lookup_1. exists j.
  split; [by eapply lookup_lt_Some|by eapply grows_call_index].
Qed.

Lemma run_ensures {A} Q P (m : prog A) w :
  quiet m → ensures Q P m w →
  (∀ i c, calls (run m w).1 !! i = Some c → (length (calls w) ≤ i)%nat →
          ∃ w0, grows w w0 ∧ grows w0 (run m w).1 ∧ length (calls w0) = i ∧ Q w0 c)
  ∧ match (run m w).2 with
    | Finished o => P (run m w).1 o
    | Blocked on k =>
        ∀ w2 o, grows (run m w).1 w2 →
                (∀ t', on = OnTask t' → task_state w2 t' = Some (Done o)) →
                ensures Q P (k o) w2
    end.
Proof.
  intros Hq. revert w.
  induction Hq as [a|e|X e k He Hk IH|t k Hk IH|c k _ Hk IH]; intros w He'; simpl in *.
  - split; [|done]. intros i c Hi%lookup_lt_Some ?. lia.
  - split; [|done]. intros i c Hi%lookup_lt_Some ?. lia.
  - pose proof (grows_handle_passive e w He) as Hg.
    pose proof (handle_calls e w) as Hc.
    destruct (handle e w) as [w' x]. simpl in *.
    destruct (IH x w' He') as [H1 H2]. split; [|done].
    intros i c Hi Hle. rewrite <- Hc in Hle.
    destruct (H1 i c Hi Hle) as (w0 & ? & ? & ? & ?).
    exists w0. split_and!; try done. by etrans.
  - destruct (task_state w t) as [[| |o]|] eqn:Hs; simpl;
      try (split; [intros i c Hi%lookup_lt_Some ?; lia|];
           intros w2 o Hg Ht; apply He'; [done|by apply Ht]).
    apply IH. by apply He'.
  - destruct He' as [HQ Hk']. split; [|by intros w2 o Hg _; apply Hk'].
    intros i c' Hi Hle.
    assert (i = length (calls w)) as ->.
    { apply lookup_lt_Some in Hi. rewrite length_app in Hi. simpl in Hi. lia. }
    rewrite lookup_snoc_new in Hi. injection Hi as <-.
    exists w. split_and!; [done|apply grows_with_calls|done|done].
Qed.

Lemma history_run_task t tk m w :
  history w → tasks w !! t = Some tk → (∀ o, t_state tk ≠ Done o) →
  quiet m → ensures (call_pre (t_code tk)) (task_post (t_code tk)) m w →
  history (run_task t m w).
Proof.
  intros [Hc Hd Hw] Ht Hnd Hq He. unfold run_task.
  destruct (run_ensures _ _ m w Hq He) as [Hnew Hres].
  pose proof (run_grows m w Hq) as Hg1.
  destruct (run_quiet m w Hq) as [Hf _].
  destruct (run m w) as [w1 r]. simpl in *.
  assert (Hg2 : grows w1 (settle t r w1)).
  { apply grows_settle. rewrite (frame_tasks _ _ Hf). intros tk0 o H.
    rewrite Ht in H. injection H as <-. apply Hnd. }
  assert (Hg : grows w (settle t r w1)) by (by etrans).
  split.
  - intros i call Hi. simpl in Hi.
    destruct (decide (i < length (calls w))%nat) as [Hlt|Hge].
    + destruct (lookup_lt_is_Some_2 _ _ Hlt) as [call' Hi'].
      pose proof (grows_call_index _ _ _ _ Hg1 Hi') as Hi''.
      rewrite Hi in Hi''. injection Hi'' as <-.
      destruct (Hc _ _ Hi') as (w0 & t0 & tk0 & Hg0 & Hl & Ht0 & Hpre).
      destruct (grows_task _ _ _ _ Hg Ht0) as (tk0' & Ht0' & Hcode).
      exists w0, t0, tk0'. rewrite Hcode. split_and!; try done. by etrans.
    + destruct (Hnew i call Hi ltac:(lia)) as (w0 & _ & Hg0 & Hl & Hpre).
      destruct (grows_task _ _ _ _ Hg Ht) as (tk' & Ht' & Hcode).
      exists w0, t, tk'. rewrite Hcode. split_and!; try done. by etrans.
  - intros t' tk' o (tk0 & H1 & ->)%lookup_settle Hs.
    rewrite (frame_tasks _ _ Hf) in H1. case_decide; simplify_eq/=.
    + destruct r; simplify_eq/=. by exists w1.
    + destruct (Hd _ _ _ H1 Hs) as (w0 & Hg0 & Hpost).
      exists w0. split; [by etrans|done].
  - intros t' tk' on k (tk0 & H1 & ->)%lookup_settle Hs w2 o Hw2 Hon.
    rewrite (frame_tasks _ _ Hf) in H1. case_decide; simplify_eq/=.
    + destruct r; simplify_eq/=. apply Hres; [by etrans|done].
    + eapply Hw; [done..| |done]. by etrans.
Qed.

(** Steps that ask nothing of the library and suspend nothing. *)
Lemma history_grow w w' :
  history w → grows w w' → calls w' = calls w →
  (∀ t tk', tasks w' !! t = Some tk' →
     t_state tk' = Ready
     ∨ (∃ o, t_state tk' = Done o ∧ ∃ w0, grows w0 w' ∧ task_post (t_code tk') w0 o)
     ∨ ∃ tk, tasks w !! t = Some tk ∧ t_state tk = t_state tk'
             ∧ t_code tk = t_code tk') →
  history w'.
Proof.
  intros [Hc Hd Hw] Hg Hcalls Hold. split.
  - intros i call Hi. rewrite Hcalls in Hi.
    destruct (Hc _ _ Hi) as (w0 & t0 & tk0 & Hg0 & Hl & Ht0 & Hpre).
    destruct (grows_task _ _ _ _ Hg Ht0) as (tk0' & Ht0' & Hcode).
    exists w0, t0, tk0'. rewrite Hcode. split_and!; try done. by etrans.
  - intros t tk' o Ht Hs.
    destruct (Hold _ _ Ht) as [?|[(o' & Ho & w0 & ? & ?)|(tk & Ht0 & Hs0 & Hc0)]].
    + congruence.
    + exists w0. split; [done|]. congruence.
    + rewrite Hs in Hs0. destruct (Hd _ _ _ Ht0 Hs0) as (w0 & ? & ?).
      exists w0. rewrite <- Hc0. split; [by etrans|done].
  - intros t tk' on k Ht Hs w2 o Hw2 Hon.
    destruct (Hold _ _ Ht) as [?|[(o' & Ho & _)|(tk & Ht0 & Hs0 & Hc0)]];
      [congruence..|].
    rewrite Hs in Hs0. rewrite <- Hc0. eapply Hw; [done..| |done]. by etrans.
Qed.
(** ** What each coroutine asks for and how it ends *)

Lemma in_snoc {A} (l : list A) x : x ∈ l ++ [x].
Proof. apply elem_of_app. right. by apply list_elem_of_singleton. Qed.

Lemma ensures_init_connection cl x w :
  clients w !! cl = Some x →
  ensures (call_pre (CoInitConnection cl)) (task_post (CoInitConnection cl))
    (RemoteAcpClient._init_connection cl) w.
Proof.
  intros Hc. unfold RemoteAcpClient._init_connection. cbn. rewrite Hc. cbn.
  set (w1 := with_calls _ _).
  assert (Hx1 : clients w1 !! cl = Some (Client (c_remote_url x) true (c_conn_future x))).
  { subst w1. simpl. by rewrite list_lookup_alter_eq, Hc. }
  assert (Hin1 : ContextAenter cl (c_remote_url x) ∈ calls w1).
  { subst w1. simpl. apply in_snoc. }
  assert (Hfail : ∀ w2 e, grows w1 w2 →
    ensures (call_pre (CoInitConnection cl)) (task_post (CoInitConnection cl))
      (match except_Exception
               (λ e, Do (Log (LogError (MsgConnectFailed (c_remote_url x) e)))
                        (λ _, Raise e)) e with
       | Some q => q
       | None => Raise e
       end) w2).
  { intros w2 e Hg. unfold except_Exception.
    destruct (isinstance e Exception) eqn:He; cbn; [|congruence].
    intros _. destruct (grows_client _ _ _ _ Hg Hx1) as (x2 & Hx2 & Hu & _).
    exists x2. split; [done|]. simpl in Hu. rewrite <- Hu. apply in_snoc. }
  split.
  - split; [done|]. eexists. split; [by rewrite list_lookup_alter_eq, Hc|].
    split_and!; [done..|]. simpl. apply in_snoc.
  - intros w2 [conn|e] Hg2; cbn; [|by apply Hfail]. split.
    + split; [done|]. exists (c_remote_url x). by eapply grows_call.
    + intros w3 [v|e] Hg3; cbn.
      * destruct (grows_client _ _ _ _ Hg2 Hx1) as (x2 & Hx2 & Hu2 & Hw2).
        destruct (grows_client w2 w3 cl x2) as (x3 & Hx3 & Hu3 & _);
          [by etrans; [apply grows_with_calls|]|done|].
        exists x3. simpl in Hu2. rewrite <- Hu3, <- Hu2. split_and!.
        -- done.
        -- eapply grows_call; [|done]. etrans; [done|].
           etrans; [apply grows_with_calls|done].
        -- eapply grows_call; [done|]. apply in_snoc.
        -- apply in_snoc.
      * apply Hfail. etrans; [done|]. etrans; [apply grows_with_calls|done].
Qed.

Lemma ensures_bind {A B} Q P (m : prog A) (f : A → prog B) w :
  ensures Q (λ w' o, match o with
                     | Ok a => ensures Q P (f a) w'
                     | Err e => P w' (Err e)
                     end) m w →
  ensures Q P (m ≫= f) w.
Proof.
  revert w. induction m as [a|e|X e k IH|[t|c] k IH]; intros w H; simpl in *; auto.
  destruct H as [? H]. split; [done|]. auto.
Qed.

Lemma ensures_try_except {A} Q P (m : prog A) h w :
  ensures Q (λ w' o, match o with
                     | Ok a => P w' (Ok a)
                     | Err e => match h e with
                                | Some q => ensures Q P q w'
                                | None => P w' (Err e)
                                end
                     end) m w →
  ensures Q P (try_except m h) w.
Proof.
  revert w. induction m as [a|e|X e k IH|[t|c] k IH]; intros w H; simpl in *; auto.
  - by destruct (h e).
  - destruct H as [? H]. split; [done|]. auto.
Qed.

(** [close] inside any coroutine that may ask for [__aexit__] from now
    on: it ends normally, or with what is not an [Exception]. *)
Lemma ensures_close Q (P : world → outcome value → Prop) cl x w :
  clients w !! cl = Some x →
  (∀ w', grows w w' → Q w' (ContextAexit cl)) →
  (∀ w', grows w w' → P w' (Ok VNone)) →
  (∀ w' e, grows w w' → isinstance e Exception = false → P w' (Err e)) →
  ensures Q P (RemoteAcpClient.close cl) w.
Proof.
  intros Hc HQ Hok Herr. unfold RemoteAcpClient.close. cbn. rewrite Hc. cbn.
  destruct (c_context x); cbn; [|by apply Hok].
  assert (Hh : ∀ w2 e, grows w w2 →
    ensures Q P
      (match except_Exception
               (λ e, Do (Log (LogError (MsgErrorClosing e))) (λ _, mret VNone)) e with
       | Some q => q
       | None => Raise e
       end) w2).
  { intros w2 e Hg. unfold except_Exception.
    destruct (isinstance e Exception) eqn:He; cbn; [|by apply Herr].
    apply Hok. etrans; [done|apply grows_with_log]. }
  destruct (c_conn_future x) as [fut|]; cbn; [|by apply Hh].
  intros w2 [v|e] Hg2 _; cbn; [|by apply Hh].
  split; [by apply HQ|].
  intros w3 [v'|e'] Hg3; cbn.
  - apply Hok. etrans; [done|]. etrans; [apply grows_with_calls|].
    etrans; [done|apply grows_with_log].
  - apply Hh. etrans; [done|]. etrans; [apply grows_with_calls|done].
Qed.

Lemma ensures_close_task cl w :
  ensures (call_pre (CoClose cl)) (task_post (CoClose cl))
    (RemoteAcpClient.close cl) w.
Proof.
  destruct (clients w !! cl) as [x|] eqn:Hc.
  - eapply ensures_close; simpl; eauto.
  - unfold RemoteAcpClient.close. cbn. rewrite Hc. cbn. by right.
Qed.

Lemma ensures_init_client_session p me t0 w :
  personas w !! p = Some me → classes w !! p_cls me = Some (Some t0) →
  ensures (call_pre (CoInitClientSession p)) (task_post (CoInitClientSession p))
    (RemoteAcpPersona._init_client_session p) w.
Proof.
  intros Hp Hc. unfold RemoteAcpPersona._init_client_session. cbn.
  rewrite Hp. cbn. rewrite Hp. cbn. rewrite (class_getattr_own _ _ _ Hc). cbn.
  intros w2 [client|e] Hg2 Hs2; cbn.
  - pose proof (grows_persona _ _ _ _ Hg2 Hp) as Hp2.
    pose proof (grows_class _ _ _ _ Hg2 Hc) as Hc2.
    split; [split; [done|by exists me, t0]|].
    intros w3 [session|e] Hg3; cbn.
    + assert (CreateSession client p ∈ calls w3) as Hin.
      { eapply grows_call; [done|]. apply in_snoc. }
      destruct session as [| | |sid]; cbn; try (right; by exists client).
      exists me, client, sid. split_and!; [|done|done|apply in_snoc].
      eapply grows_persona; [|done]. etrans; [apply grows_with_calls|done].
    + right. exists client. eapply grows_call; [done|]. apply in_snoc.
  - left. exists me, t0. eauto using grows_persona, grows_class.
Qed.

Lemma ensures_process_message p body w :
  wf w →
  ensures (call_pre (CoProcessMessage p body)) (task_post (CoProcessMessage p body))
    (RemoteAcpPersona.process_message p body) w.
Proof.
  intros Hwf. unfold RemoteAcpPersona.process_message, RemoteAcpPersona.get_client,
    RemoteAcpPersona.get_session_id. cbn.
  destruct (personas w !! p) as [me|] eqn:Hp; cbn; [|done].
  destruct (wf_persona _ Hwf _ _ Hp) as ([t0 Hc] & _ & s & _ & Hs & _).
  rewrite (class_getattr_own _ _ _ Hc). cbn.
  intros w2 [client|e] Hg2 Hs2; cbn; [|done].
  rewrite (grows_persona _ _ _ _ Hg2 Hp). cbn. rewrite Hs. cbn.
  intros w3 [session|e] Hg3 Hs3; cbn; [|done].
  destruct session as [| | |sid]; cbn; try done.
  assert (Hg : grows w w3) by (by etrans).
  rewrite (grows_persona _ _ _ _ Hg Hp). cbn.
  pose proof (grows_persona _ _ _ _ Hg Hp) as Hp3.
  split.
  - split_and!.
    + exists me, t0. split_and!;
        [done|by apply (grows_class w w3)|by apply (grows_done w2 w3)].
    + by exists me, s.
    + by exists me.
  - intros w4 [v|e] Hg4; cbn; [|done]. split; [done|].
    exists me, client, sid. split.
    + eapply grows_persona; [|done]. etrans; [apply grows_with_calls|done].
    + eapply grows_call; [done|]. apply in_snoc.
Qed.

Lemma ensures_shutdown p w :
  wf w →
  ensures (call_pre (CoShutdown p)) (task_post (CoShutdown p))
    (RemoteAcpPersona._shutdown p) w.
Proof.
  intros Hwf. unfold RemoteAcpPersona._shutdown, RemoteAcpPersona.get_client. cbn.
  destruct (personas w !! p) as [me|] eqn:Hp; cbn; [|done].
  rewrite Hp. cbn.
  destruct (wf_persona _ Hwf _ _ Hp) as ([t0 Hc] & _).
  set (w1 := with_log _ w).
  rewrite (class_getattr_own w1 _ _ Hc). cbn.
  assert (Hg1 : grows w w1) by apply grows_with_log.
  assert (Hl1 : LogInfo (MsgClosingClient (p_cls me)) ∈ log w1) by apply in_snoc.
  intros w2 [client|e] Hg2 Hs2; cbn; [|done].
  assert (Hcl2 : client_of w2 p client).
  { exists me, t0. split_and!; [|by apply (grows_class w w2); [etrans|]|done].
    apply (grows_persona w w2); [by etrans|done]. }
  split; [done|].
  intros w3 [conn|e] Hg3; cbn; [|done].
  assert (Hg23 : grows w2 w3) by (etrans; [apply grows_with_calls|done]).
  assert (Hin3 : GetConnection client ∈ calls w3).
  { apply (grows_call _ _ _ Hg3), in_snoc. }
  split; [exists client; eauto using grows_client_of|].
  intros w4 [v|e] Hg4; cbn; [|done].
  assert (Hin4 : ConnClose conn ∈ calls w4).
  { apply (grows_call _ _ _ Hg4), in_snoc. }
  assert (Hg34 : grows w3 w4) by (etrans; [apply grows_with_calls|done]).
  assert (Hg14 : grows w1 w4) by (etrans; [done|by etrans]).
  assert (Hend : ∀ w5, grows w4 w5 →
    ensures (call_pre (CoShutdown p)) (task_post (CoShutdown p))
      (Do (Log (LogInfo (MsgCompletedClosing (p_cls me)))) (λ _, mret VNone)) w5).
  { intros w5 Hg5. cbn. split; [done|]. exists me, conn. split_and!.
    - eapply grows_persona; [|done]. etrans; [done|]. by etrans.
    - by eapply grows_call.
    - apply elem_of_app. left. eapply grows_logged; [|done]. by etrans.
    - apply in_snoc. }
  apply ensures_bind.
  destruct client as [|cl| |]; cbn; try (by apply Hend).
  destruct (clients w4 !! cl) as [x|] eqn:Hx; cbn; [|done].
  destruct (c_context x); cbn; [|by apply Hend].
  apply ensures_try_except, ensures_bind.
  apply (ensures_close _ _ cl x); [done|..].
  - intros w5 Hg5. split.
    + eapply grows_client_of; [|done]. etrans; [done|]. by etrans.
    + exists conn. by eapply grows_call.
  - intros w5 Hg5. cbn. by apply Hend.
  - intros w5 e Hg5 He. unfold except_Exception. by rewrite He.
Qed.

Lemma ensures_body t c w :
  wf w → tasks w !! t = Some (Task c Ready) → (∀ p, c ≠ CoInitClient p) →
  ensures (call_pre c) (task_post c) (body c) w.
Proof.
  intros Hwf Ht Hc. destruct c as [p|p|cl|p|p b|cl]; simpl.
  - by destruct (Hc p).
  - destruct (wf_session_task _ Hwf _ _ _ Ht eq_refl) as (me & Hp & _).
    destruct (wf_persona _ Hwf _ _ Hp) as ([t0 Hcls] & _).
    by eapply ensures_init_client_session.
  - destruct (wf_conn_task _ Hwf _ _ _ Ht eq_refl) as (x & Hx & _).
    by eapply ensures_init_connection.
  - by apply ensures_shutdown.
  - by apply ensures_process_message.
  - apply ensures_close_task.
Qed.

Lemma run_prefix {A} (m : prog A) w :
  calls w `prefix_of` calls (run m w).1 ∧ log w `prefix_of` log (run m w).1.
Proof.
  revert w. induction m as [a|e|X e k IH|[t|c] k IH]; intros w; simpl; try done.
  - assert (calls w `prefix_of` calls (handle e w).1
            ∧ log w `prefix_of` log (handle e w).1) as [H1 H2].
    { rewrite handle_calls. split; [done|]. destruct e; simpl; try done.
      by apply prefix_app_r. }
    destruct (handle e w) as [w' x]. simpl in *.
    destruct (IH x w') as [H3 H4]. split; by etrans.
  - by destruct (task_state w t) as [[| |o]|].
  - split; [by apply prefix_app_r|done].
Qed.

Lemma step_prefix a w :
  calls w `prefix_of` calls (step a w) ∧ log w `prefix_of` log (step a w).
Proof.
  assert (Hrt : ∀ t (m : prog value),
    calls w `prefix_of` calls (run_task t m w)
    ∧ log w `prefix_of` log (run_task t m w)).
  { intros t m. unfold run_task. pose proof (run_prefix m w) as H.
    by destruct (run m w). }
  destruct a as [cls m url|cls m|p|p b|cl|t|t o]; simpl;
    try apply run_prefix; try done.
  - unfold sched. destruct (tasks w !! t) as [[c [|[t'|]|]]|]; try done.
    destruct (task_state w t') as [[| |o]|]; done.
  - unfold deliver. by destruct (tasks w !! t) as [[c [|[|]|]]|].
Qed.

Lemma grows_step a w : wf w → grows w (step a w).
Proof.
  intros Hwf. split; [by apply extends_step|apply step_prefix..].
Qed.

Lemma grows_exec acts w : wf w → grows w (exec acts w).
Proof.
  revert w. induction acts as [|a acts IH]; intros w Hwf; [done|].
  simpl. etrans; [by apply grows_step|]. by apply IH, wf_step.
Qed.

(** New tasks that have not run change nothing of the history. *)
Lemma history_app w w' ts :
  history w → grows w w' → calls w' = calls w → tasks w' = tasks w ++ ts →
  Forall (λ tk, t_state tk = Ready) ts →
  history w'.
Proof.
  intros Hh Hg Hc Ht Hts. eapply history_grow; [done..|].
  intros t tk' Htk. rewrite Ht in Htk.
  apply lookup_app_Some in Htk as [Htk|[_ Htk]].
  - right. right. by exists tk'.
  - left. rewrite Forall_forall in Hts. by eapply Hts, list_elem_of_lookup_2.
Qed.

Lemma constructed_tasks cls m url w :
  calls (constructed cls m url w) = calls w
  ∧ ∃ ts, tasks (constructed cls m url w) = tasks w ++ ts
          ∧ Forall (λ tk, t_state tk = Ready) ts.
Proof.
  unfold constructed. destruct (classes w !! cls) as [[]|]; simpl;
    (split; [done|]); eexists; (split; [done|]); by repeat constructor.
Qed.

Lemma history_constructed cls m url w :
  wf w → history w → history (step (Construct cls m url) w).
Proof.
  intros Hwf Hh. pose proof (grows_step (Construct cls m url) w Hwf) as Hg.
  simpl in *. unfold call in *. rewrite run_persona_init in *. simpl in *.
  destruct (constructed_tasks cls m url w) as (Hc & ts & Ht & Hts).
  by eapply history_app.
Qed.

Lemma history_spawn c w : wf w → history w → history (spawn c w).
Proof.
  intros Hwf Hh. eapply (history_app _ _ [Task c Ready]); [done| |done|done|].
  - apply (grows_step (CallClose 0) w) in Hwf as [He Hc Hl].
    split; [|done..]. eapply extends_app; simpl; [done|by rewrite app_nil_r..|done].
  - by repeat constructor.
Qed.

Lemma history_run_init_client t p w :
  wf w → history w → tasks w !! t = Some (Task (CoInitClient p) Ready) →
  history (sched t w).
Proof.
  intros Hwf Hh Ht.
  pose proof (grows_step (Sched t) w Hwf) as Hg. simpl in Hg.
  rewrite (sched_ready _ _ _ Ht) in *. revert Hg. unfold run_task.
  change (body (CoInitClient p)) with (RemoteAcpPersona._init_client p).
  destruct (wf_init_client _ Hwf _ _ _ Ht eq_refl) as (me & url & Hp & Hu & _ & _).
  destruct (valid_url url) eqn:Hv.
  - rewrite (run_init_client_valid _ _ _ _ Hp Hu Hv). intros Hg.
    set (w1 := with_log _ _) in *.
    eapply history_grow; [done..|].
    intros t' tk' (tk0 & H1 & ->)%lookup_settle. case_decide; simplify_eq/=.
    + right. left. eexists. split; [done|]. exists w1. split.
      * apply grows_settle. intros tk o Htk. subst w1. simpl in Htk.
        apply lookup_snoc_Some in Htk as [[_ Htk]|[Hl _]].
        -- rewrite Ht in Htk. by simplify_eq.
        -- apply lookup_lt_Some in Ht. lia.
      * assert (t_code tk0 = CoInitClient p) as ->.
        { apply lookup_snoc_Some in H1 as [[_ H1]|[Hl _]].
          - rewrite Ht in H1. by simplify_eq.
          - apply lookup_lt_Some in Ht. lia. }
        simpl. exists me, url, (length (clients w)).
        split_and!; [done..|]. subst w1. simpl. apply in_snoc.
    + apply lookup_snoc_Some in H1 as [[_ H1]|[_ <-]]; [|by left].
      right. right. by exists tk0.
  - destruct (run_init_client_invalid _ _ _ w Hp Hu Hv) as [msg ->]. intros Hg.
    eapply history_grow; [done..|].
    intros t' tk' (tk0 & H1 & ->)%lookup_settle. case_decide; simplify_eq/=.
    + right. left. eexists. split; [done|]. exists w. split; [done|]. by exists msg.
    + right. right. by exists tk0.
Qed.

Lemma history_step a w : wf w → history w → history (step a w).
Proof.
  intros Hwf Hh. destruct a as [cls m url|cls m|p|p b|cl|t|t o].
  - by apply history_constructed.
  - simpl. unfold call. rewrite run_example_init.
    by apply (history_constructed cls m _ w).
  - by apply (history_spawn (CoShutdown p)).
  - by apply history_spawn.
  - by apply history_spawn.
  - simpl. unfold sched.
    destruct (tasks w !! t) as [[c [|[t'|]|]]|] eqn:Ht; try done.
    + assert ((∃ p, c = CoInitClient p) ∨ ∀ p, c ≠ CoInitClient p) as [[p ->]|Hc]
        by (destruct c; eauto).
      * pose proof (history_run_init_client t p w Hwf Hh Ht) as H.
        by rewrite (sched_ready _ _ _ Ht) in H.
      * eapply history_run_task; [done|done|done|by apply quiet_body|].
        by eapply ensures_body.
    + destruct (task_state w t') as [[| |o]|] eqn:Hs; try done.
      eapply history_run_task; [done|done|done|by eapply (wf_quiet _ Hwf)|].
      eapply (hist_waiting _ Hh); [done..|reflexivity|]. by intros ? [= <-].
  - simpl. unfold deliver.
    destruct (tasks w !! t) as [[c [|[|]|]]|] eqn:Ht; try done.
    eapply history_run_task; [done|done|done|by eapply (wf_quiet _ Hwf)|].
    eapply (hist_waiting _ Hh); [done..|reflexivity|done].
Qed.

Lemma history_reachable w : reachable w → history w.
Proof.
  intros (mro & env & decl & acts & ->).
  assert (history (start mro env decl)) as H0 by (by split).
  pose proof (wf_start mro env decl) as Hwf.
  revert H0 Hwf. generalize (start mro env decl).
  induction acts as [|a acts IH]; intros w H0 Hwf; [done|].
  simpl. apply IH; [by apply history_step|by apply wf_step].
Qed.
(** ** Who built a client, and from which endpoint *)

Lemma owned_keep w w' :
  owned w → extends w w' → length (clients w') = length (clients w) → owned w'.
Proof.
  intros Ho He Hl cl x' Hx'.
  destruct (lookup_lt_is_Some_2 (clients w) cl) as [x Hx].
  { rewrite <- Hl. by eapply lookup_lt_Some. }
  destruct (Ho _ _ Hx) as (t & tk & p & Ht & Hc & Hs).
  destruct (ext_tasks _ _ He _ _ Ht) as (tk' & Ht' & Hc' & Hd).
  exists t, tk', p. split_and!; [done|congruence|by apply Hd].
Qed.

Lemma run_task_quiet_static t m w :
  quiet m →
  classes (run_task t m w) = classes w ∧ personas (run_task t m w) = personas w
  ∧ length (clients (run_task t m w)) = length (clients w).
Proof.
  intros Hq. unfold run_task. destruct (run_quiet m w Hq) as [[_ _ Hc Hp _ Hcl] _].
  destruct (run m w) as [w1 r]. simpl in *. split_and!; [done..|].
  symmetry. by eapply Forall2_length.
Qed.

Lemma owned_step a w : wf w → owned w → owned (step a w).
Proof.
  intros Hwf Ho. pose proof (extends_step a w Hwf) as He.
  destruct a as [cls m url|cls m|p|p b|cl|t|t o]; simpl in *.
  - eapply owned_keep; [done..|]. unfold call. rewrite run_persona_init.
    unfold constructed. by destruct (classes w !! cls) as [[]|].
  - eapply owned_keep; [done..|]. unfold call.
    rewrite run_example_init, run_persona_init.
    unfold constructed. by destruct (classes w !! cls) as [[]|].
  - by eapply owned_keep.
  - by eapply owned_keep.
  - by eapply owned_keep.
  - revert He. unfold sched.
    destruct (tasks w !! t) as [[c [|[t'|]|]]|] eqn:Ht; try done.
    + assert ((∃ p, c = CoInitClient p) ∨ ∀ p, c ≠ CoInitClient p) as [[p ->]|Hc]
        by (destruct c; eauto).
      * unfold run_task.
        change (body (CoInitClient p)) with (RemoteAcpPersona._init_client p).
        destruct (wf_init_client _ Hwf _ _ _ Ht eq_refl) as (me & url & Hp & Hu & _ & _).
        destruct (valid_url url) eqn:Hv.
        -- rewrite (run_init_client_valid _ _ _ _ Hp Hu Hv). intros He cl x Hx.
           simpl in Hx. apply lookup_snoc_Some in Hx as [[Hl Hx]|[-> _]].
           ++ destruct (Ho _ _ Hx) as (t0 & tk0 & p0 & Ht0 & Hc0 & Hs0).
              destruct (ext_tasks _ _ He _ _ Ht0) as (tk' & Ht' & Hc' & Hd).
              exists t0, tk', p0. split_and!; [done|congruence|by apply Hd].
           ++ exists t, (Task (CoInitClient p) (Done (Ok (VClient (length (clients w)))))), p.
              split_and!; [|done..]. apply lookup_settle.
              exists (Task (CoInitClient p) Ready). rewrite decide_True by done.
              split; [|done]. simpl. by apply lookup_app_l_Some.
        -- destruct (run_init_client_invalid _ _ _ w Hp Hu Hv) as [msg ->].
           intros He. by eapply owned_keep.
      * intros He. eapply owned_keep; [done..|]. by apply run_task_quiet_static, quiet_body.
    + destruct (task_state w t') as [[| |o]|]; try done.
      intros He. eapply owned_keep; [done..|].
      by eapply run_task_quiet_static, (wf_quiet _ Hwf).
  - revert He. unfold deliver.
    destruct (tasks w !! t) as [[c [|[|]|]]|] eqn:Ht; try done.
    intros He. eapply owned_keep; [done..|].
    by eapply run_task_quiet_static, (wf_quiet _ Hwf).
Qed.

Lemma owned_reachable w : reachable w → owned w.
Proof.
  intros (mro & env & decl & acts & ->).
  assert (owned (start mro env decl)) as H0 by (by intros ???).
  pose proof (wf_start mro env decl) as Hwf.
  revert H0 Hwf. generalize (start mro env decl).
  induction acts as [|a acts IH]; intros w H0 Hwf; [done|].
  simpl. apply IH; [by apply owned_step|by apply wf_step].
Qed.

(** A client, the task that built it, the instance that started the task
    and its endpoint. *)
Lemma client_origin w cl x :
  wf w → owned w → clients w !! cl = Some x →
  ∃ t tk p me,
    tasks w !! t = Some tk ∧ t_code tk = CoInitClient p
    ∧ t_state tk = Done (Ok (VClient cl))
    ∧ personas w !! p = Some me ∧ classes w !! p_cls me = Some (Some t)
    ∧ p_remote_url me = Some (c_remote_url x)
    ∧ valid_url (c_remote_url x) = true.
Proof.
  intros Hwf Ho Hx. destruct (Ho _ _ Hx) as (t & tk & p & Ht & Hc & Hs).
  destruct (wf_init_client _ Hwf _ _ _ Ht Hc) as (me & url & Hp & Hu & Hcls & Hok).
  rewrite Hs in Hok. destruct Hok as (Hv & cl' & x' & [= <-] & Hx' & <-).
  rewrite Hx in Hx'. injection Hx' as <-.
  exists t, tk, p, me. by split_and!.
Qed.

Lemma founder_keep w w' :
  wf w → founder_first w → extends w w' →
  classes w' = classes w → personas w' = personas w → founder_first w'.
Proof.
  intros Hwf Hf He Hc Hp c t p0 p me Hcls Ht Hpm Hcm.
  rewrite Hc in Hcls. rewrite Hp in Hpm.
  destruct (wf_class_future _ Hwf _ _ Hcls) as (q & mq & tk & Htk & Hcode & _).
  destruct (ext_tasks _ _ He _ _ Htk) as (tk' & Htk' & Hcode' & _).
  rewrite Htk' in Ht. simpl in Ht. rewrite Hcode', Hcode in Ht. injection Ht as <-.
  eapply Hf; [done| |done..]. by rewrite Htk, <- Hcode.
Qed.

Lemma founder_constructed cls m url w :
  wf w → founder_first w → founder_first (constructed cls m url w).
Proof.
  intros Hwf Hf c t p0 p me Hcls Ht Hpm Hcm.
  assert (Hold : ∀ t, classes w !! c = Some (Some t) →
            t_code <$> (tasks (constructed cls m url w)) !! t = Some (CoInitClient p0) →
            personas (constructed cls m url w) !! p = Some me → (p0 ≤ p)%nat).
  { clear Hcls Ht Hpm. intros t0 Hcls Ht Hpm.
    destruct (wf_class_future _ Hwf _ _ Hcls) as (q & mq & tk & Htk & Hcode & Hq & _).
    destruct (ext_tasks _ _ (extends_constructed cls m url w) _ _ Htk)
      as (tk' & Htk' & Hcode' & _).
    rewrite Htk' in Ht. simpl in Ht. rewrite Hcode', Hcode in Ht. injection Ht as <-.
    assert (personas w !! p = Some me ∨ p = length (personas w)) as [Hp| ->].
    { revert Hpm. unfold constructed. destruct (classes w !! cls) as [[]|]; simpl;
        intros [[_ ?]|[? _]]%lookup_snoc_Some; auto. }
    - eapply Hf; [done| |done..]. by rewrite Htk, <- Hcode.
    - apply lookup_lt_Some in Hq. lia. }
  destruct (classes w !! cls) as [[t1|]|] eqn:E.
  - apply (Hold t); [|done..]. revert Hcls. unfold constructed. by rewrite E.
  - destruct (decide (c = cls)) as [->|Hne].
    + assert (t = length (tasks w)) as ->.
      { revert Hcls. unfold constructed. rewrite E. simpl.
        rewrite lookup_insert_eq. by intros [= <-]. }
      revert Ht Hpm. unfold constructed. rewrite E. simpl.
      rewrite lookup_app_length. simpl. intros [= <-].
      intros [[_ Hp]|[-> _]]%lookup_snoc_Some; [|done].
      destruct (wf_persona _ Hwf _ _ Hp) as ([t2 Ht2] & _). congruence.
    + apply (Hold t); [|done..]. revert Hcls. unfold constructed. rewrite E. simpl.
      by rewrite lookup_insert_ne.
  - destruct (decide (c = cls)) as [->|Hne].
    + assert (t = length (tasks w)) as ->.
      { revert Hcls. unfold constructed. rewrite E. simpl.
        rewrite lookup_insert_eq. by intros [= <-]. }
      revert Ht Hpm. unfold constructed. rewrite E. simpl.
      rewrite lookup_app_length. simpl. intros [= <-].
      intros [[_ Hp]|[-> _]]%lookup_snoc_Some; [|done].
      destruct (wf_persona _ Hwf _ _ Hp) as ([t2 Ht2] & _). congruence.
    + apply (Hold t); [|done..]. revert Hcls. unfold constructed. rewrite E. simpl.
      by rewrite lookup_insert_ne.
Qed.

Lemma founder_step a w : wf w → founder_first w → founder_first (step a w).
Proof.
  intros Hwf Hf. pose proof (extends_step a w Hwf) as He.
  destruct a as [cls m url|cls m|p|p b|cl|t|t o]; simpl in *.
  - unfold call. rewrite run_persona_init. by apply founder_constructed.
  - unfold call. rewrite run_example_init, run_persona_init.
    by apply founder_constructed.
  - by eapply founder_keep.
  - by eapply founder_keep.
  - by eapply founder_keep.
  - revert He. unfold sched.
    destruct (tasks w !! t) as [[c [|[t'|]|]]|] eqn:Ht; try done.
    + assert ((∃ p, c = CoInitClient p) ∨ ∀ p, c ≠ CoInitClient p) as [[p ->]|Hc]
        by (destruct c; eauto).
      * unfold run_task.
        change (body (CoInitClient p)) with (RemoteAcpPersona._init_client p).
        destruct (wf_init_client _ Hwf _ _ _ Ht eq_refl) as (me & url & Hp & Hu & _ & _).
        destruct (valid_url url) eqn:Hv.
        -- rewrite (run_init_client_valid _ _ _ _ Hp Hu Hv).
           intros He. by eapply founder_keep.
        -- destruct (run_init_client_invalid _ _ _ w Hp Hu Hv) as [msg ->].
           intros He. by eapply founder_keep.
      * intros He. destruct (run_task_quiet_static t (body c) w) as (? & ? & _);
          [by apply quiet_body|]. by eapply founder_keep.
    + destruct (task_state w t') as [[| |o]|]; try done.
      intros He. destruct (run_task_quiet_static t (k o) w) as (? & ? & _);
        [by eapply (wf_quiet _ Hwf)|]. by eapply founder_keep.
  - revert He. unfold deliver.
    destruct (tasks w !! t) as [[c [|[|]|]]|] eqn:Ht; try done.
    intros He. destruct (run_task_quiet_static t (k o) w) as (? & ? & _);
      [by eapply (wf_quiet _ Hwf)|]. by eapply founder_keep.
Qed.

Lemma founder_reachable w : reachable w → founder_first w.
Proof.
  intros (mro & env & decl & acts & ->).
  assert (founder_first (start mro env decl)) as H0 by (by intros ?????).
  pose proof (wf_start mro env decl) as Hwf.
  revert H0 Hwf. generalize (start mro env decl).
  induction acts as [|a acts IH]; intros w H0 Hwf; [done|].
  simpl. apply IH; [by apply founder_step|by apply wf_step].
Qed.
(** ** Helpers for the further properties *)

Lemma hist_call_of w call :
  reachable w → call ∈ calls w →
  ∃ i w0 t tk, calls w !! i = Some call ∧ grows w0 w ∧ length (calls w0) = i
               ∧ tasks w !! t = Some tk ∧ call_pre (t_code tk) w0 call.
Proof.
  intros Hw [i Hi]%list_elem_of_lookup_1.
  destruct (hist_calls _ (history_reachable w Hw) _ _ Hi)
    as (w0 & t & tk & ? & ? & ? & ?).
  exists i, w0, t, tk. by split_and!.
Qed.

(** The first instance of a class with an endpoint that is not valid:
    the constructor returns as for any other endpoint, and the error is the
    outcome of the client future once its task has had a turn. *)
Lemma construct_invalid_endpoint w cls mention url :
  valid_url url = false → (∀ t, classes w !! cls ≠ Some (Some t)) →
  let p := length (personas w) in
  let t := length (tasks w) in
  let w1 := step (Construct cls mention url) w in
  let w2 := step (Sched t) w1 in
  run (RemoteAcpPersona.__init__ cls mention url) w = (w1, Finished (Ok p))
  ∧ calls w1 = calls w ∧ log w1 = log w
  ∧ personas w2 !! p = Some (Persona cls mention (Some url) (Some (S t)))
  ∧ clients w2 = clients w ∧ calls w2 = calls w ∧ log w2 = log w
  ∧ ∃ msg, task_state w2 t = Some (Done (Err (Exn ValueError msg)))
           ∧ run (RemoteAcpPersona.get_client p) w2
             = (w2, Finished (Err (Exn ValueError msg))).
Proof.
  intros Hv Hfresh p t w1 w2.
  assert (E1 : w1 = constructed cls mention url w).
  { subst w1. simpl. unfold call. by rewrite run_persona_init. }
  assert (Hp1 : personas w1 !! p = Some (Persona cls mention (Some url) (Some (S t)))).
  { rewrite E1, (constructed_fresh _ _ _ _ Hfresh). simpl. apply lookup_snoc_new. }
  assert (Ht1 : tasks w1 !! t = Some (Task (CoInitClient p) Ready)).
  { rewrite E1, (constructed_fresh _ _ _ _ Hfresh). simpl. apply lookup_app_length. }
  destruct (run_init_client_invalid p _ url w1 Hp1 eq_refl Hv) as [msg Hrun].
  assert (E2 : w2 = settle t (Finished (Err (Exn ValueError msg))) w1).
  { subst w2. simpl. rewrite (sched_ready _ _ _ Ht1). unfold run_task.
    change (body (CoInitClient p)) with (RemoteAcpPersona._init_client p).
    by rewrite Hrun. }
  assert (Hs2 : task_state w2 t = Some (Done (Err (Exn ValueError msg)))).
  { unfold task_state. rewrite E2.
    assert (tasks (settle t (Finished (Err (Exn ValueError msg))) w1) !! t
            = Some (Task (CoInitClient p) (Done (Err (Exn ValueError msg))))) as ->;
      [|done].
    apply lookup_settle. eexists. split; [done|]. by rewrite decide_True. }
  split_and!.
  - by rewrite run_persona_init, E1.
  - rewrite E1. unfold constructed. by destruct (classes w !! cls) as [[]|].
  - rewrite E1. unfold constructed. by destruct (classes w !! cls) as [[]|].
  - by rewrite E2.
  - rewrite E2, E1. unfold constructed. by destruct (classes w !! cls) as [[]|].
  - rewrite E2, E1. unfold constructed. by destruct (classes w !! cls) as [[]|].
  - rewrite E2, E1. unfold constructed. by destruct (classes w !! cls) as [[]|].
  - exists msg. split; [done|].
    assert (Hp2 : personas w2 !! p = Some (Persona cls mention (Some url) (Some (S t))))
      by (by rewrite E2).
    rewrite (run_get_client p _ t w2 Hp2), run_await_task, Hs2; [done|].
    apply class_getattr_own. rewrite E2, E1, (constructed_fresh _ _ _ _ Hfresh).
    simpl. apply lookup_insert_eq.
Qed.

(** ** What a finished future says about the library operations *)

Lemma ncalls_one P w c :
  (ncalls P w ≤ 1)%nat → c ∈ calls w → P c = true → ncalls P w = 1%nat.
Proof.
  unfold ncalls. intros Hle Hin Hc.
  assert (c ∈ List.filter P (calls w)) as Hf.
  { apply list_elem_of_In, filter_In. split; [by apply list_elem_of_In|done]. }
  destruct (List.filter P (calls w)) as [|a [|b l]]; simpl in *; [|done|lia].
  by apply elem_of_nil in Hf.
Qed.

Lemma connection_done_calls w cl x fut conn :
  reachable w → clients w !! cl = Some x → c_conn_future x = Some fut →
  task_state w fut = Some (Done (Ok conn)) →
  ContextAenter cl (c_remote_url x) ∈ calls w ∧ ConnInitialize cl conn ∈ calls w.
Proof.
  intros Hw Hx Hf Hs. pose proof (wf_reachable w Hw) as Hwf.
  destruct (wf_client _ Hwf _ _ Hx) as (t & tk & Hf' & Ht & Hcode).
  rewrite Hf in Hf'. injection Hf' as <-.
  unfold task_state in Hs. rewrite Ht in Hs. injection Hs as Hs.
  destruct (hist_done _ (history_reachable w Hw) _ _ _ Ht Hs) as (w0 & Hg & Hpost).
  rewrite Hcode in Hpost. destruct Hpost as (x0 & Hx0 & H1 & H2 & _).
  destruct (grows_client _ _ _ _ Hg Hx0) as (x' & Hx' & Hu & _).
  rewrite Hx in Hx'. injection Hx' as <-. rewrite Hu in H1.
  split; by apply (grows_call w0 w).
Qed.

Lemma session_done_calls w p me s v :
  reachable w → personas w !! p = Some me → p_session_future me = Some s →
  task_state w s = Some (Done (Ok v)) →
  ∃ sid client, v = VSession sid ∧ CreateSession client p ∈ calls w.
Proof.
  intros Hw Hp Hf Hs. pose proof (wf_reachable w Hw) as Hwf.
  destruct (wf_persona _ Hwf _ _ Hp) as (_ & _ & s' & tk & Hf' & Ht & Hcode).
  rewrite Hf in Hf'. injection Hf' as <-.
  unfold task_state in Hs. rewrite Ht in Hs. injection Hs as Hs.
  destruct (hist_done _ (history_reachable w Hw) _ _ _ Ht Hs) as (w0 & Hg & Hpost).
  rewrite Hcode in Hpost. destruct Hpost as (me0 & client & sid & _ & -> & Hin & _).
  exists sid, client. split; [done|]. by apply (grows_call w0 w).
Qed.

(** ** A started connection task has opened its transport *)

Lemma opened_inv_run_task t m w :
  quiet m → opened_inv w →
  (∀ tk cl, tasks w !! t = Some tk → t_state tk = Ready →
     t_code tk = CoInitConnection cl →
     ∃ url, ContextAenter cl url ∈ calls (run m w).1) →
  opened_inv (run_task t m w).
Proof.
  intros Hq Hinv Hstart. unfold run_task.
  destruct (run_quiet m w Hq) as [Hf _].
  pose proof (run_grows m w Hq) as Hg.
  destruct (run m w) as [w1 r]. simpl in *.
  intros t0 tk' cl (tk & H1 & ->)%lookup_settle Hcode.
  rewrite (frame_tasks _ _ Hf) in H1.
  assert (Hold : t_state tk = Ready ∨ ∃ url, ContextAenter cl url ∈ calls w1).
  { destruct (Hinv t0 tk cl H1) as [?|[url ?]].
    - by case_decide; simplify_eq/=.
    - by left.
    - right. exists url. by apply (grows_call w w1). }
  case_decide; simplify_eq/=; [|done].
  right. destruct Hold as [Hr|?]; [|done]. by eapply Hstart.
Qed.

Lemma opened_inv_app w w' ts :
  opened_inv w → tasks w' = tasks w ++ ts →
  Forall (λ tk, t_state tk = Ready) ts → calls w' = calls w →
  opened_inv w'.
Proof.
  intros Hinv Et Hts Ec t tk cl Ht Hcode. rewrite Ec.
  rewrite Et in Ht. apply lookup_app_Some in Ht as [Ht|[_ Ht]].
  - by eapply Hinv.
  - left. rewrite Forall_forall in Hts. by eapply Hts, list_elem_of_lookup_2.
Qed.

Lemma opened_inv_settle t r w :
  opened_inv w →
  (∀ tk cl, tasks w !! t = Some tk → t_code tk ≠ CoInitConnection cl) →
  opened_inv (settle t r w).
Proof.
  intros Hinv Ht t0 tk' cl (tk & H1 & ->)%lookup_settle Hcode.
  case_decide; simplify_eq/=; [by destruct (Ht _ cl H1)|]. by eapply Hinv.
Qed.

Lemma opened_inv_step a w : wf w → opened_inv w → opened_inv (step a w).
Proof.
  intros Hwf Hinv. destruct a as [cls m url|cls m|p|p b|cl|t|t o]; simpl.
  - unfold call. rewrite run_persona_init.
    destruct (constructed_tasks cls m url w) as (Hc & ts & Ht & Hts).
    by eapply opened_inv_app.
  - unfold call. rewrite run_example_init, run_persona_init.
    destruct (constructed_tasks cls m
                (default (str "ws://localhost:8080/ws") (environ w !! "ACP_SERVER_URL")) w)
      as (Hc & ts & Ht & Hts).
    by eapply opened_inv_app.
  - eapply opened_inv_app; simpl; [done|done| |done]. by repeat constructor.
  - eapply opened_inv_app; simpl; [done|done| |done]. by repeat constructor.
  - eapply opened_inv_app; simpl; [done|done| |done]. by repeat constructor.
  - unfold sched. destruct (tasks w !! t) as [[c [|[t'|]|]]|] eqn:Ht; try done.
    + assert ((∃ p, c = CoInitClient p) ∨ ∀ p, c ≠ CoInitClient p) as [[p ->]|Hc]
        by (destruct c; eauto).
      * unfold run_task.
        change (body (CoInitClient p)) with (RemoteAcpPersona._init_client p).
        destruct (wf_init_client _ Hwf _ _ _ Ht eq_refl) as (me & url & Hp & Hu & _ & _).
        destruct (valid_url url) eqn:Hv.
        -- rewrite (run_init_client_valid _ _ _ _ Hp Hu Hv).
           apply opened_inv_settle.
           ++ eapply opened_inv_app; simpl; [done|done| |done].
              by repeat constructor.
           ++ simpl. intros tk cl Htk.
              apply lookup_snoc_Some in Htk as [[_ Htk]|[Hl _]].
              ** rewrite Ht in Htk. by simplify_eq.
              ** apply lookup_lt_Some in Ht. lia.
        -- destruct (run_init_client_invalid _ _ _ w Hp Hu Hv) as [msg ->].
           apply opened_inv_settle; [done|]. intros tk cl Htk.
           rewrite Ht in Htk. by simplify_eq.
      * apply opened_inv_run_task; [by apply quiet_body|done|].
        intros tk cl Htk _ Hcode. rewrite Ht in Htk. injection Htk as <-.
        simpl in Hcode. subst c.
        destruct (wf_conn_task _ Hwf _ _ _ Ht eq_refl) as (c0 & Hc0 & _).
        change (body (CoInitConnection cl)) with (RemoteAcpClient._init_connection cl).
        destruct (run_init_connection cl c0 w Hc0) as [k ->]. simpl.
        exists (c_remote_url c0). apply in_snoc.
    + destruct (task_state w t') as [[| |o]|]; try done.
      apply opened_inv_run_task; [by eapply (wf_quiet _ Hwf)|done|].
      intros tk cl Htk Hs. by simplify_eq/=.
  - unfold deliver. destruct (tasks w !! t) as [[c [|[|]|]]|] eqn:Ht; try done.
    apply opened_inv_run_task; [by eapply (wf_quiet _ Hwf)|done|].
    intros tk cl Htk Hs. by simplify_eq/=.
Qed.

Lemma opened_inv_reachable w : reachable w → opened_inv w.
Proof.
  intros (mro & env & decl & acts & ->).
  assert (opened_inv (start mro env decl)) as H0 by (by intros ????).
  pose proof (wf_start mro env decl) as Hwf.
  revert H0 Hwf. generalize (start mro env decl).
  induction acts as [|a acts IH]; intros w H0 Hwf; [done|].
  simpl. apply IH; [by apply opened_inv_step|by apply wf_step].
Qed.

(** The transport and the handshake of a client, counted. *)
Lemma handshake_counts w cl x h :
  reachable w → clients w !! cl = Some x → c_conn_future x = Some h →
  (task_state w h ≠ Some Ready → ncalls (is_connect cl) w = 1%nat)
  ∧ (∀ conn, task_state w h = Some (Done (Ok conn)) →
       ncalls (is_connect cl) w = 1%nat ∧ ncalls (is_handshake cl) w = 1%nat).
Proof.
  intros Hw Hx Hf. pose proof (wf_reachable w Hw) as Hwf.
  assert (Hstarted : task_state w h ≠ Some Ready → ncalls (is_connect cl) w = 1%nat).
  { intros Hs. destruct (wf_client _ Hwf _ _ Hx) as (t & tk & Hf' & Ht & Hcode).
    rewrite Hf in Hf'. injection Hf' as <-.
    destruct (opened_inv_reachable w Hw _ _ _ Ht Hcode) as [Hr|[url Hin]].
    - unfold task_state in Hs. rewrite Ht in Hs. simpl in Hs. congruence.
    - eapply ncalls_one; [by apply connect_once|done|]. simpl.
      by apply bool_decide_eq_true. }
  split; [done|]. intros conn Hs. split.
  - apply Hstarted. congruence.
  - destruct (connection_done_calls w cl x h conn Hw Hx Hf Hs) as [_ Hin].
    eapply ncalls_one; [by apply handshake_once|done|]. simpl.
    by apply bool_decide_eq_true.
Qed.

(** The session of a persona, counted. *)
Lemma session_counts w p me s v :
  reachable w → personas w !! p = Some me → p_session_future me = Some s →
  task_state w s = Some (Done (Ok v)) →
  ncalls (is_create_session p) w = 1%nat
  ∧ ∃ sid, v = VSession sid
           ∧ run (RemoteAcpPersona.get_session p) w = (w, Finished (Ok (VSession sid)))
           ∧ run (RemoteAcpPersona.get_session_id p) w = (w, Finished (Ok sid)).
Proof.
  intros Hw Hp Hf Hs.
  destruct (session_done_calls w p me s v Hw Hp Hf Hs) as (sid & client & -> & Hin).
  split.
  - eapply ncalls_one; [by apply create_session_once|done|]. simpl.
    by apply bool_decide_eq_true.
  - exists sid. split_and!; [done| |].
    + by rewrite (run_get_session p me s w Hp Hf), run_await_task, Hs.
    + by rewrite (run_get_session_id p me s w Hp Hf), run_bind, run_await_task, Hs.
Qed.

(** * Specification theorems *)

(** C1: for every class with at least one instance, in every world the
    program can reach and however it goes on from there (more instances,
    any interleaving of tasks): exactly one client-initialisation task was
    started for the class, so at most one client was built for it; at most
    one handshake task exists for it, none while that task has not run
    and, with valid endpoints, exactly one afterwards; no client opens its
    transport or sends its handshake more than once; every instance's
    [get_client()] awaits that one task, whose result never changes once it
    is there.  The handshake itself: once the class's client is there, its
    connection task is the one handshake task of the class; as soon as that
    task has had a turn the transport has been opened exactly once, and
    once the connection future holds a connection the transport was opened
    and the handshake sent exactly once each. *)
Theorem one_shared_client_per_class w c p me :
  reachable w → personas w !! p = Some me → p_cls me = c →
  ∃ t, ∀ acts,
    let w' := exec acts w in
    client_init_tasks w' c = [t]
    ∧ (length (clients_of_class w' c) ≤ 1)%nat
    ∧ (length (handshake_tasks w' c) ≤ 1)%nat
    ∧ (∀ cl, (ncalls (is_connect cl) w' ≤ 1)%nat
             ∧ (ncalls (is_handshake cl) w' ≤ 1)%nat)
    ∧ (∀ p' me', personas w' !! p' = Some me' → p_cls me' = c →
         run (RemoteAcpPersona.get_client p') w' = run (await (OnTask t)) w')
    ∧ (∀ o, task_state w t = Some (Done o) → task_state w' t = Some (Done o))
    ∧ ((∀ p' me' url, personas w' !! p' = Some me' → p_cls me' = c →
          p_remote_url me' = Some url → valid_url url = true) →
       (task_state w' t = Some Ready ∧ handshake_tasks w' c = [])
       ∨ ∃ cl h, task_state w' t = Some (Done (Ok (VClient cl)))
                 ∧ handshake_tasks w' c = [h])
    ∧ ∀ cl x h,
        task_state w' t = Some (Done (Ok (VClient cl))) →
        clients w' !! cl = Some x → c_conn_future x = Some h →
        handshake_tasks w' c = [h]
        ∧ (task_state w' h ≠ Some Ready → ncalls (is_connect cl) w' = 1%nat)
        ∧ ∀ conn, task_state w' h = Some (Done (Ok conn)) →
            ncalls (is_connect cl) w' = 1%nat
            ∧ ncalls (is_handshake cl) w' = 1%nat.
Proof.
  intros Hw Hp <-.
  pose proof (wf_reachable w Hw) as Hwf.
  destruct (wf_persona _ Hwf _ _ Hp) as ([t Hc] & _).
  exists t. intros acts w'.
  assert (Hwf' : wf w') by (by apply wf_exec).
  assert (Hext : extends w w') by (by apply extends_exec).
  assert (Hc' : classes w' !! p_cls me = Some (Some t)) by (by apply Hext).
  pose proof (handshake_tasks_spec w' _ t Hwf' Hc') as Hh.
  assert (Hw' : reachable w') by (by apply reachable_exec).
  split_and!.
  - by apply class_future_tasks.
  - unfold clients_of_class. rewrite (class_future_tasks w' _ t Hwf' Hc'). simpl.
    destruct (task_state w' t) as [[| |[[]|]]|]; simpl; lia.
  - destruct (task_state w' t) as [[| |[[]|]]|];
      try (rewrite Hh; simpl; lia).
    destruct Hh as (h & cc & -> & _). simpl. lia.
  - intros cl. split; [by apply connect_once|by apply handshake_once].
  - intros p' me' Hp' Hcls. eapply run_get_client; [done|].
    apply class_getattr_own. by rewrite Hcls.
  - intros o. by apply task_state_stable.
  - intros Hvalid.
    destruct (wf_class_future _ Hwf' _ _ Hc') as (p0 & me0 & tk & Ht & Hcode & Hp0 & Hcls0).
    destruct (wf_init_client _ Hwf' _ _ _ Ht Hcode) as (me1 & url & Hp1 & Hu & _ & Hok).
    rewrite Hp0 in Hp1. injection Hp1 as <-.
    specialize (Hvalid p0 me0 url Hp0 Hcls0 Hu).
    unfold task_state in *. rewrite Ht in *. simpl in *.
    destruct (t_state tk) as [| |[v|e]]; simpl in *.
    + by left.
    + done.
    + destruct Hok as (_ & cl & cc & -> & _). right.
      destruct Hh as (h & _ & -> & _). by exists cl, h.
    + congruence.
  - intros cl x h Hs Hx Hf. rewrite Hs in Hh.
    destruct Hh as (h' & cc & Hh' & Hcc & Hfut).
    rewrite Hx in Hcc. injection Hcc as <-.
    rewrite Hf in Hfut. injection Hfut as <-.
    split; [done|]. by apply (handshake_counts w' cl x h).
Qed.

(** C7: two instances of different classes, whatever their endpoints and
    whatever the classes inherit from each other, await different client
    futures, which yield different client objects. *)
Theorem subclasses_have_independent_clients w p1 p2 me1 me2 :
  reachable w →
  personas w !! p1 = Some me1 → personas w !! p2 = Some me2 →
  p_cls me1 ≠ p_cls me2 →
  ∃ t1 t2,
    t1 ≠ t2
    ∧ client_init_tasks w (p_cls me1) = [t1]
    ∧ client_init_tasks w (p_cls me2) = [t2]
    ∧ run (RemoteAcpPersona.get_client p1) w = run (await (OnTask t1)) w
    ∧ run (RemoteAcpPersona.get_client p2) w = run (await (OnTask t2)) w
    ∧ ∀ cl1 cl2,
        task_state w t1 = Some (Done (Ok (VClient cl1))) →
        task_state w t2 = Some (Done (Ok (VClient cl2))) →
        cl1 ≠ cl2.
Proof.
  intros Hw Hp1 Hp2 Hne.
  pose proof (wf_reachable w Hw) as Hwf.
  destruct (class_future_of_persona w p1 me1 Hwf Hp1) as (t1 & Hc1 & E1).
  destruct (class_future_of_persona w p2 me2 Hwf Hp2) as (t2 & Hc2 & E2).
  destruct (wf_class_future _ Hwf _ _ Hc1) as (q1 & m1 & tk1 & Ht1 & Hcode1 & Hq1 & Hcls1).
  destruct (wf_class_future _ Hwf _ _ Hc2) as (q2 & m2 & tk2 & Ht2 & Hcode2 & Hq2 & Hcls2).
  assert (t1 ≠ t2) as Ht.
  { intros <-. rewrite Ht1 in Ht2. injection Ht2 as <-.
    rewrite Hcode1 in Hcode2. injection Hcode2 as <-.
    rewrite Hq1 in Hq2. injection Hq2 as <-. congruence. }
  exists t1, t2. split_and!; try done.
  - eapply run_get_client; [done|]. by apply class_getattr_own.
  - eapply run_get_client; [done|]. by apply class_getattr_own.
  - unfold task_state. rewrite Ht1, Ht2. simpl. intros cl1 cl2 [= Hs1] [= Hs2] <-.
    apply Ht. by eapply (wf_client_owner _ Hwf t1 t2).
Qed.

(** C5: a persona's session future is set at construction and never
    again: exactly one session-creation task exists for it, the library is
    asked for a session at most once, and at any later time both accessors
    await that same task, whose outcome never changes once it is there.
    Once the session future holds a result, the library was asked for the
    session exactly once, and the accessors return that session and its
    id. *)
Theorem session_created_once w p me :
  reachable w → personas w !! p = Some me →
  ∃ s,
    p_session_future me = Some s
    ∧ ∀ acts,
        let w' := exec acts w in
        personas w' !! p = Some me
        ∧ session_tasks w' p = [s]
        ∧ (ncalls (is_create_session p) w' ≤ 1)%nat
        ∧ run (RemoteAcpPersona.get_session p) w' = run (await (OnTask s)) w'
        ∧ run (RemoteAcpPersona.get_session_id p) w'
          = run (await (OnTask s) ≫= RemoteAcpPersona.session_id) w'
        ∧ (∀ o, task_state w s = Some (Done o) → task_state w' s = Some (Done o))
        ∧ ∀ v, task_state w' s = Some (Done (Ok v)) →
            ncalls (is_create_session p) w' = 1%nat
            ∧ ∃ sid,
                v = VSession sid
                ∧ run (RemoteAcpPersona.get_session p) w'
                  = (w', Finished (Ok (VSession sid)))
                ∧ run (RemoteAcpPersona.get_session_id p) w'
                  = (w', Finished (Ok sid)).
Proof.
  intros Hw Hp.
  pose proof (wf_reachable w Hw) as Hwf.
  destruct (session_tasks_of_persona w p me Hwf Hp) as (s & Hs & _).
  exists s. split; [done|]. intros acts w'.
  assert (Hwf' : wf w') by (by apply wf_exec).
  assert (Hext : extends w w') by (by apply extends_exec).
  assert (Hp' : personas w' !! p = Some me) by (by apply Hext).
  split_and!; try done.
  - destruct (session_tasks_of_persona w' p me Hwf' Hp') as (s' & Hs' & E).
    congruence.
  - by apply create_session_once, reachable_exec.
  - by eapply run_get_session.
  - by eapply run_get_session_id.
  - intros o. by apply task_state_stable.
  - intros v Hv. apply (session_counts w' p me s v); [|done..].
    by apply reachable_exec.
Qed.

(** C2 (amended): for every malformed endpoint (empty, or with neither the
    [ws://] nor the [wss://] scheme) the constructor of [RemoteAcpClient]
    ends at once by raising [ValueError]: it reaches no suspension point
    and leaves the world as it was, so no task is created and nothing is
    asked of the network. *)
Theorem malformed_url_rejected w url :
  malformed url →
  ∃ msg, run (RemoteAcpClient.__init__ url) w
         = (w, Finished (Err (Exn ValueError msg)))
         ∧ isinstance (Exn ValueError msg) ConnectionError = false.
Proof.
  intros H.
  destruct (run_client_init_invalid url w (valid_url_malformed url H)) as [msg E].
  by exists msg.
Qed.

(** C2 as stated fails: the error raised for the empty endpoint is not an
    instance of [ConnectionError]. *)
Lemma malformed_url_error_class :
  ¬ ∃ e, (run (RemoteAcpClient.__init__ []) (start demo_mro ∅ [])).2 = Finished (Err e)
         ∧ isinstance e ConnectionError = true.
Proof. intros (e & [= <-] & H). done. Qed.

(** C10: an endpoint made of whitespace only is refused exactly like the
    empty one, with [ValueError("remote_url cannot be empty")], before the
    scheme is looked at and with the world left as it was. *)
Theorem whitespace_url_rejected_as_empty w url :
  Forall (λ c, is_space c = true) url →
  run (RemoteAcpClient.__init__ url) w
  = (w, Finished (Err (Exn ValueError "remote_url cannot be empty")))
  ∧ run (RemoteAcpClient.__init__ url) w = run (RemoteAcpClient.__init__ []) w.
Proof.
  intros H. unfold RemoteAcpClient.__init__.
  rewrite (strip_spaces _ H). simpl. by rewrite orb_true_r.
Qed.

(** C9: in every world the program can reach, every prompt that was
    forwarded to the agent has no whitespace at either end, whether or not
    the message contained a mention. *)
Theorem forwarded_prompt_trimmed w client sid prompt :
  reachable w → PromptAndReply client sid prompt ∈ calls w → trimmed prompt.
Proof.
  intros Hw Hin.
  destruct (calls_inv_reachable prompt_trimmed w bodies_prompt_trimmed Hw) as [Hc _].
  rewrite Forall_forall in Hc. by apply Hc in Hin.
Qed.

Lemma run_process_message w p me t client s sid body :
  personas w !! p = Some me →
  class_getattr w (p_cls me) = Some (Some t) →
  task_state w t = Some (Done (Ok client)) →
  p_session_future me = Some s →
  task_state w s = Some (Done (Ok (VSession sid))) →
  ∃ k, run (RemoteAcpPersona.process_message p body) w
       = (with_calls
            (λ l, l ++ [PromptAndReply client sid
                          (RemoteAcpPersona.prompt_of (p_mention me) body)]) w,
          Blocked (OnExt (PromptAndReply client sid
                            (RemoteAcpPersona.prompt_of (p_mention me) body))) k).
Proof.
  intros Hp Hc Ht Hs Hts. unfold RemoteAcpPersona.process_message.
  rewrite run_bind, (run_get_client _ _ _ _ Hp Hc), run_await_task, Ht.
  rewrite run_bind, (run_get_session_id _ _ _ _ Hp Hs), run_bind, run_await_task, Hts.
  cbn. rewrite Hp. cbn. by eexists.
Qed.

(** C4: when the client and the session are there, [process_message]
    forwards [body] with its mention token deleted and the ends trimmed.
    Deleting is by occurrence, leftmost first: a token at the front goes,
    a character that does not start one stays, and a body whose only [@]
    are those of the token loses exactly the tokens. *)
Theorem process_message_strips_mention w p me t client s sid body :
  personas w !! p = Some me →
  class_getattr w (p_cls me) = Some (Some t) →
  task_state w t = Some (Done (Ok client)) →
  p_session_future me = Some s →
  task_state w s = Some (Done (Ok (VSession sid))) →
  let token := str "@" ++ p_mention me in
  let prompt := strip (replace body token []) in
  (∃ k, run (RemoteAcpPersona.process_message p body) w
        = (with_calls (λ l, l ++ [PromptAndReply client sid prompt]) w,
           Blocked (OnExt (PromptAndReply client sid prompt)) k))
  ∧ (∀ rest, replace (token ++ rest) token [] = replace rest token [])
  ∧ (∀ c rest, startswith (c :: rest) token = false →
               replace (c :: rest) token [] = c :: replace rest token [])
  ∧ (∀ pieces, Forall (λ x, 64%N ∉ x) pieces →
               replace (join token pieces) token [] = concat pieces).
Proof.
  intros Hp Hc Ht Hs Hts token prompt. split_and!.
  - by eapply run_process_message.
  - intros rest. apply (replace_from_match 64%N (p_mention me) [] rest).
  - intros c rest H. subst token. simpl in *. by rewrite H.
  - intros pieces. apply replace_join.
Qed.

(** C3 (amended): [shutdown()] returns normally in every world, having only
    scheduled the close sequence as a task, and whatever a task's coroutine
    does ends up in the task.  Inside [close()], an [Exception] from the
    awaited connection or from [__aexit__] is logged and swallowed. *)
Theorem shutdown_never_raises w p :
  run (RemoteAcpPersona.shutdown p) w = (spawn (CoShutdown p) w, Finished (Ok VNone))
  ∧ (∀ t m, is_Some (tasks w !! t) →
            task_state (run_task t m w) t = Some (state_after (run m w).2))
  ∧ ∀ cl c fut e,
      clients w !! cl = Some c → c_context c = true → c_conn_future c = Some fut →
      isinstance e Exception = true →
      let logged (w0 : world) :=
        (with_log (λ l, l ++ [LogError (MsgErrorClosing e)]) w0,
         Finished (Ok VNone)) in
      match task_state w fut with
      | Some (Done (Err e')) => e' = e → run (RemoteAcpClient.close cl) w = logged w
      | Some (Done (Ok _)) =>
          ∃ k, run (RemoteAcpClient.close cl) w
               = (with_calls (λ l, l ++ [ContextAexit cl]) w,
                  Blocked (OnExt (ContextAexit cl)) k)
               ∧ ∀ w2, run (k (Err e)) w2 = logged w2
      | _ =>
          ∃ k, run (RemoteAcpClient.close cl) w = (w, Blocked (OnTask fut) k)
               ∧ (∀ w2, run (k (Err e)) w2 = logged w2)
               ∧ ∀ w2 v, ∃ k2,
                   run (k (Ok v)) w2
                   = (with_calls (λ l, l ++ [ContextAexit cl]) w2,
                      Blocked (OnExt (ContextAexit cl)) k2)
                   ∧ ∀ w3, run (k2 (Err e)) w3 = logged w3
      end.
Proof.
  split_and!.
  - done.
  - intros t m [tk Ht]. unfold run_task.
    destruct (run_tasks m w) as (news & Et & _).
    destruct (run m w) as [w1 r]. simpl in *. unfold task_state.
    assert (tasks (settle t r w1) !! t = Some (Task (t_code tk) (state_after r))) as ->; [|done].
    apply lookup_settle. exists tk. rewrite Et, decide_True by done.
    split; [by apply lookup_app_l_Some|done].
  - intros cl c fut e Hc Hx Hf He logged.
    assert (Hsup : ∀ w0, close_suppressed e w0 = logged w0).
    { intros w0. unfold close_suppressed. by rewrite He. }
    assert (Hwait : ∀ w2 v r, close_waited cl (c_remote_url c) (Ok v) w2 r →
       ∃ k2, r = (with_calls (λ l, l ++ [ContextAexit cl]) w2,
                  Blocked (OnExt (ContextAexit cl)) k2)
             ∧ ∀ w3, run (k2 (Err e)) w3 = logged w3).
    { intros w2 v r (k2 & -> & Hk2). exists k2. split; [done|].
      intros w3. by rewrite (Hk2 w3 (Err e)). }
    pose proof (run_close cl c fut w Hc Hx Hf) as H.
    destruct (task_state w fut) as [[|on0 k0|[v|e']]|].
    + destruct H as (k & -> & Hk). exists k. split_and!; [done|..].
      * intros w2. by rewrite <- Hsup, <- (Hk w2 (Err e)).
      * intros w2 v. by eapply Hwait, (Hk w2 (Ok v)).
    + destruct H as (k & -> & Hk). exists k. split_and!; [done|..].
      * intros w2. by rewrite <- Hsup, <- (Hk w2 (Err e)).
      * intros w2 v. by eapply Hwait, (Hk w2 (Ok v)).
    + by eapply Hwait.
    + intros ->. by rewrite <- Hsup.
    + destruct H as (k & -> & Hk). exists k. split_and!; [done|..].
      * intros w2. by rewrite <- Hsup, <- (Hk w2 (Err e)).
      * intros w2 v. by eapply Hwait, (Hk w2 (Ok v)).
Qed.

(** C3 as stated fails: [conn.close()] raises [OSError] inside [_shutdown];
    no error is logged and the coroutine ends with the exception. *)
Lemma conn_close_error_not_logged :
  task_state demo_shutdown 7 = Some (Done (Err (Exn OSError "boom")))
  ∧ isinstance (Exn OSError "boom") Exception = true
  ∧ Forall (λ r, match r with LogError _ => False | LogInfo _ => True end)
           (log demo_shutdown)
  ∧ ConnClose (VConn 7) ∈ calls demo_shutdown.
Proof.
  split_and!; [done|done| |].
  - vm_compute. repeat constructor.
  - vm_compute. repeat constructor.
Qed.

(** C8: the example persona takes its endpoint from [ACP_SERVER_URL] and
    falls back to [ws://localhost:8080/ws]; the first instance of its class
    then opens the connection to that endpoint. *)
Theorem example_persona_endpoint w cls mention :
  let w' := step (ConstructExample cls mention) w in
  let fresh := ∀ t, classes w !! cls ≠ Some (Some t) in
  let connects url :=
    calls (exec [Sched (length (tasks w)); Sched (S (S (length (tasks w))))] w')
    = calls w ++ [ContextAenter (length (clients w)) url] in
  (environ w !! "ACP_SERVER_URL" = None →
     (p_remote_url <$> personas w' !! length (personas w))
     = Some (Some (str "ws://localhost:8080/ws"))
     ∧ (fresh → connects (str "ws://localhost:8080/ws")))
  ∧ (∀ v, environ w !! "ACP_SERVER_URL" = Some v →
     (p_remote_url <$> personas w' !! length (personas w)) = Some (Some v)
     ∧ (fresh → valid_url v = true → connects v)).
Proof.
  intros w' fresh connects.
  assert (Hurl : ∀ url, default (str "ws://localhost:8080/ws")
                          (environ w !! "ACP_SERVER_URL") = url →
     (p_remote_url <$> personas w' !! length (personas w)) = Some (Some url)
     ∧ (fresh → valid_url url = true → connects url)).
  { intros url Hd. subst w' connects. simpl. unfold call.
    rewrite run_example_init, Hd. split.
    - rewrite run_persona_init. simpl. unfold constructed.
      destruct (classes w !! cls) as [[]|]; simpl; by rewrite lookup_snoc_new.
    - intros Hf Hv. by apply (construct_then_connect cls mention url w). }
  split.
  - intros He. destruct (Hurl (str "ws://localhost:8080/ws")) as [H1 H2].
    + by rewrite He.
    + split; [done|]. intros Hf. by apply H2.
  - intros v He. apply Hurl. by rewrite He.
Qed.

(** C6 (amended): in every world the program can reach, [__aexit__] was
    asked for on a client only after that client's connection future had
    answered with the connection.  [close()] itself, on a client whose
    [_connection_context] is set, which it is from the first turn of the
    connection task on: while the handshake is in flight [close()]
    suspends on the connection future, asking nothing of the library; once
    the future has answered it goes on to [__aexit__] for a connection and
    stops for an exception.  On a client whose connection task has not had
    its first turn and whose context is therefore not set, [close()]
    returns at once: it waits for nothing and closes nothing. *)
Theorem close_waits_for_connection w cl c fut :
  reachable w → clients w !! cl = Some c → c_conn_future c = Some fut →
  let suspends :=
    ∃ k, run (RemoteAcpClient.close cl) w = (w, Blocked (OnTask fut) k) ∧
         ∀ w2 o, close_waited cl (c_remote_url c) o w2 (run (k o) w2) in
  (ContextAexit cl ∈ calls w → ∃ v, task_state w fut = Some (Done (Ok v)))
  ∧ match task_state w fut with
    | Some (Waiting _ _) => c_context c = true ∧ suspends
    | Some (Done o) =>
        c_context c = true ∧
        close_waited cl (c_remote_url c) o w (run (RemoteAcpClient.close cl) w)
    | Some Ready =>
        if c_context c then suspends
        else run (RemoteAcpClient.close cl) w = (w, Finished (Ok VNone))
    | None => False
    end.
Proof.
  intros Hw Hc Hf suspends.
  pose proof (wf_reachable w Hw) as Hwf.
  split.
  - intros Hin. pose proof (exit_calls _ (exit_inv_reachable w Hw)) as Hcalls.
    rewrite Forall_forall in Hcalls.
    destruct (Hcalls _ Hin) as (c' & fut' & v & Hc' & Hf' & Hs).
    exists v. congruence.
  - destruct (wf_client _ Hwf _ _ Hc) as (t & tk & Hf' & Ht & Hcode).
    assert (t = fut) as -> by congruence.
    pose proof (started_inv_reachable w Hw _ _ _ _ Ht Hcode Hc) as Hstarted.
    pose proof (run_close cl c fut w Hc) as Hrun.
    unfold task_state in *. rewrite Ht in *. simpl in *.
    destruct (t_state tk) as [|on k|o].
    + destruct (c_context c) eqn:Hx; [by apply Hrun|].
      by apply (run_close_no_context cl c).
    + destruct Hstarted as [|Hx]; [done|]. split; [done|]. by apply Hrun.
    + destruct Hstarted as [|Hx]; [done|]. split; [done|]. by apply Hrun.
Qed.

(** C6 as stated fails: [close()] is called on a client whose connection
    future is pending, its task not having had a turn yet.  The context is
    not set, so [close()] returns at once without waiting for the future.
    The connection is then established, and [__aexit__] is never asked
    for. *)
Lemma close_before_first_turn_does_not_wait :
  reachable demo_early
  ∧ clients demo_early !! 0 = Some (Client demo_url false (Some 2))
  ∧ task_state demo_early 2 = Some Ready
  ∧ run (RemoteAcpClient.close 0) demo_early = (demo_early, Finished (Ok VNone))
  ∧ reachable demo_unclosed
  ∧ t_code <$> tasks demo_unclosed !! 3 = Some (CoClose 0)
  ∧ task_state demo_unclosed 3 = Some (Done (Ok VNone))
  ∧ task_state demo_unclosed 2 = Some (Done (Ok (VConn 7)))
  ∧ ContextAenter 0 demo_url ∈ calls demo_unclosed
  ∧ ContextAexit 0 ∉ calls demo_unclosed.
Proof.
  assert (Hr : reachable demo_early).
  { unfold demo_early. eexists _, _, _, _. reflexivity. }
  assert (E : calls demo_unclosed
              = [ContextAenter 0 demo_url; ConnInitialize 0 (VConn 7)])
    by reflexivity.
  split_and!; [done|reflexivity|reflexivity|reflexivity| |reflexivity|reflexivity
              |reflexivity| |].
  - unfold demo_unclosed. by apply reachable_exec.
  - rewrite E. apply list_elem_of_here.
  - rewrite E. apply not_elem_of_cons. split; [done|].
    apply not_elem_of_cons. split; [done|]. apply not_elem_of_nil.
Qed.
(** * Further properties *)

(** ** Endpoint validation *)

(** X1: the constructor of [RemoteAcpClient] accepts exactly the endpoints
    that begin with [ws://] or [wss://]: nothing else about the endpoint is
    looked at.  An accepted endpoint gives one new client with no context
    yet and one connection task that has not run; nothing is logged and
    nothing is asked of the library. *)
Theorem client_init_accepts_exactly_ws_schemes w url :
  ((∃ cl, (run (RemoteAcpClient.__init__ url) w).2 = Finished (Ok cl))
   ↔ ∃ rest, url = str "ws://" ++ rest ∨ url = str "wss://" ++ rest)
  ∧ ∀ rest, url = str "ws://" ++ rest ∨ url = str "wss://" ++ rest →
      run (RemoteAcpClient.__init__ url) w
      = (client_created url w, Finished (Ok (length (clients w)))).
Proof.
  assert (Hv : valid_url url = true
               ↔ ∃ rest, url = str "ws://" ++ rest ∨ url = str "wss://" ++ rest).
  { unfold valid_url. rewrite andb_true_iff, orb_true_iff, !startswith_prefix.
    split.
    - intros [_ [[r ->]|[r ->]]]; exists r; auto.
    - intros [r H]. split; [|destruct H; eauto].
      apply truthy_strip. exists 119%N. split; [|done].
      destruct H as [-> | ->]; set_solver. }
  split.
  - rewrite <- Hv. destruct (valid_url url) eqn:E.
    + rewrite run_client_init_valid by done. split; [done|]. by eexists.
    + destruct (run_client_init_invalid url w E) as [msg ->]. simpl.
      split; [by intros [? ?]|done].
  - intros rest H. apply run_client_init_valid, Hv. by exists rest.
Qed.

(** X2: the second message, [remote_url must start with ws:// or wss://],
    is what every endpoint gets that has a character other than whitespace
    and neither scheme at its very start; whitespace before the scheme is
    not skipped. *)
Theorem client_init_scheme_error w url :
  run (RemoteAcpClient.__init__ url) w
  = (w, Finished (Err (Exn ValueError "remote_url must start with ws:// or wss://")))
  ↔ (∃ c, c ∈ url ∧ is_space c = false)
    ∧ startswith url (str "ws://") = false ∧ startswith url (str "wss://") = false.
Proof.
  rewrite <- truthy_strip. unfold RemoteAcpClient.__init__.
  destruct (startswith url (str "ws://")), (startswith url (str "wss://")),
    (truthy url), (truthy (strip url)); cbn;
    split; (by intros [=]) || (by intros (? & ? & ?)) || done.
Qed.

(** ** The forwarded prompt *)

(** X3: a message in which the mention token does not occur is forwarded
    as it is but for the whitespace at its two ends. *)
Theorem message_without_mention_keeps_its_text mention body :
  contains body (str "@" ++ mention) = false →
  ∃ pre suf,
    body = pre ++ RemoteAcpPersona.prompt_of mention body ++ suf
    ∧ blank pre ∧ blank suf.
Proof.
  intros H. unfold RemoteAcpPersona.prompt_of.
  change (replace body (str "@" ++ mention) [])
    with (replace_from (str "@" ++ mention) [] 0 body).
  rewrite replace_from_absent by done. apply strip_split.
Qed.

(** X4: the forwarded prompt is the message with characters deleted:
    nothing is added, changed or reordered. *)
Theorem prompt_deletes_only mention body :
  RemoteAcpPersona.prompt_of mention body `sublist_of` body.
Proof.
  unfold RemoteAcpPersona.prompt_of.
  etrans; [apply strip_sublist|]. apply replace_from_sublist.
Qed.

(** X5: a message made of mentions and whitespace only is not held back:
    [process_message] forwards the empty prompt. *)
Theorem mention_only_message_forwards_empty_prompt w p me t client s sid pieces :
  personas w !! p = Some me →
  class_getattr w (p_cls me) = Some (Some t) →
  task_state w t = Some (Done (Ok client)) →
  p_session_future me = Some s →
  task_state w s = Some (Done (Ok (VSession sid))) →
  Forall blank pieces →
  ∃ k, run (RemoteAcpPersona.process_message p
              (join (str "@" ++ p_mention me) pieces)) w
       = (with_calls (λ l, l ++ [PromptAndReply client sid []]) w,
          Blocked (OnExt (PromptAndReply client sid [])) k).
Proof.
  intros Hp Hc Ht Hs Hts Hb.
  destruct (run_process_message w p me t client s sid
              (join (str "@" ++ p_mention me) pieces) Hp Hc Ht Hs Hts) as [k E].
  assert (RemoteAcpPersona.prompt_of (p_mention me)
            (join (str "@" ++ p_mention me) pieces) = []) as Hnil.
  { unfold RemoteAcpPersona.prompt_of.
    change (str "@" ++ p_mention me) with (64%N :: p_mention me).
    rewrite replace_join.
    - apply strip_spaces. unfold blank in *. by apply Forall_concat.
    - eapply Forall_impl; [done|]. apply blank_no_at. }
  rewrite Hnil in E. by exists k.
Qed.

(** ** Construction with an endpoint that is not valid *)

(** X6: the constructor of a persona does not look at its endpoint.  With
    an endpoint that [RemoteAcpClient] refuses, the first instance of a
    class is built like any other, nothing is logged or asked of the
    library, and no client exists afterwards; the [ValueError] is the
    outcome of the class's client future and is what [get_client()]
    raises. *)
Theorem invalid_endpoint_fails_the_client_future w cls mention url :
  valid_url url = false → (∀ t, classes w !! cls ≠ Some (Some t)) →
  let p := length (personas w) in
  let t := length (tasks w) in
  let w1 := step (Construct cls mention url) w in
  let w2 := step (Sched t) w1 in
  run (RemoteAcpPersona.__init__ cls mention url) w = (w1, Finished (Ok p))
  ∧ calls w1 = calls w ∧ log w1 = log w
  ∧ clients w2 = clients w ∧ calls w2 = calls w ∧ log w2 = log w
  ∧ ∃ msg, task_state w2 t = Some (Done (Err (Exn ValueError msg)))
           ∧ run (RemoteAcpPersona.get_client p) w2
             = (w2, Finished (Err (Exn ValueError msg))).
Proof.
  intros Hv Hf p t w1 w2.
  destruct (construct_invalid_endpoint w cls mention url Hv Hf)
    as (H1 & H2 & H3 & _ & H4 & H5 & H6 & H7).
  by split_and!.
Qed.

(** X7: an [ACP_SERVER_URL] that is set is used as it is: a value that is
    not a valid endpoint (the empty string included) is not replaced by
    the default, and the client future of the example persona's class
    fails with [ValueError]. *)
Theorem example_persona_keeps_invalid_endpoint w cls mention v :
  environ w !! "ACP_SERVER_URL" = Some v → valid_url v = false →
  (∀ t, classes w !! cls ≠ Some (Some t)) →
  let p := length (personas w) in
  let t := length (tasks w) in
  let w2 := exec [ConstructExample cls mention; Sched t] w in
  personas w2 !! p = Some (Persona cls mention (Some v) (Some (S t)))
  ∧ clients w2 = clients w ∧ calls w2 = calls w
  ∧ ∃ msg, task_state w2 t = Some (Done (Err (Exn ValueError msg))).
Proof.
  intros He Hv Hf p t w2.
  destruct (construct_invalid_endpoint w cls mention v Hv Hf)
    as (_ & _ & _ & H1 & H2 & H3 & _ & msg & H4 & _).
  assert (w2 = step (Sched t) (step (Construct cls mention v) w)) as ->.
  { subst w2. simpl. unfold call. by rewrite run_example_init, He. }
  split_and!; [done..|]. by exists msg.
Qed.

(** ** The client future of a class *)

(** X8: a client future that has failed stays the future of its class.
    The failure is a [ValueError]; whatever happens next, no instance of
    the class, earlier or later and with whatever endpoint, starts another
    client: [get_client()] and [process_message()] raise the stored
    exception, [_shutdown()] ends with it, no client exists for the class
    and no session is ever asked for. *)
Theorem failed_client_future_is_final w c t e :
  reachable w → classes w !! c = Some (Some t) →
  task_state w t = Some (Done (Err e)) →
  (∃ msg, e = Exn ValueError msg)
  ∧ ∀ acts,
      let w' := exec acts w in
      classes w' !! c = Some (Some t)
      ∧ task_state w' t = Some (Done (Err e))
      ∧ clients_of_class w' c = []
      ∧ ∀ p me, personas w' !! p = Some me → p_cls me = c →
          run (RemoteAcpPersona.get_client p) w' = (w', Finished (Err e))
          ∧ (∀ body, run (RemoteAcpPersona.process_message p body) w'
                     = (w', Finished (Err e)))
          ∧ (run (RemoteAcpPersona._shutdown p) w').2 = Finished (Err e)
          ∧ ∀ client, CreateSession client p ∉ calls w'.
Proof.
  intros Hw Hc Hs. pose proof (wf_reachable w Hw) as Hwf. split.
  - destruct (wf_class_future _ Hwf _ _ Hc) as (p0 & me0 & tk & Ht & Hcode & _).
    unfold task_state in Hs. rewrite Ht in Hs. injection Hs as Hs.
    destruct (hist_done _ (history_reachable w Hw) _ _ _ Ht Hs) as (w0 & _ & Hpost).
    by rewrite Hcode in Hpost.
  - intros acts w'.
    assert (Hw' : reachable w') by (by apply reachable_exec).
    pose proof (wf_reachable w' Hw') as Hwf'.
    assert (Hext : extends w w') by (by apply extends_exec).
    assert (Hc' : classes w' !! c = Some (Some t)) by (by apply Hext).
    assert (Hs' : task_state w' t = Some (Done (Err e)))
      by (by eapply task_state_stable).
    split_and!; [done|done| |].
    + unfold clients_of_class. rewrite (class_future_tasks w' c t Hwf' Hc').
      simpl. by rewrite Hs'.
    + intros p me Hp <-.
      assert (Hget : run (RemoteAcpPersona.get_client p) w' = (w', Finished (Err e))).
      { rewrite (run_get_client p me t w' Hp (class_getattr_own _ _ _ Hc')).
        by rewrite run_await_task, Hs'. }
      split_and!.
      * done.
      * intros body. unfold RemoteAcpPersona.process_message.
        by rewrite run_bind, Hget.
      * unfold RemoteAcpPersona._shutdown. rewrite run_bind.
        assert (run (perform (PersonaGet p) ≫= attr "self") w'
                = (w', Finished (Ok me))) as -> by (cbn; by rewrite Hp).
        rewrite run_bind. cbn [run perform handle].
        set (w1 := with_log _ w'). rewrite run_bind.
        assert (run (RemoteAcpPersona.get_client p) w1 = (w1, Finished (Err e))) as ->;
          [|done].
        rewrite (run_get_client p me t w1 Hp (class_getattr_own w1 _ _ Hc')).
        rewrite run_await_task.
        by change (task_state w1 t) with (task_state w' t); rewrite Hs'.
      * intros client Hin.
        destruct (hist_call_of w' _ Hw' Hin) as (i & w0 & t0 & tk0 & _ & Hg & _ & _ & Hpre).
        destruct (t_code tk0); try done. destruct Hpre as [-> Hcl].
        destruct (grows_client_of _ _ _ _ Hg Hcl) as (me' & t' & Hp' & Hc'' & Hs'').
        rewrite Hp in Hp'. injection Hp' as <-. congruence.
Qed.

(** X9: the client that the instances of a class share is built from the
    endpoint of the first instance of the class, the one whose
    [_init_client] is the class's client future.  The endpoints given to
    later instances are stored on them and used for nothing: the client's
    endpoint and every transport opened for it are the first one's. *)
Theorem shared_client_uses_first_endpoint w p me :
  reachable w → personas w !! p = Some me →
  ∃ t p0 me0 url0,
    classes w !! p_cls me = Some (Some t)
    ∧ t_code <$> tasks w !! t = Some (CoInitClient p0)
    ∧ personas w !! p0 = Some me0 ∧ p_cls me0 = p_cls me
    ∧ p_remote_url me0 = Some url0
    ∧ (∀ q mq, personas w !! q = Some mq → p_cls mq = p_cls me → (p0 ≤ q)%nat)
    ∧ ∀ cl, task_state w t = Some (Done (Ok (VClient cl))) →
        valid_url url0 = true
        ∧ (∃ x, clients w !! cl = Some x ∧ c_remote_url x = url0)
        ∧ LogInfo (MsgInitClient (p_cls me) url0) ∈ log w
        ∧ ∀ url, ContextAenter cl url ∈ calls w → url = url0.
Proof.
  intros Hw Hp. pose proof (wf_reachable w Hw) as Hwf.
  destruct (wf_persona _ Hwf _ _ Hp) as ([t Hc] & _).
  destruct (wf_class_future _ Hwf _ _ Hc) as (p0 & me0 & tk & Ht & Hcode & Hp0 & Hcls).
  destruct (wf_init_client _ Hwf _ _ _ Ht Hcode) as (me1 & url0 & Hp1 & Hu & _ & Hok).
  rewrite Hp0 in Hp1. injection Hp1 as <-.
  exists t, p0, me0, url0. split_and!; try done.
  - by rewrite Ht, <- Hcode.
  - intros q mq Hq Hcq. eapply (founder_reachable w Hw); [done| |done..].
    by rewrite Ht, <- Hcode.
  - intros cl Hs. unfold task_state in Hs. rewrite Ht in Hs. injection Hs as Hs.
    rewrite Hs in Hok. destruct Hok as (Hv & cl' & x & [= <-] & Hx & Hux).
    split_and!; [done|by exists x| |].
    + destruct (hist_done _ (history_reachable w Hw) _ _ _ Ht Hs) as (w0 & Hg & Hpost).
      rewrite Hcode in Hpost.
      destruct Hpost as (me1 & url1 & cl1 & Hp1 & Hu1 & _ & Hlog).
      pose proof (grows_persona _ _ _ _ Hg Hp1) as Hp1'.
      rewrite Hp0 in Hp1'. injection Hp1' as <-.
      rewrite Hu in Hu1. injection Hu1 as <-. rewrite <- Hcls.
      by eapply grows_logged.
    + intros url Hin.
      destruct (hist_call_of w _ Hw Hin) as (i & w0 & t0 & tk0 & _ & Hg & _ & _ & Hpre).
      destruct (t_code tk0); try done.
      destruct Hpre as (-> & x0 & Hx0 & <- & _).
      destruct (grows_client _ _ _ _ Hg Hx0) as (x' & Hx' & Hu' & _).
      rewrite Hx in Hx'. injection Hx' as <-. congruence.
Qed.

(** ** The connection task *)

(** X10: a transport is only ever opened for a client that exists, to the
    endpoint that client was built with, which is a valid one, after the
    attempt was logged and the client's [_connection_context] was set. *)
Theorem transport_opened_to_client_endpoint w cl url :
  reachable w → ContextAenter cl url ∈ calls w →
  valid_url url = true
  ∧ LogInfo (MsgConnecting url) ∈ log w
  ∧ ∃ x, clients w !! cl = Some x ∧ c_remote_url x = url ∧ c_context x = true.
Proof.
  intros Hw Hin. pose proof (wf_reachable w Hw) as Hwf.
  destruct (hist_call_of w _ Hw Hin) as (i & w0 & t0 & tk0 & _ & Hg & _ & _ & Hpre).
  destruct (t_code tk0); try done.
  destruct Hpre as (-> & x0 & Hx0 & <- & Hctx & Hlog).
  destruct (grows_client _ _ _ _ Hg Hx0) as (x & Hx & Hu & _ & Hc).
  destruct (client_origin w _ x Hwf (owned_reachable w Hw) Hx)
    as (_ & _ & _ & _ & _ & _ & _ & _ & _ & _ & Hv).
  rewrite Hu in Hlog |- *. split_and!; [done|by apply (grows_logged w0 w)|].
  exists x. split_and!; [done..|by apply Hc].
Qed.

(** X11: the protocol handshake of a client is sent after the transport
    of that client was opened: every [initialize] in the sequence of
    library operations has the [__aenter__] of its client before it. *)
Theorem handshake_follows_transport w i cl conn :
  reachable w → calls w !! i = Some (ConnInitialize cl conn) →
  ∃ j url, (j < i)%nat ∧ calls w !! j = Some (ContextAenter cl url).
Proof.
  intros Hw Hi.
  destruct (hist_calls _ (history_reachable w Hw) _ _ Hi)
    as (w0 & t0 & tk0 & Hg & Hl & _ & Hpre).
  destruct (t_code tk0); try done. destruct Hpre as (-> & url & Hin).
  destruct (grows_call_before _ _ _ Hg Hin) as (j & Hj & Hcj).
  exists j, url. split; [lia|done].
Qed.

(** X12: what the connection future of a client says once it is done.
    With a connection: the transport was opened to the client's endpoint,
    the handshake was sent on that very connection and the success was
    logged.  With an [Exception]: the failure was logged, with the
    endpoint and the exception that the future holds. *)
Theorem connection_future_outcome w cl x fut :
  reachable w → clients w !! cl = Some x → c_conn_future x = Some fut →
  (∀ conn, task_state w fut = Some (Done (Ok conn)) →
     ContextAenter cl (c_remote_url x) ∈ calls w
     ∧ ConnInitialize cl conn ∈ calls w
     ∧ LogInfo (MsgConnected (c_remote_url x)) ∈ log w)
  ∧ (∀ e, task_state w fut = Some (Done (Err e)) → isinstance e Exception = true →
       LogError (MsgConnectFailed (c_remote_url x) e) ∈ log w).
Proof.
  intros Hw Hx Hf. pose proof (wf_reachable w Hw) as Hwf.
  destruct (wf_client _ Hwf _ _ Hx) as (t & tk & Hf' & Ht & Hcode).
  rewrite Hf in Hf'. injection Hf' as <-.
  assert (Hdone : ∀ o, task_state w fut = Some (Done o) →
            ∃ w0, grows w0 w ∧ task_post (CoInitConnection cl) w0 o).
  { intros o Hs. unfold task_state in Hs. rewrite Ht in Hs. injection Hs as Hs.
    rewrite <- Hcode. by eapply (hist_done _ (history_reachable w Hw)). }
  assert (Hurl : ∀ w0 x0, grows w0 w → clients w0 !! cl = Some x0 →
            c_remote_url x0 = c_remote_url x).
  { intros w0 x0 Hg Hx0. destruct (grows_client _ _ _ _ Hg Hx0) as (x' & Hx' & Hu & _).
    rewrite Hx in Hx'. by injection Hx' as <-. }
  split.
  - intros conn Hs. destruct (Hdone _ Hs) as (w0 & Hg & x0 & Hx0 & H1 & H2 & H3).
    rewrite (Hurl _ _ Hg Hx0) in *.
    split_and!; eauto using grows_call, grows_logged.
  - intros e Hs He. destruct (Hdone _ Hs) as (w0 & Hg & Hpost).
    destruct (Hpost He) as (x0 & Hx0 & Hlog).
    rewrite (Hurl _ _ Hg Hx0) in *. by eapply grows_logged.
Qed.

(** ** Sessions *)

(** X13: a session is asked for by the session task of the persona it is
    for, and from the client that the client future of that persona's
    class has produced. *)
Theorem session_requested_from_class_client w client p :
  reachable w → CreateSession client p ∈ calls w →
  ∃ me s t cl x,
    personas w !! p = Some me
    ∧ p_session_future me = Some s
    ∧ t_code <$> tasks w !! s = Some (CoInitClientSession p)
    ∧ classes w !! p_cls me = Some (Some t)
    ∧ task_state w t = Some (Done (Ok client))
    ∧ client = VClient cl ∧ clients w !! cl = Some x.
Proof.
  intros Hw Hin. pose proof (wf_reachable w Hw) as Hwf.
  destruct (hist_call_of w _ Hw Hin) as (i & w0 & t0 & tk0 & _ & Hg & _ & _ & Hpre).
  destruct (t_code tk0); try done. destruct Hpre as [-> Hcl].
  destruct (grows_client_of _ _ _ _ Hg Hcl) as (me & t & Hp & Hc & Ht).
  destruct (wf_persona _ Hwf _ _ Hp) as (_ & _ & s & tk & Hf & Hs & Hcode).
  destruct (wf_class_future _ Hwf _ _ Hc) as (p0 & me0 & tk1 & Ht1 & Hc1 & _).
  destruct (wf_init_client _ Hwf _ _ _ Ht1 Hc1) as (_ & url & _ & _ & _ & Hok).
  pose proof Ht as Ht'.
  unfold task_state in Ht'. rewrite Ht1 in Ht'. injection Ht' as Ht'.
  rewrite Ht' in Hok. destruct Hok as (_ & cl & x & -> & Hx & _).
  exists me, s, t, cl, x. split_and!; try done. by rewrite Hs, <- Hcode.
Qed.

(** X14: what the session future of a persona says once it is done.  With
    a result: the library was asked for a session for this persona, the
    result has a session id, which was logged and is what
    [get_session_id()] returns.  With an exception: it is the exception of
    the class's client future, or the library had been asked for the
    session. *)
Theorem session_future_outcome w p me s :
  reachable w → personas w !! p = Some me → p_session_future me = Some s →
  (∀ v, task_state w s = Some (Done (Ok v)) →
     ∃ sid client,
       v = VSession sid ∧ CreateSession client p ∈ calls w
       ∧ LogInfo (MsgInitSession (p_cls me) sid) ∈ log w
       ∧ run (RemoteAcpPersona.get_session_id p) w = (w, Finished (Ok sid)))
  ∧ (∀ e, task_state w s = Some (Done (Err e)) →
       (∃ t, classes w !! p_cls me = Some (Some t)
             ∧ task_state w t = Some (Done (Err e)))
       ∨ ∃ client, CreateSession client p ∈ calls w).
Proof.
  intros Hw Hp Hf. pose proof (wf_reachable w Hw) as Hwf.
  destruct (wf_persona _ Hwf _ _ Hp) as (_ & _ & s' & tk & Hf' & Ht & Hcode).
  rewrite Hf in Hf'. injection Hf' as <-.
  assert (Hdone : ∀ o, task_state w s = Some (Done o) →
            ∃ w0, grows w0 w ∧ task_post (CoInitClientSession p) w0 o).
  { intros o Hs. unfold task_state in Hs. rewrite Ht in Hs. injection Hs as Hs.
    rewrite <- Hcode. by eapply (hist_done _ (history_reachable w Hw)). }
  split.
  - intros v Hs.
    destruct (Hdone _ Hs) as (w0 & Hg & me0 & client & sid & Hp0 & -> & Hin & Hlog).
    pose proof (grows_persona _ _ _ _ Hg Hp0) as Hp0'.
    rewrite Hp in Hp0'. injection Hp0' as <-.
    exists sid, client. split_and!; [done|by eapply grows_call|by eapply grows_logged|].
    by rewrite (run_get_session_id p me s w Hp Hf), run_bind, run_await_task, Hs.
  - intros e Hs. destruct (Hdone _ Hs) as (w0 & Hg & [(me0 & t & Hp0 & Hc & Ht0)|[client Hin]]).
    + left. pose proof (grows_persona _ _ _ _ Hg Hp0) as Hp0'.
      rewrite Hp in Hp0'. injection Hp0' as <-.
      exists t. eauto using grows_class, grows_done.
    + right. exists client. by eapply grows_call.
Qed.

(** X15: two instances, of the same class or not, have different session
    futures, each run by the session task of its own instance. *)
Theorem instances_have_separate_sessions w p q mp mq :
  reachable w → personas w !! p = Some mp → personas w !! q = Some mq → p ≠ q →
  ∃ sp sq,
    p_session_future mp = Some sp ∧ p_session_future mq = Some sq ∧ sp ≠ sq
    ∧ t_code <$> tasks w !! sp = Some (CoInitClientSession p)
    ∧ t_code <$> tasks w !! sq = Some (CoInitClientSession q).
Proof.
  intros Hw Hp Hq Hne. pose proof (wf_reachable w Hw) as Hwf.
  destruct (wf_persona _ Hwf _ _ Hp) as (_ & _ & sp & tkp & Hfp & Htp & Hcp).
  destruct (wf_persona _ Hwf _ _ Hq) as (_ & _ & sq & tkq & Hfq & Htq & Hcq).
  exists sp, sq. split_and!; try done.
  - intros ->. rewrite Htp in Htq. injection Htq as <-. congruence.
  - by rewrite Htp, <- Hcp.
  - by rewrite Htq, <- Hcq.
Qed.

(** ** Messages *)

(** X16: every prompt that was forwarded was forwarded by a
    [process_message] call of some instance, to the client of that
    instance's class and with the id of that instance's own session, both
    futures having answered before; the prompt is the one built from the
    body of that call. *)
Theorem prompt_goes_to_own_client_and_session w client sid prompt :
  reachable w → PromptAndReply client sid prompt ∈ calls w →
  ∃ p body me t s,
    CoProcessMessage p body ∈ t_code <$> tasks w
    ∧ personas w !! p = Some me
    ∧ classes w !! p_cls me = Some (Some t)
    ∧ task_state w t = Some (Done (Ok client))
    ∧ p_session_future me = Some s
    ∧ task_state w s = Some (Done (Ok (VSession sid)))
    ∧ prompt = RemoteAcpPersona.prompt_of (p_mention me) body.
Proof.
  intros Hw Hin.
  destruct (hist_call_of w _ Hw Hin) as (i & w0 & t0 & tk0 & _ & Hg & _ & Ht0 & Hpre).
  destruct (t_code tk0) as [| | | |p body|] eqn:Hcode; try done.
  destruct Hpre as (Hcl & Hse & me & Hp & ->).
  destruct (grows_client_of _ _ _ _ Hg Hcl) as (me1 & t & Hp1 & Hc & Ht).
  destruct (grows_session_of _ _ _ _ Hg Hse) as (me2 & s & Hp2 & Hs & Hts).
  pose proof (grows_persona _ _ _ _ Hg Hp) as Hp'.
  rewrite Hp' in Hp1, Hp2. injection Hp1 as <-. injection Hp2 as <-.
  exists p, body, me, t, s. split_and!; try done.
  apply list_elem_of_fmap. exists tk0. split; [done|by eapply list_elem_of_lookup_2].
Qed.

(** X17: [process_message] forwards nothing before both futures have
    answered, and nothing at all when one of them has failed or the
    session has no id: it suspends on the client future, then on the
    session future, and raises the exception of the one that failed. *)
Theorem process_message_needs_both_futures w p me t s body :
  personas w !! p = Some me → class_getattr w (p_cls me) = Some (Some t) →
  p_session_future me = Some s →
  let r := run (RemoteAcpPersona.process_message p body) w in
  match task_state w t with
  | Some (Done (Err e)) => r = (w, Finished (Err e))
  | Some (Done (Ok client)) =>
      match task_state w s with
      | Some (Done (Err e)) => r = (w, Finished (Err e))
      | Some (Done (Ok (VSession sid))) =>
          ∃ k, r = (with_calls
                      (λ l, l ++ [PromptAndReply client sid
                                    (RemoteAcpPersona.prompt_of (p_mention me) body)]) w,
                    Blocked (OnExt (PromptAndReply client sid
                                      (RemoteAcpPersona.prompt_of (p_mention me) body))) k)
      | Some (Done (Ok _)) => r = (w, Finished (Err (Exn AttributeError "session_id")))
      | _ => ∃ k, r = (w, Blocked (OnTask s) k)
      end
  | _ => ∃ k, r = (w, Blocked (OnTask t) k)
  end.
Proof.
  intros Hp Hc Hs r. subst r.
  destruct (task_state w t) as [[| |[client|e]]|] eqn:Ht;
    try (unfold RemoteAcpPersona.process_message;
         rewrite run_bind, (run_get_client _ _ _ _ Hp Hc), run_await_task, Ht;
         by eexists).
  destruct (task_state w s) as [[| |[session|e]]|] eqn:Hts;
    try (unfold RemoteAcpPersona.process_message;
         rewrite run_bind, (run_get_client _ _ _ _ Hp Hc), run_await_task, Ht;
         rewrite run_bind, (run_get_session_id _ _ _ _ Hp Hs), run_bind,
           run_await_task, Hts;
         by eexists).
  destruct session as [| | |sid];
    try (unfold RemoteAcpPersona.process_message;
         rewrite run_bind, (run_get_client _ _ _ _ Hp Hc), run_await_task, Ht;
         rewrite run_bind, (run_get_session_id _ _ _ _ Hp Hs), run_bind,
           run_await_task, Hts;
         done).
  by eapply run_process_message.
Qed.

(** X18: a [process_message] call that has returned has returned [None]
    and has forwarded the prompt built from its body. *)
Theorem completed_message_was_forwarded w t tk p body v :
  reachable w → tasks w !! t = Some tk → t_code tk = CoProcessMessage p body →
  t_state tk = Done (Ok v) →
  v = VNone
  ∧ ∃ me client sid,
      personas w !! p = Some me
      ∧ PromptAndReply client sid
          (RemoteAcpPersona.prompt_of (p_mention me) body) ∈ calls w.
Proof.
  intros Hw Ht Hcode Hs.
  destruct (hist_done _ (history_reachable w Hw) _ _ _ Ht Hs) as (w0 & Hg & Hpost).
  rewrite Hcode in Hpost. destruct Hpost as (-> & me & client & sid & Hp & Hin).
  split; [done|]. exists me, client, sid.
  eauto using grows_persona, grows_call.
Qed.

(** ** Shutdown and close *)

(** X19: the order of the close sequence.  [get_connection()] is asked of
    the client of the persona's class; [conn.close()] comes after a
    [get_connection()]; and [__aexit__] is asked for by a [close()] call
    of the host, or by a [_shutdown] after its [conn.close()]. *)
Theorem close_sequence_order w i :
  reachable w →
  (∀ client, calls w !! i = Some (GetConnection client) → ∃ p, client_of w p client)
  ∧ (∀ conn, calls w !! i = Some (ConnClose conn) →
       ∃ j client p, (j < i)%nat ∧ calls w !! j = Some (GetConnection client)
                     ∧ client_of w p client)
  ∧ (∀ cl, calls w !! i = Some (ContextAexit cl) →
       CoClose cl ∈ t_code <$> tasks w
       ∨ ∃ j conn p, (j < i)%nat ∧ calls w !! j = Some (ConnClose conn)
                     ∧ client_of w p (VClient cl)).
Proof.
  intros Hw. pose proof (history_reachable w Hw) as Hh. split_and!.
  - intros client Hi.
    destruct (hist_calls _ Hh _ _ Hi) as (w0 & t0 & tk0 & Hg & Hl & _ & Hpre).
    destruct (t_code tk0) as [| | |p| |]; try done.
    exists p. by eapply grows_client_of.
  - intros conn Hi.
    destruct (hist_calls _ Hh _ _ Hi) as (w0 & t0 & tk0 & Hg & Hl & _ & Hpre).
    destruct (t_code tk0) as [| | |p| |]; try done.
    destruct Hpre as (client & Hcl & Hin).
    destruct (grows_call_before _ _ _ Hg Hin) as (j & Hj & Hcj).
    exists j, client, p. split_and!; [lia|done|by eapply grows_client_of].
  - intros cl Hi.
    destruct (hist_calls _ Hh _ _ Hi) as (w0 & t0 & tk0 & Hg & Hl & Ht0 & Hpre).
    destruct (t_code tk0) as [| | |p| |cl'] eqn:Hcode; try done.
    + right. destruct Hpre as (Hcl & conn & Hin).
      destruct (grows_call_before _ _ _ Hg Hin) as (j & Hj & Hcj).
      exists j, conn, p. split_and!; [lia|done|by eapply grows_client_of].
    + left. simpl in Hpre. subst cl'. apply list_elem_of_fmap.
      exists tk0. split; [done|by eapply list_elem_of_lookup_2].
Qed.

(** X20: a [_shutdown] that has ended normally has returned [None], has
    called [conn.close()], and has logged both its first and its last
    message. *)
Theorem completed_shutdown_has_closed w t tk p v :
  reachable w → tasks w !! t = Some tk → t_code tk = CoShutdown p →
  t_state tk = Done (Ok v) →
  v = VNone
  ∧ ∃ me conn,
      personas w !! p = Some me ∧ ConnClose conn ∈ calls w
      ∧ LogInfo (MsgClosingClient (p_cls me)) ∈ log w
      ∧ LogInfo (MsgCompletedClosing (p_cls me)) ∈ log w.
Proof.
  intros Hw Ht Hcode Hs.
  destruct (hist_done _ (history_reachable w Hw) _ _ _ Ht Hs) as (w0 & Hg & Hpost).
  rewrite Hcode in Hpost. destruct Hpost as (-> & me & conn & Hp & Hin & Hl1 & Hl2).
  split; [done|]. exists me, conn.
  split_and!; eauto using grows_persona, grows_call, grows_logged.
Qed.

(** X21: [close()] resets nothing.  On a client whose connection is
    established, each call asks for [__aexit__] again, whether or not it
    was asked before; and whatever happens, the client keeps its endpoint,
    its connection future and its context. *)
Theorem close_again_exits_again w cl x fut conn :
  reachable w → clients w !! cl = Some x → c_conn_future x = Some fut →
  task_state w fut = Some (Done (Ok conn)) →
  calls (exec [CallClose cl; Sched (length (tasks w))] w)
  = calls w ++ [ContextAexit cl]
  ∧ ∀ acts, ∃ x', clients (exec acts w) !! cl = Some x'
                  ∧ c_remote_url x' = c_remote_url x
                  ∧ c_conn_future x' = Some fut ∧ c_context x' = true.
Proof.
  intros Hw Hx Hf Hs. pose proof (wf_reachable w Hw) as Hwf.
  assert (Hctx : c_context x = true).
  { destruct (wf_client _ Hwf _ _ Hx) as (t & tk & Hf' & Ht & Hcode).
    rewrite Hf in Hf'. injection Hf' as <-.
    destruct (started_inv_reachable w Hw _ _ _ _ Ht Hcode Hx) as [Hr|]; [|done].
    unfold task_state in Hs. rewrite Ht in Hs. simpl in Hs. congruence. }
  split.
  - simpl. set (w1 := spawn (CoClose cl) w).
    assert (Ht1 : tasks w1 !! length (tasks w) = Some (Task (CoClose cl) Ready))
      by apply lookup_snoc_new.
    rewrite (sched_ready _ _ _ Ht1). unfold run_task.
    change (body (CoClose cl)) with (RemoteAcpClient.close cl).
    assert (Hs1 : task_state w1 fut = Some (Done (Ok conn))).
    { unfold task_state in *. subst w1. simpl.
      destruct (tasks w !! fut) as [tk|] eqn:E; [|done].
      by rewrite (lookup_app_l_Some _ _ _ _ E). }
    pose proof (run_close cl x fut w1 Hx Hctx Hf) as Hrun.
    rewrite Hs1 in Hrun. destruct Hrun as (k & -> & _). done.
  - intros acts.
    destruct (ext_clients _ _ (extends_exec acts w Hwf) _ _ Hx) as (x' & Hx' & Hu & Hf' & Hc).
    exists x'. split_and!; [done|done|congruence|by apply Hc].
Qed.

(** * The theorems at concrete inputs *)

Lemma reachable_demo_world : reachable demo_world.
Proof. unfold demo_world. eexists _, _, _, _. reflexivity. Defined.

Lemma one_shared_client_per_class_witness :
  reachable demo_world
  ∧ personas demo_world !! 1 = Some (Persona "BotA" (str "bot") (Some demo_url) (Some 2))
  ∧ (∃ t, ∀ acts,
      client_init_tasks (exec acts demo_world) "BotA" = [t]
      ∧ (length (handshake_tasks (exec acts demo_world) "BotA") ≤ 1)%nat)
  ∧ ncalls (is_connect 0) (exec [] demo_world) = 1%nat
  ∧ ncalls (is_handshake 0) (exec [] demo_world) = 1%nat.
Proof.
  split; [exact reachable_demo_world|]. split; [reflexivity|].
  destruct (one_shared_client_per_class demo_world "BotA" 1
              (Persona "BotA" (str "bot") (Some demo_url) (Some 2))
              reachable_demo_world eq_refl eq_refl) as [t Ht].
  split.
  - exists t. intros acts. destruct (Ht acts) as (H1 & _ & H2 & _).
    split; [exact H1|exact H2].
  - destruct (Ht []) as (H1 & _ & _ & _ & _ & _ & _ & H8).
    assert (E : client_init_tasks (exec [] demo_world) "BotA" = [0%nat])
      by reflexivity.
    rewrite E in H1. injection H1 as <-.
    exact (proj2 (proj2 (H8 0%nat (Client demo_url true (Some 5)) 5%nat
                           eq_refl eq_refl eq_refl))
             (VConn 7) eq_refl).
Defined.

Lemma subclasses_have_independent_clients_witness :
  reachable demo_world
  ∧ personas demo_world !! 0 = Some (Persona "BotA" (str "bot") (Some demo_url) (Some 1))
  ∧ personas demo_world !! 2 = Some (Persona "BotB" (str "other") (Some demo_url) (Some 4))
  ∧ "BotA" ≠ "BotB"
  ∧ ∃ t1 t2, t1 ≠ t2 ∧ client_init_tasks demo_world "BotA" = [t1]
             ∧ client_init_tasks demo_world "BotB" = [t2].
Proof.
  split; [exact reachable_demo_world|]. split; [reflexivity|].
  split; [reflexivity|]. split; [discriminate|].
  destruct (subclasses_have_independent_clients demo_world 0 2
              (Persona "BotA" (str "bot") (Some demo_url) (Some 1))
              (Persona "BotB" (str "other") (Some demo_url) (Some 4))
              reachable_demo_world eq_refl eq_refl)
    as (t1 & t2 & H1 & H2 & H3 & _); [discriminate|].
  exists t1, t2. split; [exact H1|]. split; [exact H2|exact H3].
Defined.

Lemma session_created_once_witness :
  reachable demo_world
  ∧ personas demo_world !! 0 = Some (Persona "BotA" (str "bot") (Some demo_url) (Some 1))
  ∧ (∀ acts,
      session_tasks (exec acts demo_world) 0 = [1]
      ∧ (ncalls (is_create_session 0) (exec acts demo_world) ≤ 1)%nat)
  ∧ ncalls (is_create_session 0) (exec [] demo_world) = 1%nat.
Proof.
  split; [exact reachable_demo_world|]. split; [reflexivity|].
  destruct (session_created_once demo_world 0
              (Persona "BotA" (str "bot") (Some demo_url) (Some 1))
              reachable_demo_world eq_refl) as (s & Hs & H).
  injection Hs as <-. split.
  - intros acts. destruct (H acts) as (_ & H1 & H2 & _).
    split; [exact H1|exact H2].
  - destruct (H []) as (_ & _ & _ & _ & _ & _ & H7).
    exact (proj1 (H7 (VSession (str "s1")) eq_refl)).
Defined.

Lemma malformed_url_rejected_witness :
  malformed (str "http://localhost:8080/ws")
  ∧ ∃ msg, run (RemoteAcpClient.__init__ (str "http://localhost:8080/ws"))
               (start demo_mro ∅ [])
           = (start demo_mro ∅ [], Finished (Err (Exn ValueError msg)))
           ∧ isinstance (Exn ValueError msg) ConnectionError = false.
Proof.
  assert (H : malformed (str "http://localhost:8080/ws"))
    by (right; split; reflexivity).
  split; [exact H|]. exact (malformed_url_rejected (start demo_mro ∅ []) _ H).
Defined.

Lemma whitespace_url_rejected_as_empty_witness :
  Forall (λ c, is_space c = true) [32; 9; 160]%N
  ∧ run (RemoteAcpClient.__init__ [32; 9; 160]%N) (start demo_mro ∅ [])
    = (start demo_mro ∅ [],
       Finished (Err (Exn ValueError "remote_url cannot be empty"))).
Proof.
  assert (H : Forall (λ c, is_space c = true) [32; 9; 160]%N)
    by (repeat constructor).
  split; [exact H|].
  exact (proj1 (whitespace_url_rejected_as_empty (start demo_mro ∅ []) _ H)).
Defined.

Lemma reachable_demo_message : reachable demo_message.
Proof. unfold demo_message. apply reachable_exec, reachable_demo_world. Defined.

Lemma forwarded_prompt_trimmed_witness :
  reachable demo_message
  ∧ PromptAndReply (VClient 0) (str "s1") (str "hi") ∈ calls demo_message
  ∧ trimmed (str "hi").
Proof.
  assert (H : PromptAndReply (VClient 0) (str "s1") (str "hi") ∈ calls demo_message).
  { vm_compute. do 3 apply list_elem_of_further. apply list_elem_of_here. }
  split; [exact reachable_demo_message|]. split; [exact H|].
  exact (forwarded_prompt_trimmed demo_message _ _ _ reachable_demo_message H).
Defined.

Lemma process_message_strips_mention_witness :
  personas demo_world !! 0 = Some (Persona "BotA" (str "bot") (Some demo_url) (Some 1))
  ∧ class_getattr demo_world "BotA" = Some (Some 0)
  ∧ task_state demo_world 0 = Some (Done (Ok (VClient 0)))
  ∧ task_state demo_world 1 = Some (Done (Ok (VSession (str "s1"))))
  ∧ ∃ k, run (RemoteAcpPersona.process_message 0 (str "@bot do X")) demo_world
         = (with_calls
              (λ l, l ++ [PromptAndReply (VClient 0) (str "s1") (str "do X")])
              demo_world,
            Blocked (OnExt (PromptAndReply (VClient 0) (str "s1") (str "do X"))) k).
Proof.
  split; [reflexivity|]. split; [reflexivity|]. split; [reflexivity|].
  split; [reflexivity|].
  exact (proj1 (process_message_strips_mention demo_world 0
                  (Persona "BotA" (str "bot") (Some demo_url) (Some 1))
                  0 (VClient 0) 1 (str "s1") (str "@bot do X")
                  eq_refl eq_refl eq_refl eq_refl eq_refl)).
Defined.

Lemma shutdown_never_raises_witness :
  run (RemoteAcpPersona.shutdown 0) demo_world
  = (spawn (CoShutdown 0) demo_world, Finished (Ok VNone))
  ∧ clients demo_world !! 0 = Some (Client demo_url true (Some 5))
  ∧ isinstance (Exn OSError "boom") Exception = true
  ∧ ∃ k, run (RemoteAcpClient.close 0) demo_world
         = (with_calls (λ l, l ++ [ContextAexit 0]) demo_world,
            Blocked (OnExt (ContextAexit 0)) k)
         ∧ ∀ w2, run (k (Err (Exn OSError "boom"))) w2
                 = (with_log
                      (λ l, l ++ [LogError (MsgErrorClosing (Exn OSError "boom"))]) w2,
                    Finished (Ok VNone)).
Proof.
  destruct (shutdown_never_raises demo_world 0) as (H1 & _ & H3).
  split; [exact H1|]. split; [reflexivity|]. split; [reflexivity|].
  exact (H3 0 (Client demo_url true (Some 5)) 5 (Exn OSError "boom")
           eq_refl eq_refl eq_refl eq_refl).
Defined.

Lemma reachable_demo_inflight : reachable demo_inflight.
Proof. unfold demo_inflight. eexists _, _, _, _. reflexivity. Defined.

Lemma close_waits_for_connection_witness :
  reachable demo_inflight
  ∧ clients demo_inflight !! 0 = Some (Client demo_url true (Some 2))
  ∧ ∃ k, run (RemoteAcpClient.close 0) demo_inflight
         = (demo_inflight, Blocked (OnTask 2) k)
         ∧ ∀ w2 o, close_waited 0 demo_url o w2 (run (k o) w2).
Proof.
  split; [exact reachable_demo_inflight|]. split; [reflexivity|].
  exact (proj2 (proj2 (close_waits_for_connection demo_inflight 0
                         (Client demo_url true (Some 2)) 2
                         reachable_demo_inflight eq_refl eq_refl))).
Defined.

Lemma example_persona_endpoint_witness :
  environ (start demo_mro ∅ []) !! "ACP_SERVER_URL" = None
  ∧ (∀ t, classes (start demo_mro ∅ []) !! "ExampleRemotePersona" ≠ Some (Some t))
  ∧ calls (exec [ConstructExample "ExampleRemotePersona" (str "example-remote-acp");
                 Sched 0; Sched 2] (start demo_mro ∅ []))
    = [ContextAenter 0 (str "ws://localhost:8080/ws")]
  ∧ environ (start demo_mro {[ "ACP_SERVER_URL" := str "wss://agent.example/acp" ]} [])
      !! "ACP_SERVER_URL" = Some (str "wss://agent.example/acp")
  ∧ calls (exec [ConstructExample "ExampleRemotePersona" (str "example-remote-acp");
                 Sched 0; Sched 2]
             (start demo_mro {[ "ACP_SERVER_URL" := str "wss://agent.example/acp" ]} []))
    = [ContextAenter 0 (str "wss://agent.example/acp")].
Proof.
  assert (Hf : ∀ env t, classes (start demo_mro env []) !! "ExampleRemotePersona"
                        ≠ Some (Some t)) by (intros env t; discriminate).
  split; [reflexivity|]. split; [exact (Hf ∅)|]. split.
  - exact (proj2 (proj1 (example_persona_endpoint (start demo_mro ∅ [])
                           "ExampleRemotePersona" (str "example-remote-acp"))
                    eq_refl) (Hf ∅)).
  - split; [reflexivity|].
    exact (proj2 (proj2 (example_persona_endpoint
                           (start demo_mro {[ "ACP_SERVER_URL" := str "wss://agent.example/acp" ]} [])
                           "ExampleRemotePersona" (str "example-remote-acp"))
                    (str "wss://agent.example/acp") eq_refl) (Hf _) eq_refl).
Defined.

(** ** The further properties at concrete inputs *)

Lemma message_without_mention_keeps_its_text_witness :
  contains (str " hi there ") (str "@" ++ str "bot") = false
  ∧ ∃ pre suf,
      str " hi there "
      = pre ++ RemoteAcpPersona.prompt_of (str "bot") (str " hi there ") ++ suf
      ∧ blank pre ∧ blank suf.
Proof.
  split; [reflexivity|].
  exact (message_without_mention_keeps_its_text (str "bot") (str " hi there ") eq_refl).
Defined.

Lemma mention_only_message_forwards_empty_prompt_witness :
  personas demo_world !! 0 = Some (Persona "BotA" (str "bot") (Some demo_url) (Some 1))
  ∧ class_getattr demo_world "BotA" = Some (Some 0)
  ∧ task_state demo_world 0 = Some (Done (Ok (VClient 0)))
  ∧ task_state demo_world 1 = Some (Done (Ok (VSession (str "s1"))))
  ∧ Forall blank [[32%N]; [9%N; 32%N]]
  ∧ ∃ k, run (RemoteAcpPersona.process_message 0
                (join (str "@" ++ str "bot") [[32%N]; [9%N; 32%N]])) demo_world
         = (with_calls (λ l, l ++ [PromptAndReply (VClient 0) (str "s1") []])
              demo_world,
            Blocked (OnExt (PromptAndReply (VClient 0) (str "s1") [])) k).
Proof.
  assert (H : Forall blank [[32%N]; [9%N; 32%N]]) by (repeat constructor).
  split; [reflexivity|]. split; [reflexivity|]. split; [reflexivity|].
  split; [reflexivity|]. split; [exact H|].
  exact (mention_only_message_forwards_empty_prompt demo_world 0
           (Persona "BotA" (str "bot") (Some demo_url) (Some 1))
           0 (VClient 0) 1 (str "s1") [[32%N]; [9%N; 32%N]]
           eq_refl eq_refl eq_refl eq_refl eq_refl H).
Defined.

Lemma invalid_endpoint_fails_the_client_future_witness :
  valid_url (str "http://agent.example") = false
  ∧ (∀ t, classes (start demo_mro ∅ []) !! "Bad" ≠ Some (Some t))
  ∧ ∃ msg,
      task_state
        (step (Sched (length (tasks (start demo_mro ∅ []))))
           (step (Construct "Bad" (str "bot") (str "http://agent.example"))
              (start demo_mro ∅ [])))
        (length (tasks (start demo_mro ∅ [])))
      = Some (Done (Err (Exn ValueError msg))).
Proof.
  assert (Hf : ∀ t, classes (start demo_mro ∅ []) !! "Bad" ≠ Some (Some t))
    by (intros t; discriminate).
  split; [reflexivity|]. split; [exact Hf|].
  destruct (invalid_endpoint_fails_the_client_future (start demo_mro ∅ []) "Bad"
              (str "bot") (str "http://agent.example") eq_refl Hf)
    as (_ & _ & _ & _ & _ & _ & msg & H & _).
  exists msg. exact H.
Defined.

Lemma example_persona_keeps_invalid_endpoint_witness :
  environ (start demo_mro {[ "ACP_SERVER_URL" := [] ]} []) !! "ACP_SERVER_URL" = Some []
  ∧ valid_url [] = false
  ∧ (∀ t, classes (start demo_mro {[ "ACP_SERVER_URL" := [] ]} [])
          !! "ExampleRemotePersona" ≠ Some (Some t))
  ∧ ∃ msg,
      task_state
        (exec [ConstructExample "ExampleRemotePersona" (str "example-remote-acp");
               Sched (length (tasks (start demo_mro {[ "ACP_SERVER_URL" := [] ]} [])))]
           (start demo_mro {[ "ACP_SERVER_URL" := [] ]} []))
        (length (tasks (start demo_mro {[ "ACP_SERVER_URL" := [] ]} [])))
      = Some (Done (Err (Exn ValueError msg))).
Proof.
  assert (Hf : ∀ t, classes (start demo_mro {[ "ACP_SERVER_URL" := [] ]} [])
                    !! "ExampleRemotePersona" ≠ Some (Some t))
    by (intros t; discriminate).
  assert (He : environ (start demo_mro {[ "ACP_SERVER_URL" := [] ]} [])
               !! "ACP_SERVER_URL" = Some []) by reflexivity.
  split; [exact He|]. split; [reflexivity|]. split; [exact Hf|].
  destruct (example_persona_keeps_invalid_endpoint
              (start demo_mro {[ "ACP_SERVER_URL" := [] ]} [])
              "ExampleRemotePersona" (str "example-remote-acp") [] He eq_refl Hf)
    as (_ & _ & _ & H).
  exact H.
Defined.

Lemma reachable_demo_failed : reachable demo_failed.
Proof. unfold demo_failed. eexists _, _, _, _. reflexivity. Defined.

Lemma failed_client_future_is_final_witness :
  reachable demo_failed
  ∧ classes demo_failed !! "Bad" = Some (Some 0)
  ∧ task_state demo_failed 0
    = Some (Done (Err (Exn ValueError "remote_url must start with ws:// or wss://")))
  ∧ ∀ acts, clients_of_class (exec acts demo_failed) "Bad" = [].
Proof.
  split; [exact reachable_demo_failed|]. split; [reflexivity|]. split; [reflexivity|].
  destruct (failed_client_future_is_final demo_failed "Bad" 0
              (Exn ValueError "remote_url must start with ws:// or wss://")
              reachable_demo_failed eq_refl eq_refl) as [_ H].
  intros acts. destruct (H acts) as (_ & _ & H3 & _). exact H3.
Defined.

Lemma shared_client_uses_first_endpoint_witness :
  reachable demo_world
  ∧ personas demo_world !! 1 = Some (Persona "BotA" (str "bot") (Some demo_url) (Some 2))
  ∧ ∃ t p0, classes demo_world !! "BotA" = Some (Some t)
            ∧ t_code <$> tasks demo_world !! t = Some (CoInitClient p0)
            ∧ (p0 ≤ 1)%nat.
Proof.
  split; [exact reachable_demo_world|]. split; [reflexivity|].
  destruct (shared_client_uses_first_endpoint demo_world 1
              (Persona "BotA" (str "bot") (Some demo_url) (Some 2))
              reachable_demo_world eq_refl)
    as (t & p0 & me0 & url0 & H1 & H2 & _ & _ & _ & H3 & _).
  exists t, p0. split; [exact H1|]. split; [exact H2|].
  exact (H3 1 (Persona "BotA" (str "bot") (Some demo_url) (Some 2)) eq_refl eq_refl).
Defined.

Lemma transport_opened_to_client_endpoint_witness :
  reachable demo_world
  ∧ ContextAenter 0 demo_url ∈ calls demo_world
  ∧ valid_url demo_url = true
  ∧ ∃ x, clients demo_world !! 0 = Some x ∧ c_remote_url x = demo_url
         ∧ c_context x = true.
Proof.
  assert (H : ContextAenter 0 demo_url ∈ calls demo_world).
  { vm_compute. apply list_elem_of_here. }
  split; [exact reachable_demo_world|]. split; [exact H|].
  destruct (transport_opened_to_client_endpoint demo_world 0 demo_url
              reachable_demo_world H) as (H1 & _ & H2).
  split; [exact H1|exact H2].
Defined.

Lemma handshake_follows_transport_witness :
  reachable demo_world
  ∧ calls demo_world !! 1 = Some (ConnInitialize 0 (VConn 7))
  ∧ ∃ j url, (j < 1)%nat ∧ calls demo_world !! j = Some (ContextAenter 0 url).
Proof.
  split; [exact reachable_demo_world|]. split; [reflexivity|].
  exact (handshake_follows_transport demo_world 1 0 (VConn 7)
           reachable_demo_world eq_refl).
Defined.

Lemma connection_future_outcome_witness :
  reachable demo_world
  ∧ clients demo_world !! 0 = Some (Client demo_url true (Some 5))
  ∧ task_state demo_world 5 = Some (Done (Ok (VConn 7)))
  ∧ ContextAenter 0 demo_url ∈ calls demo_world
  ∧ ConnInitialize 0 (VConn 7) ∈ calls demo_world
  ∧ LogInfo (MsgConnected demo_url) ∈ log demo_world.
Proof.
  split; [exact reachable_demo_world|]. split; [reflexivity|]. split; [reflexivity|].
  destruct (connection_future_outcome demo_world 0 (Client demo_url true (Some 5)) 5
              reachable_demo_world eq_refl eq_refl) as [H _].
  exact (H (VConn 7) eq_refl).
Defined.

Lemma session_requested_from_class_client_witness :
  reachable demo_world
  ∧ CreateSession (VClient 0) 0 ∈ calls demo_world
  ∧ ∃ me s t cl x,
      personas demo_world !! 0 = Some me
      ∧ p_session_future me = Some s
      ∧ t_code <$> tasks demo_world !! s = Some (CoInitClientSession 0)
      ∧ classes demo_world !! p_cls me = Some (Some t)
      ∧ task_state demo_world t = Some (Done (Ok (VClient 0)))
      ∧ VClient 0 = VClient cl ∧ clients demo_world !! cl = Some x.
Proof.
  assert (H : CreateSession (VClient 0) 0 ∈ calls demo_world).
  { vm_compute. do 2 apply list_elem_of_further. apply list_elem_of_here. }
  split; [exact reachable_demo_world|]. split; [exact H|].
  exact (session_requested_from_class_client demo_world (VClient 0) 0
           reachable_demo_world H).
Defined.

Lemma session_future_outcome_witness :
  reachable demo_world
  ∧ personas demo_world !! 0 = Some (Persona "BotA" (str "bot") (Some demo_url) (Some 1))
  ∧ task_state demo_world 1 = Some (Done (Ok (VSession (str "s1"))))
  ∧ ∃ sid client,
      VSession (str "s1") = VSession sid
      ∧ CreateSession client 0 ∈ calls demo_world
      ∧ LogInfo (MsgInitSession "BotA" sid) ∈ log demo_world
      ∧ run (RemoteAcpPersona.get_session_id 0) demo_world
        = (demo_world, Finished (Ok sid)).
Proof.
  split; [exact reachable_demo_world|]. split; [reflexivity|]. split; [reflexivity|].
  destruct (session_future_outcome demo_world 0
              (Persona "BotA" (str "bot") (Some demo_url) (Some 1)) 1
              reachable_demo_world eq_refl eq_refl) as [H _].
  exact (H (VSession (str "s1")) eq_refl).
Defined.

Lemma instances_have_separate_sessions_witness :
  reachable demo_world
  ∧ personas demo_world !! 0 = Some (Persona "BotA" (str "bot") (Some demo_url) (Some 1))
  ∧ personas demo_world !! 1 = Some (Persona "BotA" (str "bot") (Some demo_url) (Some 2))
  ∧ 0%nat ≠ 1%nat
  ∧ ∃ sp sq, Some 1%nat = Some sp ∧ Some 2%nat = Some sq ∧ sp ≠ sq.
Proof.
  split; [exact reachable_demo_world|]. split; [reflexivity|]. split; [reflexivity|].
  split; [discriminate|].
  destruct (instances_have_separate_sessions demo_world 0 1
              (Persona "BotA" (str "bot") (Some demo_url) (Some 1))
              (Persona "BotA" (str "bot") (Some demo_url) (Some 2))
              reachable_demo_world eq_refl eq_refl)
    as (sp & sq & H1 & H2 & H3 & _); [discriminate|].
  exists sp, sq. split; [exact H1|]. split; [exact H2|exact H3].
Defined.

Lemma prompt_goes_to_own_client_and_session_witness :
  reachable demo_message
  ∧ PromptAndReply (VClient 0) (str "s1") (str "hi") ∈ calls demo_message
  ∧ ∃ p body me t s,
      CoProcessMessage p body ∈ t_code <$> tasks demo_message
      ∧ personas demo_message !! p = Some me
      ∧ classes demo_message !! p_cls me = Some (Some t)
      ∧ task_state demo_message t = Some (Done (Ok (VClient 0)))
      ∧ p_session_future me = Some s
      ∧ task_state demo_message s = Some (Done (Ok (VSession (str "s1"))))
      ∧ str "hi" = RemoteAcpPersona.prompt_of (p_mention me) body.
Proof.
  assert (H : PromptAndReply (VClient 0) (str "s1") (str "hi") ∈ calls demo_message).
  { vm_compute. do 3 apply list_elem_of_further. apply list_elem_of_here. }
  split; [exact reachable_demo_message|]. split; [exact H|].
  exact (prompt_goes_to_own_client_and_session demo_message _ _ _
           reachable_demo_message H).
Defined.

Lemma process_message_needs_both_futures_witness :
  personas demo_inflight !! 0
  = Some (Persona "BotA" (str "bot") (Some demo_url) (Some 1))
  ∧ class_getattr demo_inflight "BotA" = Some (Some 0)
  ∧ match task_state demo_inflight 0 with
    | Some (Done (Err e)) =>
        run (RemoteAcpPersona.process_message 0 (str "hi")) demo_inflight
        = (demo_inflight, Finished (Err e))
    | Some (Done (Ok client)) =>
        match task_state demo_inflight 1 with
        | Some (Done (Err e)) =>
            run (RemoteAcpPersona.process_message 0 (str "hi")) demo_inflight
            = (demo_inflight, Finished (Err e))
        | Some (Done (Ok (VSession sid))) =>
            ∃ k, run (RemoteAcpPersona.process_message 0 (str "hi")) demo_inflight
                 = (with_calls
                      (λ l, l ++ [PromptAndReply client sid
                                    (RemoteAcpPersona.prompt_of (str "bot") (str "hi"))])
                      demo_inflight,
                    Blocked (OnExt (PromptAndReply client sid
                                      (RemoteAcpPersona.prompt_of (str "bot") (str "hi"))))
                      k)
        | Some (Done (Ok _)) =>
            run (RemoteAcpPersona.process_message 0 (str "hi")) demo_inflight
            = (demo_inflight, Finished (Err (Exn AttributeError "session_id")))
        | _ => ∃ k, run (RemoteAcpPersona.process_message 0 (str "hi")) demo_inflight
                    = (demo_inflight, Blocked (OnTask 1) k)
        end
    | _ => ∃ k, run (RemoteAcpPersona.process_message 0 (str "hi")) demo_inflight
                = (demo_inflight, Blocked (OnTask 0) k)
    end.
Proof.
  split; [reflexivity|]. split; [reflexivity|].
  exact (process_message_needs_both_futures demo_inflight 0
           (Persona "BotA" (str "bot") (Some demo_url) (Some 1)) 0 1 (str "hi")
           eq_refl eq_refl eq_refl).
Defined.

Lemma reachable_demo_answered : reachable demo_answered.
Proof. unfold demo_answered. apply reachable_exec, reachable_demo_message. Defined.

Lemma completed_message_was_forwarded_witness :
  reachable demo_answered
  ∧ tasks demo_answered !! 7
    = Some (Task (CoProcessMessage 0 [32; 104; 105; 9]%N) (Done (Ok VNone)))
  ∧ ∃ me client sid,
      personas demo_answered !! 0 = Some me
      ∧ PromptAndReply client sid
          (RemoteAcpPersona.prompt_of (p_mention me) [32; 104; 105; 9]%N)
        ∈ calls demo_answered.
Proof.
  split; [exact reachable_demo_answered|]. split; [reflexivity|].
  exact (proj2 (completed_message_was_forwarded demo_answered 7
                  (Task (CoProcessMessage 0 [32; 104; 105; 9]%N) (Done (Ok VNone)))
                  0 [32; 104; 105; 9]%N VNone
                  reachable_demo_answered eq_refl eq_refl eq_refl)).
Defined.

Lemma reachable_demo_closed : reachable demo_closed.
Proof. unfold demo_closed. apply reachable_exec, reachable_demo_world. Defined.

Lemma close_sequence_order_witness :
  reachable demo_closed
  ∧ calls demo_closed !! 4 = Some (ConnClose (VConn 7))
  ∧ ∃ j client p, (j < 4)%nat ∧ calls demo_closed !! j = Some (GetConnection client)
                  ∧ client_of demo_closed p client.
Proof.
  split; [exact reachable_demo_closed|]. split; [reflexivity|].
  destruct (close_sequence_order demo_closed 4 reachable_demo_closed) as (_ & H & _).
  exact (H (VConn 7) eq_refl).
Defined.

Lemma completed_shutdown_has_closed_witness :
  reachable demo_closed
  ∧ tasks demo_closed !! 7 = Some (Task (CoShutdown 0) (Done (Ok VNone)))
  ∧ ∃ me conn,
      personas demo_closed !! 0 = Some me ∧ ConnClose conn ∈ calls demo_closed
      ∧ LogInfo (MsgClosingClient (p_cls me)) ∈ log demo_closed
      ∧ LogInfo (MsgCompletedClosing (p_cls me)) ∈ log demo_closed.
Proof.
  split; [exact reachable_demo_closed|]. split; [reflexivity|].
  exact (proj2 (completed_shutdown_has_closed demo_closed 7
                  (Task (CoShutdown 0) (Done (Ok VNone))) 0 VNone
                  reachable_demo_closed eq_refl eq_refl eq_refl)).
Defined.

Lemma close_again_exits_again_witness :
  reachable demo_closed
  ∧ clients demo_closed !! 0 = Some (Client demo_url true (Some 5))
  ∧ task_state demo_closed 5 = Some (Done (Ok (VConn 7)))
  ∧ ContextAexit 0 ∈ calls demo_closed
  ∧ calls (exec [CallClose 0; Sched (length (tasks demo_closed))] demo_closed)
    = calls demo_closed ++ [ContextAexit 0].
Proof.
  split; [exact reachable_demo_closed|]. split; [reflexivity|]. split; [reflexivity|].
  split; [vm_compute; do 5 apply list_elem_of_further; apply list_elem_of_here|].
  exact (proj1 (close_again_exits_again demo_closed 0
                  (Client demo_url true (Some 5)) 5 (VConn 7)
                  reachable_demo_closed eq_refl eq_refl eq_refl)).
Defined.
